(** * Moonstone importer: classification, matching and reconciliation

    A shallow embedding of the JavaScript/TypeScript sources of the importer
    (text and validation utilities, fuzzy matcher, form classifier, founder
    and searcher processors, the retrying Notion client, the environment
    validator, the orchestrator, and the monolithic script they were
    refactored from), with the properties of the specification stated and
    proved over it.

    Conventions.
    - A JavaScript string is the sequence of its UTF-16 code units
      ([jsstring := list N]); ASCII literals are written with [lit].
    - [null]/[undefined] cells are [None]; a spreadsheet row is a list of
      optional strings, and reading past its end yields [undefined].
    - JavaScript numbers that take part in arithmetic are IEEE binary64
      values ([float], the kernel's primitive floats).
    - Built-ins whose behaviour is given by the Unicode tables or by the
      number grammar ([toLowerCase], [normalize("NFKD")], the
      [\p{Diacritic}] class, [Number]) are fields of the class [Builtins];
      only their behaviour on lower-case ASCII alphanumerics and spaces is
      assumed.
    - The Notion client is an abstract state transformer that may throw.
    - Console output is modelled where a property speaks about it (the
      processors); elsewhere it is left out.

    The file has three parts: the embedding (definitions only), the
    properties of the specification, and further properties of the code. *)

From Stdlib Require Import List NArith ZArith Lia Bool String Ascii.
From Stdlib Require Import DecimalString Uint63 Floats.
Import ListNotations.

Set Implicit Arguments.

(* ################################################################## *)
(** * Part I: the embedding *)

(* ================================================================== *)
(** ** JavaScript strings, rows and built-ins *)

Module JS.

Definition jsstring := list N.

(** An ASCII literal as code units. *)
Definition lit (s : string) : jsstring :=
  List.map N_of_ascii (list_ascii_of_string s).

Definition jsstring_eqb (a b : jsstring) : bool :=
  if list_eq_dec N.eq_dec a b then true else false.

(** Truthiness of a string value: the empty string is falsy. *)
Definition truthy (s : jsstring) : bool :=
  match s with [] => false | _ :: _ => true end.

(** Truthiness of a possibly absent string: [null], [undefined] and the
    empty string are falsy. *)
Definition otruthy (o : option jsstring) : bool :=
  match o with Some (_ :: _) => true | _ => false end.

(** [x || ''] for a possibly absent string. *)
Definition orEmpty (o : option jsstring) : jsstring :=
  match o with Some s => s | None => [] end.

(** ECMAScript WhiteSpace and LineTerminator code units, the ones
    [String.prototype.trim] strips. *)
Definition isWhiteSpace (c : N) : bool :=
  ((9 <=? c) && (c <=? 13) || (c =? 32) || (c =? 160) || (c =? 5760)
   || (8192 <=? c) && (c <=? 8202) || (c =? 8232) || (c =? 8233)
   || (c =? 8239) || (c =? 8287) || (c =? 12288) || (c =? 65279))%N.

Fixpoint trimStart (s : jsstring) : jsstring :=
  match s with
  | [] => []
  | c :: s' => if isWhiteSpace c then trimStart s' else s
  end.

Fixpoint trimEnd (s : jsstring) : jsstring :=
  match s with
  | [] => []
  | c :: s' =>
      match trimEnd s' with
      | [] => if isWhiteSpace c then [] else [c]
      | t => c :: t
      end
  end.

(** [String.prototype.trim]. *)
Definition trim (s : jsstring) : jsstring := trimEnd (trimStart s).

(** [haystack.includes(needle)]. *)
Fixpoint startsWith (needle s : jsstring) : bool :=
  match needle, s with
  | [], _ => true
  | _ :: _, [] => false
  | a :: needle', b :: s' => (a =? b)%N && startsWith needle' s'
  end.

Fixpoint includes (needle s : jsstring) : bool :=
  startsWith needle s ||
  match s with
  | [] => false
  | _ :: s' => includes needle s'
  end.

(** The character class [[a-z0-9]]. *)
Definition alnum (c : N) : bool :=
  ((97 <=? c) && (c <=? 122) || (48 <=? c) && (c <=? 57))%N.

(** Lower-case ASCII alphanumerics and the space: the alphabet of normalized
    keys. *)
Definition plain (c : N) : bool := alnum c || (c =? 32)%N.

(** The built-ins that depend on the Unicode character database or on the
    numeric-literal grammar.  [removeDiacritics] is
    the removal of every [\p{Diacritic}] character (a [replace] with the
    [gu] flags); [toNumber] is [Number(v)] on a cell. *)
Class Builtins := {
  toLowerCase : jsstring -> jsstring;
  normalizeNFKD : jsstring -> jsstring;
  removeDiacritics : jsstring -> jsstring;
  toNumber : option jsstring -> float;
  toLowerCase_plain :
    forall s, forallb plain s = true -> toLowerCase s = s;
  normalizeNFKD_plain :
    forall s, forallb plain s = true -> normalizeNFKD s = s;
  removeDiacritics_plain :
    forall s, forallb plain s = true -> removeDiacritics s = s
}.

(** The property names every object literal inherits from
    [Object.prototype]; each of them holds a function or an object, hence a
    truthy value. *)
Definition objectPrototypeNames : list jsstring :=
  map lit [ "constructor"; "__proto__"; "hasOwnProperty"; "isPrototypeOf";
            "propertyIsEnumerable"; "toLocaleString"; "toString"; "valueOf";
            "__defineGetter__"; "__defineSetter__"; "__lookupGetter__";
            "__lookupSetter__" ]%string.

(** [k] names a property inherited from [Object.prototype]. *)
Definition inherited (k : jsstring) : bool :=
  existsb (jsstring_eqb k) objectPrototypeNames.

(** The array index a property name denotes, if it is one: a canonical
    decimal numeral below 2^32 - 1. *)
Definition isDigit (c : N) : bool := ((48 <=? c) && (c <=? 57))%N.

Definition arrayIndex (k : jsstring) : option N :=
  match k with
  | [] => None
  | c :: rest =>
      if forallb isDigit k
         && (negb (c =? 48)%N || match rest with [] => true | _ => false end)
      then
        let v := fold_left (fun acc d => acc * 10 + (d - 48))%N k 0%N in
        if (v <? 2 ^ 32 - 1)%N then Some v else None
      else None
  end.

(** A spreadsheet row: an array of cells, each a string or absent. *)
Definition Row := list (option jsstring).

(** [row[i]]: [undefined] past the end of the array. *)
Definition cell (row : Row) (i : nat) : option jsstring :=
  match nth_error row i with
  | Some c => c
  | None => None
  end.

(** Decimal rendering of a count inside a template literal. *)
Definition showNat (n : nat) : jsstring :=
  lit (NilZero.string_of_uint (Nat.to_uint n)).

(** *** Numbers *)

(** A count as a JavaScript number (exact below 2^53). *)
Definition ofNat (n : nat) : float :=
  PrimFloat.of_uint63 (Uint63.of_Z (Z.of_nat n)).

Definition ofZ (z : Z) : float :=
  match z with
  | Z0 => PrimFloat.zero
  | Zpos _ => PrimFloat.of_uint63 (Uint63.of_Z z)
  | Zneg p => PrimFloat.opp (PrimFloat.of_uint63 (Uint63.of_Z (Zpos p)))
  end.

(** [Math.round(x)]: the integer nearest to [x], ties towards +infinity.
    A finite double is [m * 2^e]; when [e >= 0] it is already an integer.
    (The sign of a zero result is not tracked.) *)
Definition Math_round (x : float) : float :=
  match Prim2SF x with
  | S754_finite s m e =>
      if (e <? 0)%Z then
        let v := if s then Zneg m else Zpos m in
        ofZ ((2 * v + 2 ^ (- e)) / 2 ^ (- e + 1))%Z
      else x
  | _ => x
  end.

(** Number of iterations of [for (let i = 0; i < x; i++)]: [None] when the
    loop does not terminate ([x] is +Infinity, or beyond 2^53 where [i++]
    no longer advances). *)
Definition loopCount (x : float) : option nat :=
  match Prim2SF x with
  | S754_zero _ => Some 0
  | S754_nan => Some 0
  | S754_infinity s => if s then Some 0 else None
  | S754_finite s m e =>
      if s then Some 0
      else
        let c := (if 0 <=? e then Zpos m * 2 ^ e
                  else (Zpos m + 2 ^ (- e) - 1) / 2 ^ (- e))%Z in
        if (c <=? 2 ^ 53)%Z then Some (Z.to_nat c) else None
  end.

(** [x || d] on numbers: [NaN] and zeros are falsy. *)
Definition numberOr (x d : float) : float :=
  match Prim2SF x with
  | S754_zero _ => d
  | S754_nan => d
  | _ => x
  end.

End JS.

Import JS.

(* ================================================================== *)
(** ** fastest-levenshtein *)

Module Levenshtein.

(** Modelled from the library's contract: [distance(a, b)] of the
    third-party package [fastest-levenshtein] is the Levenshtein edit
    distance between the code-unit sequences [a] and [b] (insertions,
    deletions and substitutions, each of cost 1). *)
Fixpoint distance (a : jsstring) : jsstring -> nat :=
  match a with
  | [] => fun b => List.length b
  | x :: a' =>
      fix inner (b : jsstring) : nat :=
        match b with
        | [] => S (List.length a')
        | y :: b' =>
            Nat.min (Nat.min (S (distance a' b)) (S (inner b')))
                    (distance a' b' + (if (x =? y)%N then 0 else 1))
        end
  end.

End Levenshtein.

(* ================================================================== *)
(** ** src/utils/textUtils *)

Module Text.

(** [digitMap]: superscript and subscript digits to ASCII digits. *)
Definition digitMap (c : N) : option N :=
  (if c =? 0x2070 then Some 48
   else if c =? 0xB9 then Some 49
   else if c =? 0xB2 then Some 50
   else if c =? 0xB3 then Some 51
   else if (0x2074 <=? c) && (c <=? 0x2079) then Some (c - 0x2074 + 52)
   else if (0x2080 <=? c) && (c <=? 0x2089) then Some (c - 0x2080 + 48)
   else None)%N.

(** The [replace] over the class of superscript and subscript digits, each
    replaced by its entry in [digitMap]. *)
Definition replaceDigits (s : jsstring) : jsstring :=
  List.map (fun c => match digitMap c with Some d => d | None => c end) s.

(** [.replace(/[^a-z0-9]+/g, " ")]: every maximal run of characters outside
    [[a-z0-9]] becomes one space.  [inRun] records that the previous
    character belonged to such a run. *)
Fixpoint collapseFrom (inRun : bool) (s : jsstring) : jsstring :=
  match s with
  | [] => []
  | c :: s' =>
      if alnum c then c :: collapseFrom false s'
      else if inRun then collapseFrom true s'
      else 32%N :: collapseFrom true s'
  end.

Definition collapseNonAlnum (s : jsstring) : jsstring := collapseFrom false s.

Section WithBuiltins.
Context {B : Builtins}.

(** [normalizeText(text)]. *)
Definition normalizeText (text : option jsstring) : jsstring :=
  if otruthy text then
    trim (collapseNonAlnum (removeDiacritics (replaceDigits
      (normalizeNFKD (toLowerCase (orEmpty text))))))
  else [].

End WithBuiltins.

(** [hasContent(text)]. *)
Definition hasContent (text : option jsstring) : bool :=
  otruthy text && (0 <? List.length (trim (orEmpty text)))%nat.

(** [countFilledFields(row, indices)]. *)
Definition countFilledFields (row : Row) (indices : list nat) : nat :=
  fold_left (fun count index =>
               count + (if hasContent (cell row index) then 1 else 0))
            indices 0.

(** Shape of the output of [collapseFrom]: only plain characters, no two
    consecutive spaces, and no leading space when [afterSpace] holds. *)
Fixpoint separated (afterSpace : bool) (s : jsstring) : bool :=
  match s with
  | [] => true
  | c :: s' =>
      if alnum c then separated false s'
      else (c =? 32)%N && negb afterSpace && separated true s'
  end.

(** A normalized key: plain characters, single interior spaces, no leading
    or trailing space. *)
Definition normalized (s : jsstring) : Prop :=
  separated false s = true /\ trim s = s.

End Text.

(* ================================================================== *)
(** ** src/utils/matchingUtils *)

Module Matching.
Import Text.

(** The loop state of [findBestMatch]; [bestScore = None] is [Infinity]. *)
Record Best := mkBest {
  bestMatch : option jsstring;
  bestScore : option nat
}.

Definition initialBest : Best := mkBest None None.

(** [score < bestScore]. *)
Definition improves (score : nat) (best : option nat) : bool :=
  match best with
  | None => true
  | Some b => (score <? b)%nat
  end.

Section WithBuiltins.
Context {B : Builtins}.

(** One iteration of the loop of [findBestMatch]. *)
Definition considerCandidate (normalizedTarget : jsstring) (st : Best)
  (candidate : jsstring) : Best :=
  if truthy candidate then
    let normalizedCandidate := normalizeText (Some candidate) in
    let score := Levenshtein.distance normalizedTarget normalizedCandidate in
    if improves score (bestScore st) then mkBest (Some candidate) (Some score)
    else st
  else st.

(** [findBestMatch(target, candidates, maxDistance)]. *)
Definition findBestMatch (target : jsstring) (candidates : list jsstring)
  (maxDistance : Z) : option jsstring :=
  if truthy target then
    let normalizedTarget := normalizeText (Some target) in
    let st := fold_left (considerCandidate normalizedTarget) candidates
                        initialBest in
    match bestScore st with
    | Some score =>
        if (Z.of_nat score <=? maxDistance)%Z then bestMatch st else None
    | None => None
    end
  else None.

(** The default value of the parameter [maxDistance]. *)
Definition defaultMaxDistance : Z := 2.

(** [findMatchingReferrals(searcherName, referralRows, referralNameColumn)]. *)
Definition referralMatches (normalizedSearcherName : jsstring)
  (referralNameColumn : nat) (row : Row) : bool :=
  let referralName := cell row referralNameColumn in
  if otruthy referralName then
    jsstring_eqb (normalizeText referralName) normalizedSearcherName
  else false.

Definition findMatchingReferrals (searcherName : jsstring)
  (referralRows : list Row) (referralNameColumn : nat) : list Row :=
  if truthy searcherName then
    let normalizedSearcherName := normalizeText (Some searcherName) in
    List.filter (referralMatches normalizedSearcherName referralNameColumn)
                referralRows
  else [].

End WithBuiltins.

End Matching.

(* ================================================================== *)
(** ** src/config/constants and src/processors/formClassifier *)

Module Classifier.

(** The own properties of the object literal [FORM_TYPE_MAPPINGS]. *)
Definition FORM_TYPE_MAPPINGS : list (jsstring * jsstring) :=
  [ (lit "i am a founder and i want to take my startup to the moon.",
     lit "founder");
    (lit "i know an incredible founder, someone moonstone should get to know.",
     lit "founder referral");
    (lit "i am an entrepreneur and i want to be a searcher for moonstone's search fund.",
     lit "searcher");
    (lit "i know an incredible entrepreneur, that would be a great searcher for moonstone's search fund.",
     lit "searcher referral") ].

(** The values [classifyFormType] can return: a string, or what a lookup
    through the prototype chain found. *)
Inductive value :=
| VString (s : jsstring)
| VInherited (name : jsstring).

Fixpoint ownProperty (o : list (jsstring * jsstring)) (k : jsstring)
  : option jsstring :=
  match o with
  | [] => None
  | (k', v) :: o' => if jsstring_eqb k' k then Some v else ownProperty o' k
  end.

(** [FORM_TYPE_MAPPINGS[k]]: own properties first, then the prototype;
    [None] is [undefined]. *)
Definition getProperty (o : list (jsstring * jsstring)) (k : jsstring)
  : option value :=
  match ownProperty o k with
  | Some v => Some (VString v)
  | None =>
      if inherited k then Some (VInherited k) else None
  end.

Definition valueTruthy (v : value) : bool :=
  match v with
  | VString s => truthy s
  | VInherited _ => true
  end.

(** The argument of [classifyFormType]: an array of cells, or anything
    else ([null], [undefined], a non-array value). *)
Inductive RowInput :=
| NotAnArray
| IsArray (row : Row).

Definition unknown : value := VString (lit "unknown").

Section WithBuiltins.
Context {B : Builtins}.

(** [classifyFormType(row)]. *)
Definition classifyFormType (row : RowInput) : value :=
  match row with
  | NotAnArray => unknown
  | IsArray r =>
      let formIntent := toLowerCase (trim (orEmpty (cell r 3))) in
      match getProperty FORM_TYPE_MAPPINGS formIntent with
      | Some formType => if valueTruthy formType then formType else unknown
      | None => unknown
      end
  end.

(** The object built by [categorizeAllForms]. *)
Record Categories := mkCategories {
  founders : list Row;
  founderReferrals : list Row;
  searchers : list Row;
  searcherReferrals : list Row;
  unknownForms : list Row
}.

Definition emptyCategories : Categories := mkCategories [] [] [] [] [].

(** [formType === s]: strict equality with a string literal. *)
Definition isString (v : value) (s : jsstring) : bool :=
  match v with
  | VString s' => jsstring_eqb s' s
  | VInherited _ => false
  end.

(** The body of the loop of [categorizeAllForms]: the [switch]. *)
Definition categorize (categories : Categories) (row : Row) : Categories :=
  let formType := classifyFormType (IsArray row) in
  if isString formType (lit "founder") then
    mkCategories (founders categories ++ [row]) (founderReferrals categories)
      (searchers categories) (searcherReferrals categories)
      (unknownForms categories)
  else if isString formType (lit "founder referral") then
    mkCategories (founders categories) (founderReferrals categories ++ [row])
      (searchers categories) (searcherReferrals categories)
      (unknownForms categories)
  else if isString formType (lit "searcher") then
    mkCategories (founders categories) (founderReferrals categories)
      (searchers categories ++ [row]) (searcherReferrals categories)
      (unknownForms categories)
  else if isString formType (lit "searcher referral") then
    mkCategories (founders categories) (founderReferrals categories)
      (searchers categories) (searcherReferrals categories ++ [row])
      (unknownForms categories)
  else
    mkCategories (founders categories) (founderReferrals categories)
      (searchers categories) (searcherReferrals categories)
      (unknownForms categories ++ [row]).

(** [categorizeAllForms(allRows)] on an array of rows. *)
Definition categorizeAllForms (allRows : list Row) : Categories :=
  fold_left categorize allRows emptyCategories.

(** [validateFormData(row, formType)] on an array [row]. *)
Definition nonBlank (c : option jsstring) : bool :=
  otruthy c && truthy (trim (orEmpty c)).

Definition validateFormData (row : Row) (formType : jsstring) : bool :=
  if jsstring_eqb formType (lit "founder") then nonBlank (cell row 73)
  else if jsstring_eqb formType (lit "founder referral") then
    nonBlank (cell row 4) && nonBlank (cell row 9)
  else if jsstring_eqb formType (lit "searcher") then nonBlank (cell row 37)
  else if jsstring_eqb formType (lit "searcher referral") then
    nonBlank (cell row 18) && nonBlank (cell row 22)
  else false.

End WithBuiltins.

End Classifier.

(* ================================================================== *)
(** ** The Notion side of a processor *)

Module Notion.

(** How the processing of one row ends. *)
Inductive Completion :=
| Threw (message : jsstring)
| Returned (created updated : bool).

(** What a processor does to the document store for one primary row, from
    [findPageByTitle] to the last content update: it receives the display
    name, the row and the matched referral rows, changes the store, prints
    its own console lines, and returns or throws. *)
Definition PageWriter (World : Type) : Type :=
  World -> jsstring -> Row -> list Row ->
  World * list jsstring * Completion.

(** The counters a processor reports. *)
Record Results := mkResults {
  processed : nat;
  created : nat;
  updated : nat;
  errors : nat
}.

Definition noResults : Results := mkResults 0 0 0 0.

(** The [try] block's bookkeeping after a successful return. *)
Definition countSuccess (r : Results) (c u : bool) : Results :=
  mkResults (S (processed r))
            (if c then S (created r) else created r)
            (if u then S (updated r) else updated r)
            (errors r).

(** The [catch] block's bookkeeping. *)
Definition countError (r : Results) : Results :=
  mkResults (processed r) (created r) (updated r) (S (errors r)).

End Notion.

(* ================================================================== *)
(** ** src/processors/founderProcessor *)

Module Founder.
Import Text Matching Notion.

(** A bucket of the referral mapping. *)
Record Bucket := mkBucket {
  displayName : jsstring;
  referrals : list Row
}.

(** The referral mapping: the own properties of the object, in the order
    [Object.keys] enumerates them. *)
Definition Index := list (jsstring * Bucket).

Definition keys (m : Index) : list jsstring := map fst m.

(** [referralMapping[k]] (own property). *)
Fixpoint lookup (m : Index) (k : jsstring) : option Bucket :=
  match m with
  | [] => None
  | (k', b) :: m' => if jsstring_eqb k' k then Some b else lookup m' k
  end.

(** [delete referralMapping[k]]. *)
Definition delete (k : jsstring) (m : Index) : Index :=
  filter (fun e => negb (jsstring_eqb (fst e) k)) m.

(** The place of a new property in the enumeration order of an object:
    array indices come first, in ascending order, then the other names in
    the order of their creation. *)
Fixpoint insertIndexed (n : N) (k : jsstring) (b : Bucket) (m : Index)
  : Index :=
  match m with
  | [] => [(k, b)]
  | (k', b') :: m' =>
      match arrayIndex k' with
      | Some n' =>
          if (n' <? n)%N then (k', b') :: insertIndexed n k b m'
          else (k, b) :: m
      | None => (k, b) :: m
      end
  end.

(** [referralMapping[k] = b] for a name [k] the object does not have. *)
Definition addProperty (k : jsstring) (b : Bucket) (m : Index) : Index :=
  match arrayIndex k with
  | Some n => insertIndexed n k b m
  | None => m ++ [(k, b)]
  end.

(** [referralMapping[k].referrals.push(row)] for an own property [k]. *)
Fixpoint pushReferral (k : jsstring) (row : Row) (m : Index) : Index :=
  match m with
  | [] => []
  | (k', b) :: m' =>
      if jsstring_eqb k' k
      then (k', mkBucket (displayName b) (referrals b ++ [row])) :: m'
      else (k', b) :: pushReferral k row m'
  end.

(** [buildFounderProperties]: the status name. *)
Definition statusName (referralCount : nat) : option jsstring :=
  if (referralCount =? 0)%nat then None
  else if (5 <=? referralCount)%nat then Some (lit "V+ Endorsements")
  else nth_error [ lit "I Endorsement"; lit "II Endorsements";
                   lit "III Endorsements"; lit "IV Endorsements" ]
                 (referralCount - 1).

(** [createFounderPage] / [updateFounderPage]:
    [referralCount = referrals.length] is what [buildFounderProperties]
    receives. *)
Definition pageStatus (referrals : list Row) : option jsstring :=
  statusName (List.length referrals).

(** [createFounderPage] / [updateFounderPage]: the completion percentage. *)
Definition relevantIndices : list nat := map (fun i => 66 + i) (seq 0 50).

Definition completionPercent (founderRow : Row) : float :=
  let answeredCount := countFilledFields founderRow relevantIndices in
  Math_round (ofNat answeredCount / ofNat (List.length relevantIndices)
              * ofNat 100)%float.

(** Console lines. *)
Definition logProcessing (startupName : jsstring) : jsstring :=
  [0xD83C; 0xDFE2]%N ++ lit " Processing founder: " ++ startupName.

Definition logFound (n : nat) (startupName : jsstring) : jsstring :=
  [0xD83E; 0xDD1D]%N ++ lit " Found " ++ showNat n
    ++ lit " referrals for " ++ startupName.

(** [console.error(`❌ Error processing founder:`, error.message)]. *)
Definition logError (message : jsstring) : jsstring :=
  [0x274C]%N ++ lit " Error processing founder:" ++ lit " " ++ message.

(** What one call of [processSingleFounder] did. *)
Record Step (World : Type) := mkStep {
  stepRow : Row;
  stepIndex : Index;
  stepWorld : World;
  stepLog : list jsstring;
  stepMatchedKey : option jsstring;
  stepMatchedReferrals : list Row;
  stepCompletion : Completion
}.

Section WithBuiltins.
Context {B : Builtins}.
Variable World : Type.
Variable writePage : PageWriter World.

(** One iteration of the loop of [createReferralMapping]; [None] is a
    thrown [TypeError]: a key that names an inherited property is taken for
    an existing bucket, and has no [referrals] to push to. *)
Definition addReferral (st : option Index) (row : Row) : option Index :=
  match st with
  | None => None
  | Some mapping =>
      let startupName := trim (orEmpty (cell row 9)) in
      if truthy startupName then
        let normalizedKey := normalizeText (Some startupName) in
        if truthy normalizedKey then
          match lookup mapping normalizedKey with
          | Some _ => Some (pushReferral normalizedKey row mapping)
          | None =>
              if inherited normalizedKey then None
              else Some (pushReferral normalizedKey row
                           (addProperty normalizedKey
                              (mkBucket startupName []) mapping))
          end
        else Some mapping
      else Some mapping
  end.

(** [createReferralMapping(referralRows)]. *)
Definition createReferralMapping (referralRows : list Row) : option Index :=
  fold_left addReferral referralRows (Some []).

(** [processSingleFounder], the lines under "Find matching referrals":
    the matched key and the matched referral rows.  A key that is not an
    own property of the mapping yields no referrals (an inherited property
    has no [referrals] field). *)
Definition matchReferrals (referralMapping : Index) (startupName : jsstring)
  : jsstring * list Row :=
  let founderKey := normalizeText (Some startupName) in
  let matchedKey :=
    match findBestMatch founderKey (keys referralMapping)
                        defaultMaxDistance with
    | Some m => if truthy m then m else founderKey
    | None => founderKey
    end in
  let referralData := lookup referralMapping matchedKey in
  let matchedReferrals :=
    match referralData with
    | Some b => referrals b
    | None => []
    end in
  (matchedKey, matchedReferrals).

(** [processSingleFounder(founderRow, referralMapping, notionClient,
    databaseId)]; [writePage] stands for its lines from [findPageByTitle]
    on. *)
Definition processSingleFounder (world : World) (referralMapping : Index)
  (founderRow : Row) : Step World :=
  let startupName := trim (orEmpty (cell founderRow 73)) in
  if truthy startupName then
    let '(matchedKey, matchedReferrals) :=
      matchReferrals referralMapping startupName in
    let claim := (0 <? List.length matchedReferrals)%nat in
    let mapping' :=
      if claim then delete matchedKey referralMapping else referralMapping in
    let '(world', lines, completion) :=
      writePage world startupName founderRow matchedReferrals in
    mkStep founderRow mapping' world'
           (logProcessing startupName
            :: (if claim
                then [logFound (List.length matchedReferrals) startupName]
                else [])
            ++ lines)
           (Some matchedKey) matchedReferrals completion
  else
    mkStep founderRow referralMapping world [] None []
           (Threw (lit "Founder missing startup name")).

(** The state of the loop of [processFounders]: the counters, the (mutable)
    referral mapping, the document store, the lines printed on the console
    by the loop, and, as a record of the run, the steps taken so far. *)
Record Run := mkRun {
  results : Results;
  mapping : Index;
  world : World;
  console : list jsstring;
  steps : list (Step World)
}.

(** One iteration of [for (const founderRow of founderRows)] with its
    [try]/[catch]. *)
Definition iteration (run : Run) (founderRow : Row) : Run :=
  let s := processSingleFounder (world run) (mapping run) founderRow in
  match stepCompletion s with
  | Returned c u =>
      mkRun (countSuccess (results run) c u) (stepIndex s) (stepWorld s)
            (console run ++ stepLog s) (steps run ++ [s])
  | Threw message =>
      mkRun (countError (results run)) (stepIndex s) (stepWorld s)
            (console run ++ stepLog s ++ [logError message])
            (steps run ++ [s])
  end.

(** [processFounders] from the creation of [results] to the end of the
    loop, on the mapping [createReferralMapping] returned. *)
Definition processFoundersFrom (w : World) (referralMapping : Index)
  (founderRows : list Row) : Run :=
  fold_left iteration founderRows (mkRun noResults referralMapping w [] []).

(** [processFounders(founderRows, referralRows, notionClient, databaseId)]
    up to the end of the loop; [None] when [createReferralMapping] throws,
    which happens outside every [try]. *)
Definition processFounders (w : World) (founderRows referralRows : list Row)
  : option Run :=
  match createReferralMapping referralRows with
  | Some referralMapping => Some (processFoundersFrom w referralMapping
                                                      founderRows)
  | None => None
  end.

(** [results.unmatchedReferrals = Object.keys(referralMapping).length]. *)
Definition unmatchedReferrals (run : Run) : nat :=
  List.length (keys (mapping run)).

End WithBuiltins.

End Founder.

(* ================================================================== *)
(** ** src/processors/searcherProcessor *)

Module Searcher.
Import Text Matching Notion.

(** [buildSearcherProperties]: the referral status name. *)
Definition referralStatusName (referralCount : nat) : option jsstring :=
  if (referralCount =? 0)%nat then None
  else if (5 <=? referralCount)%nat then Some (lit "V+ Referrals")
  else nth_error [ lit "I Referral"; lit "II Referrals";
                   lit "III Referrals"; lit "IV Referrals" ]
                 (referralCount - 1).

(** [createSearcherPage] / [updateSearcherPage]:
    [referralCount = referrals.length] is what [buildSearcherProperties]
    receives. *)
Definition pageReferralStatus (referrals : list Row) : option jsstring :=
  referralStatusName (List.length referrals).

(** Console lines. *)
Definition logProcessing (searcherName : jsstring) : jsstring :=
  [0xD83D; 0xDD0D]%N ++ lit " Processing searcher: " ++ searcherName.

Definition logFound (n : nat) (searcherName : jsstring) : jsstring :=
  [0xD83E; 0xDD1D]%N ++ lit " Found " ++ showNat n
    ++ lit " referrals for " ++ searcherName.

(** [console.error(`❌ Error processing searcher:`, error.message)]. *)
Definition logError (message : jsstring) : jsstring :=
  [0x274C]%N ++ lit " Error processing searcher:" ++ lit " " ++ message.

(** The positions, counted from [i], of the rows that satisfy [p]: what
    [allReferrals.indexOf(referral)] yields for the rows a filter kept (a
    row is an object, found at its own position). *)
Fixpoint positionsFrom (i : nat) (p : Row -> bool) (rows : list Row)
  : list nat :=
  match rows with
  | [] => []
  | r :: rows' =>
      (if p r then [i] else []) ++ positionsFrom (S i) p rows'
  end.

(** What one call of [processSingleSearcher] did. *)
Record Step (World : Type) := mkStep {
  stepRow : Row;
  stepMatchedIds : list nat;
  stepWorld : World;
  stepLog : list jsstring;
  stepMatchedReferrals : list Row;
  stepCompletion : Completion
}.

Section WithBuiltins.
Context {B : Builtins}.
Variable World : Type.
Variable writePage : PageWriter World.

(** [processSingleSearcher(searcherRow, allReferrals, notionClient,
    databaseId, matchedReferralIds)]; [writePage] stands for its lines from
    [findPageByTitle] on. *)
Definition processSingleSearcher (world : World) (allReferrals : list Row)
  (matchedReferralIds : list nat) (searcherRow : Row) : Step World :=
  let searcherName := trim (orEmpty (cell searcherRow 37)) in
  if truthy searcherName then
    let matchedReferrals := findMatchingReferrals searcherName allReferrals 22 in
    let ids := matchedReferralIds
               ++ positionsFrom 0
                    (referralMatches (normalizeText (Some searcherName)) 22)
                    allReferrals in
    let '(world', lines, completion) :=
      writePage world searcherName searcherRow matchedReferrals in
    mkStep searcherRow ids world'
           (logProcessing searcherName
            :: (if (0 <? List.length matchedReferrals)%nat
                then [logFound (List.length matchedReferrals) searcherName]
                else [])
            ++ lines)
           matchedReferrals completion
  else
    mkStep searcherRow matchedReferralIds world [] []
           (Threw (lit "Searcher missing name")).

(** The state of the loop of [processSearchers]. *)
Record Run := mkRun {
  results : Results;
  matchedIds : list nat;
  world : World;
  console : list jsstring;
  steps : list (Step World)
}.

(** One iteration of [for (const searcherRow of searcherRows)] with its
    [try]/[catch]. *)
Definition iteration (referralRows : list Row) (run : Run)
  (searcherRow : Row) : Run :=
  let s := processSingleSearcher (world run) referralRows (matchedIds run)
                                 searcherRow in
  match stepCompletion s with
  | Returned c u =>
      mkRun (countSuccess (results run) c u) (stepMatchedIds s) (stepWorld s)
            (console run ++ stepLog s) (steps run ++ [s])
  | Threw message =>
      mkRun (countError (results run)) (stepMatchedIds s) (stepWorld s)
            (console run ++ stepLog s ++ [logError message])
            (steps run ++ [s])
  end.

(** [processSearchers], from the creation of [results] to the end of the
    loop. *)
Definition processSearchers (w : World) (searcherRows referralRows : list Row)
  : Run :=
  fold_left (iteration referralRows) searcherRows
            (mkRun noResults [] w [] []).

End WithBuiltins.

End Searcher.

(* ================================================================== *)
(** ** The monolithic script (second script of src/unnamed/part_010) *)

Module Legacy.
Import Text Matching.

Section WithBuiltins.
Context {B : Builtins}.

(** [normName(s)]. *)
Definition normName (s : option jsstring) : jsstring :=
  trim (collapseNonAlnum (removeDiacritics (replaceDigits
    (normalizeNFKD (toLowerCase (orEmpty s)))))).

(** [getFilledCount(row, indices)]. *)
Definition getFilledCount (row : Row) (indices : list nat) : nat :=
  fold_left (fun count i =>
               count + (if otruthy (option_map trim (cell row i))
                        then 1 else 0))
            indices 0.

(** [[...Array(50)].map((_, i) => 66 + i)]. *)
Definition founderIndices : list nat := map (fun i => 66 + i) (seq 0 50).

(** [Array.from({ length: 11 }, (_, j) => startIndex + j)] for team member
    [i], with [startIndex = 119 + i * 11]. *)
Definition teamMemberIndices (i : nat) : list nat :=
  map (fun j => 119 + i * 11 + j) (seq 0 11).

(** [Number(row[118]) || 0]. *)
Definition numTeamMembers (row : Row) : float :=
  numberOr (toNumber (cell row 118)) PrimFloat.zero.

(** [allRelevantIndices] after the loop over the team members; [None] when
    that loop does not terminate. *)
Definition allRelevantIndices (row : Row) : option (list nat) :=
  match loopCount (numTeamMembers row) with
  | Some n => Some (founderIndices ++ flat_map teamMemberIndices (seq 0 n))
  | None => None
  end.

(** [completionPercent]. *)
Definition completionPercent (row : Row) : option float :=
  match allRelevantIndices row with
  | Some indices =>
      let answeredCount := getFilledCount row indices in
      let totalCount := List.length indices in
      Some (if (totalCount =? 0)%nat then PrimFloat.zero
            else Math_round (ofNat answeredCount / ofNat totalCount
                             * ofNat 100)%float)
  | None => None
  end.

End WithBuiltins.

(** [getBestMatch(targetKey, candidates)]: the caller passes normalized
    keys. *)
Definition considerKey (targetKey : jsstring) (st : Best) (c : jsstring)
  : Best :=
  let score := Levenshtein.distance targetKey c in
  if improves score (bestScore st) then mkBest (Some c) (Some score) else st.

Definition getBestMatch (targetKey : jsstring) (candidates : list jsstring)
  : option jsstring :=
  let st := fold_left (considerKey targetKey) candidates initialBest in
  match bestScore st with
  | Some score => if (score <=? 2)%nat then bestMatch st else None
  | None => None
  end.

End Legacy.

(* ================================================================== *)
(** ** The monolithic script (first script of src/unnamed/part_010) *)

Module LegacyFirst.
Import Matching.

(** The characters [/[^a-z0-9]/gi] keeps: ASCII letters of either case and
    digits. *)
Definition letterOrDigit (c : N) : bool :=
  alnum c || ((65 <=? c) && (c <=? 90))%N.

Section WithBuiltins.
Context {B : Builtins}.

(** [normalizeName(name)]. *)
Definition normalizeName (name : jsstring) : jsstring :=
  trim (filter letterOrDigit (toLowerCase name)).

(** One iteration of the loop of [getBestMatch]. *)
Definition considerName (normalizedTarget : jsstring) (st : Best)
  (candidate : jsstring) : Best :=
  let candidateNorm := normalizeName candidate in
  let score := Levenshtein.distance normalizedTarget candidateNorm in
  if improves score (bestScore st) then mkBest (Some candidate) (Some score)
  else st.

(** [getBestMatch(targetName, candidates)]. *)
Definition getBestMatch (targetName : jsstring) (candidates : list jsstring)
  : option jsstring :=
  let normalizedTarget := normalizeName targetName in
  let st := fold_left (considerName normalizedTarget) candidates
                      initialBest in
  match bestScore st with
  | Some score => if (score <=? 2)%nat then bestMatch st else None
  | None => None
  end.

End WithBuiltins.

End LegacyFirst.

(* ================================================================== *)
(** ** Regular expressions of the validators *)

Module Regex.

(** The patterns the source tests strings against use character classes,
    sequence and repetition only.  Without the [u] flag a pattern reads a
    string by code units. *)
Inductive regex :=
| Fail
| Empty
| Class (p : N -> bool)
| Cat (r s : regex)
| Alt (r s : regex)
| Star (r : regex).

(** [r+]. *)
Definition Plus (r : regex) : regex := Cat r (Star r).

Fixpoint nullable (r : regex) : bool :=
  match r with
  | Fail => false
  | Empty => true
  | Class _ => false
  | Cat r s => nullable r && nullable s
  | Alt r s => nullable r || nullable s
  | Star _ => true
  end.

(** What is left of [r] to match once the code unit [c] is read. *)
Fixpoint derivative (c : N) (r : regex) : regex :=
  match r with
  | Fail => Fail
  | Empty => Fail
  | Class p => if p c then Empty else Fail
  | Cat r s =>
      if nullable r then Alt (Cat (derivative c r) s) (derivative c s)
      else Cat (derivative c r) s
  | Alt r s => Alt (derivative c r) (derivative c s)
  | Star r => Cat (derivative c r) (Star r)
  end.

(** [/^r$/.test(s)]: the whole of [s] matches [r]. *)
Definition test (r : regex) (s : jsstring) : bool :=
  nullable (fold_left (fun r c => derivative c r) s r).

(** The strings of the language of a pattern. *)
Inductive Matches : regex -> jsstring -> Prop :=
| MEmpty : Matches Empty []
| MClass p c : p c = true -> Matches (Class p) [c]
| MCat r s u v : Matches r u -> Matches s v -> Matches (Cat r s) (u ++ v)
| MAltL r s u : Matches r u -> Matches (Alt r s) u
| MAltR r s u : Matches s u -> Matches (Alt r s) u
| MStarNil r : Matches (Star r) []
| MStarCons r u v :
    Matches r u -> Matches (Star r) v -> Matches (Star r) (u ++ v).

End Regex.

(* ================================================================== *)
(** ** src/utils/textUtils: the other helpers *)

Module TextUtils.
Import Text.

(** [s.substring(a, b)] for integer arguments: both are clamped to
    [0 .. s.length], and swapped when the first exceeds the second. *)
Definition substring (s : jsstring) (a b : Z) : jsstring :=
  let len := Z.of_nat (List.length s) in
  let a' := Z.min (Z.max a 0) len in
  let b' := Z.min (Z.max b 0) len in
  let from := Z.min a' b' in
  let to := Z.max a' b' in
  firstn (Z.to_nat (to - from)) (skipn (Z.to_nat from) s).

(** The default value of the parameter [defaultValue] of
    [getFormResponse]. *)
Definition defaultResponse : jsstring := lit "No response".

(** [getFormResponse(row, index, defaultValue)] on an array [row] of
    strings. *)
Definition getFormResponse (row : Row) (index : nat)
  (defaultValue : jsstring) : jsstring :=
  if otruthy (cell row index) then
    let response := trim (orEmpty (cell row index)) in
    if (0 <? List.length response)%nat then response else defaultValue
  else defaultValue.

(** [truncateText(text, maxLength)] for an integer [maxLength]. *)
Definition truncateText (text : jsstring) (maxLength : Z) : jsstring :=
  if negb (truthy text) || (Z.of_nat (List.length text) <=? maxLength)%Z
  then text
  else substring text 0 (maxLength - 3) ++ lit "...".

(** [.replace(/\s+/g, ' ')]: every maximal run of white space becomes one
    space.  The class [\s] holds the code units [trim] strips. *)
Fixpoint collapseSpaceFrom (inRun : bool) (s : jsstring) : jsstring :=
  match s with
  | [] => []
  | c :: s' =>
      if isWhiteSpace c then
        if inRun then collapseSpaceFrom true s'
        else 32%N :: collapseSpaceFrom true s'
      else c :: collapseSpaceFrom false s'
  end.

(** The length of the longest prefix of [s] that consists of white space
    and ends with a line feed, if there is one: what the greedy [\s*\n]
    matches at the start of [s]. *)
Fixpoint blankLines (s : jsstring) : option nat :=
  match s with
  | [] => None
  | c :: s' =>
      if isWhiteSpace c then
        match blankLines s' with
        | Some n => Some (S n)
        | None => if (c =? 10)%N then Some 1 else None
        end
      else None
  end.

(** [.replace(/\n\s*\n/g, '\n')], scanning from the left; [fuel] bounds the
    number of code units still to read. *)
Fixpoint removeEmptyLinesFrom (fuel : nat) (s : jsstring) : jsstring :=
  match fuel with
  | 0 => s
  | S fuel' =>
      match s with
      | [] => []
      | c :: s' =>
          if (c =? 10)%N then
            match blankLines s' with
            | Some n => 10%N :: removeEmptyLinesFrom fuel' (skipn n s')
            | None => c :: removeEmptyLinesFrom fuel' s'
            end
          else c :: removeEmptyLinesFrom fuel' s'
      end
  end.

Definition removeEmptyLines (s : jsstring) : jsstring :=
  removeEmptyLinesFrom (List.length s) s.

(** [cleanWhitespace(text)]. *)
Definition cleanWhitespace (text : jsstring) : jsstring :=
  if truthy text
  then trim (removeEmptyLines (collapseSpaceFrom false text))
  else [].

(** [.replace(/[^a-z0-9]+/g, "-")]. *)
Fixpoint hyphenateFrom (inRun : bool) (s : jsstring) : jsstring :=
  match s with
  | [] => []
  | c :: s' =>
      if alnum c then c :: hyphenateFrom false s'
      else if inRun then hyphenateFrom true s'
      else 45%N :: hyphenateFrom true s'
  end.

(** [.replace(/^-+|-+$/g, "")]: the leading and the trailing run of
    hyphens go. *)
Fixpoint dropLeadingHyphens (s : jsstring) : jsstring :=
  match s with
  | [] => []
  | c :: s' => if (c =? 45)%N then dropLeadingHyphens s' else s
  end.

Fixpoint dropTrailingHyphens (s : jsstring) : jsstring :=
  match s with
  | [] => []
  | c :: s' =>
      match dropTrailingHyphens s' with
      | [] => if (c =? 45)%N then [] else [c]
      | t => c :: t
      end
  end.

(** The pattern of [isValidEmail]: [^[^\s@]+@[^\s@]+\.[^\s@]+$]. *)
Definition notSpaceNorAt (c : N) : bool :=
  negb (isWhiteSpace c || (c =? 64)%N).

Definition emailRegex : Regex.regex :=
  Regex.Cat (Regex.Plus (Regex.Class notSpaceNorAt))
    (Regex.Cat (Regex.Class (fun c => c =? 64)%N)
       (Regex.Cat (Regex.Plus (Regex.Class notSpaceNorAt))
          (Regex.Cat (Regex.Class (fun c => c =? 46)%N)
             (Regex.Plus (Regex.Class notSpaceNorAt))))).

(** [isValidEmail(email)]. *)
Definition isValidEmail (email : jsstring) : bool :=
  if truthy email then Regex.test emailRegex (trim email) else false.

Section WithBuiltins.
Context {B : Builtins}.

(** [generateSlug(text)]. *)
Definition generateSlug (text : jsstring) : jsstring :=
  if truthy text then
    substring
      (dropTrailingHyphens (dropLeadingHyphens (hyphenateFrom false
         (removeDiacritics (normalizeNFKD (toLowerCase text))))))
      0 50
  else [].

End WithBuiltins.

End TextUtils.

(* ================================================================== *)
(** ** src/utils/matchingUtils: the other helpers *)

Module MatchingUtils.
Import Text Matching.

(** [new Set(values)]: the distinct values, in the order of their first
    occurrence. *)
Definition setAdd (set : list jsstring) (v : jsstring) : list jsstring :=
  if existsb (jsstring_eqb v) set then set else set ++ [v].

Definition setOf (values : list jsstring) : list jsstring :=
  fold_left setAdd values [].

(** The object [debugSearcherReferralMatching] returns. *)
Record MatchingDebugInfo := mkInfo {
  totalSearchers : nat;
  totalReferrals : nat;
  unmatchedReferrals : nat
}.

Section WithBuiltins.
Context {B : Builtins}.

(** [isStringMatch(str1, str2, maxDistance)]. *)
Definition isStringMatch (str1 str2 : jsstring) (maxDistance : Z) : bool :=
  if negb (truthy str1) || negb (truthy str2) then false
  else
    let normalized1 := normalizeText (Some str1) in
    let normalized2 := normalizeText (Some str2) in
    (Z.of_nat (Levenshtein.distance normalized1 normalized2)
     <=? maxDistance)%Z.

(** One iteration of the loop of [createKeyMapping]; [None] is a thrown
    [TypeError], as in [createReferralMapping].  The buckets, with their
    fields [display] and [rows], are held in the record of the referral
    mapping. *)
Definition addKey (keyColumn : nat) (st : option Founder.Index) (row : Row)
  : option Founder.Index :=
  match st with
  | None => None
  | Some mapping =>
      let rawKey := cell row keyColumn in
      if otruthy rawKey then
        let normalizedKey := normalizeText (Some (trim (orEmpty rawKey))) in
        if truthy normalizedKey then
          match Founder.lookup mapping normalizedKey with
          | Some _ => Some (Founder.pushReferral normalizedKey row mapping)
          | None =>
              if inherited normalizedKey then None
              else Some (Founder.pushReferral normalizedKey row
                           (Founder.addProperty normalizedKey
                              (Founder.mkBucket (trim (orEmpty rawKey)) [])
                              mapping))
          end
        else Some mapping
      else Some mapping
  end.

(** [createKeyMapping(rows, keyColumn)]. *)
Definition createKeyMapping (rows : list Row) (keyColumn : nat)
  : option Founder.Index :=
  fold_left (addKey keyColumn) rows (Some []).

(** [debugSearcherReferralMatching(allRows, searcherRows, referralRows)]:
    the object it returns. *)
Definition searcherNames (searcherRows : list Row) : list jsstring :=
  setOf (filter (fun name => (0 <? List.length name)%nat)
           (map (fun row => normalizeText (Some (orEmpty (cell row 37))))
                searcherRows)).

Definition isUnmatched (names : list jsstring) (referralRow : Row) : bool :=
  let referredName := normalizeText (Some (orEmpty (cell referralRow 22))) in
  truthy referredName && negb (existsb (jsstring_eqb referredName) names).

Definition debugSearcherReferralMatching (searcherRows referralRows : list Row)
  : MatchingDebugInfo :=
  let names := searcherNames searcherRows in
  let unmatched := filter (isUnmatched names) referralRows in
  mkInfo (List.length names) (List.length referralRows)
         (List.length unmatched).

End WithBuiltins.

End MatchingUtils.

(* ================================================================== *)
(** ** src/utils/validationUtils *)

Module Validation.

(** [AVAILABILITY_OPTIONS] of src/config/constants; the dash between the
    hours is U+2013. *)
Definition hours (label from to : string) : jsstring :=
  lit label ++ lit " (" ++ lit from ++ [0x2013%N] ++ lit to ++ lit ")".

Definition morning : jsstring := hours "Morning" "09:00" "12:00".
Definition earlyAfternoon : jsstring :=
  hours "Early afternoon" "12:00" "15:00".
Definition lateAfternoon : jsstring := hours "Late afternoon" "15:00" "18:00".
Definition evening : jsstring := hours "Evening" "18:00" "21:00".
Definition lateEvening : jsstring := hours "Late evening" "21:00" "23:00".
Definition flexible : jsstring := lit "I'm flexible / decide with the group".

Definition AVAILABILITY_OPTIONS : list jsstring :=
  [ morning; earlyAfternoon; lateAfternoon; evening; lateEvening; flexible ].

(** [s.split(sep)[0]] for a non-empty separator: what stands before the
    first occurrence of [sep]. *)
Fixpoint beforeFirst (sep s : jsstring) : jsstring :=
  match s with
  | [] => []
  | c :: s' => if startsWith sep s then [] else c :: beforeFirst sep s'
  end.

(** [s.split(sep)] for a separator of one code unit. *)
Fixpoint splitOn (sep : N) (s : jsstring) : list jsstring :=
  match s with
  | [] => [[]]
  | c :: s' =>
      if (c =? sep)%N then [] :: splitOn sep s'
      else
        match splitOn sep s' with
        | segment :: segments => (c :: segment) :: segments
        | [] => [[c]]
        end
  end.

(** [items.join(sep)]. *)
Fixpoint join (sep : jsstring) (items : list jsstring) : jsstring :=
  match items with
  | [] => []
  | item :: rest =>
      match rest with
      | [] => item
      | _ :: _ => item ++ sep ++ join sep rest
      end
  end.

(** [parseCommaSeparatedList(csvString)] on a cell. *)
Definition parseCommaSeparatedList (csvString : option jsstring)
  : list jsstring :=
  if otruthy csvString then
    filter (fun item => (0 <? List.length item)%nat)
           (map trim (splitOn 44 (orEmpty csvString)))
  else [].

(** The pattern of [validateEmail] is that of [isValidEmail]. *)
Definition validateEmail (email : option jsstring) : option jsstring :=
  if otruthy email then
    let emailStr := trim (orEmpty email) in
    if Regex.test TextUtils.emailRegex emailStr then Some emailStr else None
  else None.

(** The pattern of [validatePhone]: [^[\d\s\-\+\(\)\.]+$]. *)
Definition phoneChar (c : N) : bool :=
  (isDigit c || isWhiteSpace c || (c =? 45) || (c =? 43) || (c =? 40)
   || (c =? 41) || (c =? 46))%N.

Definition phoneRegex : Regex.regex := Regex.Plus (Regex.Class phoneChar).

(** [validatePhone(phone)] on a cell. *)
Definition validatePhone (phone : option jsstring) : option jsstring :=
  if otruthy phone then
    let phoneStr := trim (orEmpty phone) in
    if Regex.test phoneRegex phoneStr && (7 <=? List.length phoneStr)%nat
    then Some phoneStr else None
  else None.

Section WithBuiltins.
Context {B : Builtins}.

(** The test of the loop of [mapAvailabilityOption] for one option. *)
Definition optionMatches (answer option : jsstring) : bool :=
  let optionKey := beforeFirst (lit " (") (toLowerCase option) in
  let firstWord := beforeFirst (lit " ") optionKey in
  includes firstWord answer || includes optionKey answer.

(** [mapAvailabilityOption(rawAnswer)] on a cell. *)
Definition mapAvailabilityOption (rawAnswer : option jsstring)
  : option jsstring :=
  if otruthy rawAnswer then
    let answer := toLowerCase (orEmpty rawAnswer) in
    match find (optionMatches answer) AVAILABILITY_OPTIONS with
    | Some option => Some option
    | None =>
        if includes (lit "flex") answer then Some flexible else None
    end
  else None.

(** [validateInternSearcherType(value)] on a cell. *)
Definition validateInternSearcherType (value : option jsstring)
  : option jsstring :=
  if otruthy value then
    let normalized := toLowerCase (trim (orEmpty value)) in
    if jsstring_eqb normalized (lit "intern") then Some (lit "Intern")
    else if jsstring_eqb normalized (lit "searcher")
         then Some (lit "Searcher")
    else None
  else None.

End WithBuiltins.

End Validation.

(* ================================================================== *)
(** ** src/processors/founderProcessor: the priority properties *)

Module FounderProperties.

(** [buildFounderProperties]: [priorityRanking]. *)
Definition priorityRanking (founderRow : Row) : list jsstring :=
  if otruthy (cell founderRow 105)
  then Validation.parseCommaSeparatedList (cell founderRow 104)
  else [].

(** The name of the property of rank [i + 1]. *)
Definition priorityName (i : nat) : jsstring :=
  showNat (i + 1) ++ lit ". Priority (18 months)".

(** The entries spread into the properties: for [i] from 0 to 5, the name
    and the item of rank [i], when there is a (truthy) item. *)
Definition priorityEntries (founderRow : Row) : list (jsstring * jsstring) :=
  let priorityRanking := priorityRanking founderRow in
  flat_map (fun i =>
              match nth_error priorityRanking i with
              | Some item =>
                  if truthy item then [(priorityName i, item)] else []
              | None => []
              end)
           (seq 0 6).

(** [createFounderPage]: the title of the page it creates. *)
Definition pageTitle (founderRow : Row) : jsstring :=
  match cell founderRow 73 with
  | Some name => if truthy (trim name) then trim name
                 else lit "Unnamed Startup"
  | None => lit "Unnamed Startup"
  end.

End FounderProperties.

(* ================================================================== *)
(** ** src/processors/searcherProcessor: the title of a page *)

Module SearcherProperties.

(** [createSearcherPage]: the title of the page it creates. *)
Definition pageTitle (searcherRow : Row) : jsstring :=
  match cell searcherRow 37 with
  | Some name => if truthy (trim name) then trim name
                 else lit "Unnamed Searcher"
  | None => lit "Unnamed Searcher"
  end.

End SearcherProperties.

(* ================================================================== *)
(** ** src/services/notionService *)

Module NotionService.

(** The values the fields [code], [status] and [name] of an error hold:
    a string, an integer, or nothing. *)
Inductive jsvalue :=
| JUndefined
| JString (s : jsstring)
| JNumber (z : Z).

Definition jtruthy (v : jsvalue) : bool :=
  match v with
  | JUndefined => false
  | JString s => truthy s
  | JNumber z => negb (z =? 0)%Z
  end.

(** [a || b]. *)
Definition jor (a b : jsvalue) : jsvalue := if jtruthy a then a else b.

(** [v === "s"] and [v === n]. *)
Definition isStr (v : jsvalue) (s : string) : bool :=
  match v with
  | JString s' => jsstring_eqb s' (lit s)
  | _ => false
  end.

Definition isNum (v : jsvalue) (n : Z) : bool :=
  match v with
  | JNumber z => (z =? n)%Z
  | _ => false
  end.

(** An error object, as far as [isRetryableError] reads it; [causeCode] is
    [error.cause?.code]. *)
Record Error := mkError {
  code : jsvalue;
  status : jsvalue;
  name : jsvalue;
  causeCode : jsvalue;
  message : option jsstring
}.

(** [API_CONFIG.NOTION]. *)
Definition RETRY_ATTEMPTS : Z := 7.
Definition BASE_DELAY : Z := 600.

(** A block of a page, as far as [removeDuplicateToggles] reads it;
    [toggleTitle] is [block.toggle?.rich_text?.[0]?.text?.content]. *)
Record Block := mkBlock {
  blockId : jsstring;
  blockType : jsstring;
  toggleTitle : option jsstring
}.

Definition isToggleTitled (title : jsstring) (block : Block) : bool :=
  jsstring_eqb (blockType block) (lit "toggle")
  && match toggleTitle block with
     | Some content => jsstring_eqb content title
     | None => false
     end.

(** [removeDuplicateToggles(parentId, titles, notionClient)]: the
    identifiers of the blocks it archives, in the order of the requests,
    given the children the list request returned. *)
Definition duplicatesOf (children : list Block) (title : jsstring)
  : list jsstring :=
  map blockId (tl (filter (isToggleTitled title) children)).

Definition removeDuplicateToggles (parentId : jsstring)
  (titles : list jsstring) (children : list Block) : list jsstring :=
  if negb (truthy parentId) || (List.length titles =? 0)%nat then []
  else flat_map (duplicatesOf children) titles.

(** The block [createQuoteToggle] builds: the text of the toggle and the
    texts of its quote children. *)
Record QuoteToggle := mkQuoteToggle {
  toggleText : jsstring;
  quotes : list jsstring
}.

(** [createQuoteToggle(title, content)]. *)
Definition createQuoteToggle (title content : jsstring) : QuoteToggle :=
  mkQuoteToggle
    (if truthy title then title else lit "Untitled")
    (if truthy content && negb (jsstring_eqb (trim content) [])
     then [trim content] else []).

Section WithBuiltins.
Context {B : Builtins}.

(** [isRetryableError(error)]. *)
Definition isRetryableError (error : Error) : bool :=
  let code := jor (jor (jor (code error) (status error)) (name error))
                  (causeCode error) in
  let message := toLowerCase (orEmpty (message error)) in
  isStr code "rate_limited"
  || isNum code 429
  || isNum code 503
  || isStr code "ECONNRESET"
  || isStr code "ENOTFOUND"
  || isStr code "UND_ERR_CONNECT_TIMEOUT"
  || isStr code "UND_ERR_HEADERS_TIMEOUT"
  || isStr code "UND_ERR_SOCKET"
  || includes (lit "fetch failed") message
  || includes (lit "terminated") message.

Section Retry.
Variables World Result : Type.

(** The operation [withRetry] runs: it changes the world and resolves with
    a result or rejects with an error. *)
Variable operation : World -> World * (Error + Result).

(** How a call of [withRetry] ends: it returns the result of the
    operation, or throws an error of the operation, or throws
    [lastError] as it was initialized ([undefined]). *)
Inductive Outcome :=
| Resolved (result : Result)
| Rejected (error : Error)
| RejectedUndefined.

(** A call of [withRetry]: its outcome, the world it leaves, the delays it
    slept, in milliseconds, and, as a record of the call, what each call
    of the operation gave. *)
Record Retry := mkRetry {
  outcome : Outcome;
  world : World;
  delays : list Z;
  attempts : list (Error + Result)
}.

(** The loop [for (let attempt = 1; attempt <= maxAttempts; attempt++)] with
    [remaining] iterations to go. *)
Fixpoint retryFrom (remaining : nat) (attempt maxAttempts baseDelay : Z)
  (lastError : option Error) (w : World) : Retry :=
  match remaining with
  | 0 =>
      mkRetry (match lastError with
               | Some error => Rejected error
               | None => RejectedUndefined
               end) w [] []
  | S remaining' =>
      match operation w with
      | (w', inr result) => mkRetry (Resolved result) w' [] [inr result]
      | (w', inl error) =>
          if negb (isRetryableError error) || (attempt =? maxAttempts)%Z
          then mkRetry (Rejected error) w' [] [inl error]
          else
            let delay := (baseDelay * 2 ^ (attempt - 1))%Z in
            let rest := retryFrom remaining' (attempt + 1) maxAttempts
                                  baseDelay (Some error) w' in
            mkRetry (outcome rest) (world rest) (delay :: delays rest)
                    (inl error :: attempts rest)
      end
  end.

(** [withRetry(operation, { maxAttempts, baseDelay })] for integer
    options. *)
Definition withRetry (maxAttempts baseDelay : Z) (w : World) : Retry :=
  retryFrom (Z.to_nat maxAttempts) 1 maxAttempts baseDelay None w.

End Retry.

End WithBuiltins.

End NotionService.

(* ================================================================== *)
(** ** The second script: retrying Notion requests *)

Module LegacyRetry.
Import NotionService.

Section WithBuiltins.
Context {B : Builtins}.

(** The test [transient] of the script's [withRetry]. *)
Definition transient (err : Error) : bool :=
  let code := jor (jor (jor (code err) (status err)) (name err))
                  (causeCode err) in
  let msg := toLowerCase (orEmpty (message err)) in
  isStr code "rate_limited"
  || isStr code "service_unavailable"
  || isStr code "notionhq_client_request_timeout"
  || isNum code 429
  || isNum code 408
  || isNum code 500
  || isNum code 502
  || isNum code 503
  || isNum code 504
  || includes (lit "timed out") msg
  || includes (lit "timeout") msg
  || includes (lit "socket hang up") msg
  || includes (lit "fetch failed") msg
  || includes (lit "terminated") msg.

Section Retry.
Variables World Result : Type.

(** The request [withRetry] runs. *)
Variable fn : World -> World * (Error + Result).

(** The loop [for (let i = 0; i < tries; i++)] with [remaining] iterations
    to go. *)
Fixpoint retryFrom (remaining : nat) (i baseDelay : Z)
  (lastErr : option Error) (w : World) : Retry World Result :=
  match remaining with
  | 0 =>
      mkRetry (match lastErr with
               | Some err => Rejected Result err
               | None => RejectedUndefined Result
               end) w [] []
  | S remaining' =>
      match fn w with
      | (w', inr result) => mkRetry (Resolved result) w' [] [inr result]
      | (w', inl err) =>
          if transient err
          then
            let wait := Z.min 30000 (baseDelay * 2 ^ i)%Z in
            let rest := retryFrom remaining' (i + 1) baseDelay (Some err) w' in
            mkRetry (outcome rest) (world rest) (wait :: delays rest)
                    (inl err :: attempts rest)
          else mkRetry (Rejected Result err) w' [] [inl err]
      end
  end.

(** [withRetry(fn, { tries, baseDelay })] for integer options. *)
Definition withRetry (tries baseDelay : Z) (w : World) : Retry World Result :=
  retryFrom (Z.to_nat tries) 0 baseDelay None w.

End Retry.

End WithBuiltins.

(** The defaults of the options. *)
Definition TRIES : Z := 8.
Definition BASE_DELAY : Z := 1000.

End LegacyRetry.

(* ================================================================== *)
(** ** src/processors/formClassifier: validity and statistics *)

Module FormStatistics.
Import Classifier.

(** An object whose properties hold arrays of rows, as [Object.entries]
    enumerates it. *)
Definition Forms := list (jsstring * list Row).

(** [o[k] = v] on an object whose property names are not array indices. *)
Fixpoint setProperty {V : Type} (k : jsstring) (v : V)
  (o : list (jsstring * V)) : list (jsstring * V) :=
  match o with
  | [] => [(k, v)]
  | (k', v') :: o' =>
      if jsstring_eqb k' k then (k, v) :: o'
      else (k', v') :: setProperty k v o'
  end.

(** [o.k] for an own property; an absent property reads as no rows. *)
Fixpoint rowsOf (o : Forms) (k : jsstring) : list Row :=
  match o with
  | [] => []
  | (k', v) :: o' => if jsstring_eqb k' k then v else rowsOf o' k
  end.

(** The entries of the object [categorizeAllForms] returns. *)
Definition entries (categories : Categories) : Forms :=
  [ (lit "founders", founders categories);
    (lit "founderReferrals", founderReferrals categories);
    (lit "searchers", searchers categories);
    (lit "searcherReferrals", searcherReferrals categories);
    (lit "unknown", unknownForms categories) ].

(** The object literal of [getFormTypeFromCategory]. *)
Definition categoryTypes : list (jsstring * jsstring) :=
  [ (lit "founders", lit "founder");
    (lit "founderReferrals", lit "founder referral");
    (lit "searchers", lit "searcher");
    (lit "searcherReferrals", lit "searcher referral") ].

(** [getFormTypeFromCategory(categoryName)]. *)
Definition getFormTypeFromCategory (categoryName : jsstring) : value :=
  match getProperty categoryTypes categoryName with
  | Some formType => if valueTruthy formType then formType else unknown
  | None => unknown
  end.

Section WithBuiltins.
Context {B : Builtins}.

(** [validateFormData(row, formType)] for whatever
    [getFormTypeFromCategory] returned: the [switch] compares with string
    literals. *)
Definition validateFormDataAs (row : Row) (formType : value) : bool :=
  match formType with
  | VString s => validateFormData row s
  | VInherited _ => false
  end.

(** [forms.filter(row => validateFormData(row, formType))]. *)
Definition validForms (categoryName : jsstring) (forms : list Row)
  : list Row :=
  let formType := getFormTypeFromCategory categoryName in
  filter (fun row => validateFormDataAs row formType) forms.

(** The object [filterValidForms] starts from. *)
Definition emptyFiltered : Forms :=
  [ (lit "founders", []); (lit "founderReferrals", []);
    (lit "searchers", []); (lit "searcherReferrals", []) ].

(** One iteration of the loop of [filterValidForms]. *)
Definition filterEntry (filtered : Forms) (entry : jsstring * list Row)
  : Forms :=
  let '(categoryName, forms) := entry in
  if jsstring_eqb categoryName (lit "unknown") then filtered
  else setProperty categoryName (validForms categoryName forms) filtered.

(** [filterValidForms(categories)]. *)
Definition filterValidForms (categories : Forms) : Forms :=
  fold_left filterEntry categories emptyFiltered.

(** An entry of [stats.byType]. *)
Record TypeStatistics := mkTypeStatistics {
  total : nat;
  valid : nat;
  invalid : nat
}.

(** The object [getFormStatistics] returns. *)
Record Statistics := mkStatistics {
  totalForms : nat;
  byType : list (jsstring * TypeStatistics);
  completionRates : list (jsstring * float)
}.

Definition emptyStatistics : Statistics := mkStatistics 0 [] [].

(** One iteration of the loop of [getFormStatistics]. *)
Definition countEntry (stats : Statistics) (entry : jsstring * list Row)
  : Statistics :=
  let '(categoryName, forms) := entry in
  if jsstring_eqb categoryName (lit "unknown") then stats
  else
    let validForms := validForms categoryName forms in
    mkStatistics
      (totalForms stats + List.length forms)
      (setProperty categoryName
         (mkTypeStatistics (List.length forms) (List.length validForms)
            (List.length forms - List.length validForms))
         (byType stats))
      (setProperty categoryName
         (if (0 <? List.length forms)%nat
          then Math_round (ofNat (List.length validForms)
                           / ofNat (List.length forms) * ofNat 100)%float
          else PrimFloat.zero)
         (completionRates stats)).

(** [getFormStatistics(categories)]. *)
Definition getFormStatistics (categories : Forms) : Statistics :=
  fold_left countEntry categories emptyStatistics.

End WithBuiltins.

End FormStatistics.

(* ================================================================== *)
(** ** src/core/environmentValidator *)

Module Environment.

(** [process.env]: the value of a variable, if it is set. *)
Definition Env := jsstring -> option jsstring.

(** [REQUIRED_ENV_VARS] of src/config/constants. *)
Definition REQUIRED_ENV_VARS : list jsstring :=
  map lit [ "NOTION_API_KEY"; "GAPI_SERVICE_ACCOUNT_KEY"; "GOOGLE_SHEET_ID";
            "NOTION_DATABASE_ID" ]%string.

(** [names.filter(key => !env[key])]. *)
Definition missingIn (env : Env) (names : list jsstring) : list jsstring :=
  filter (fun key => negb (otruthy (env key))) names.

(** [validateGoogleSheetsEnvironment(env)] of
    src/services/googleSheetsService. *)
Definition validateGoogleSheetsEnvironment (env : Env) : bool :=
  let required := map lit [ "GAPI_SERVICE_ACCOUNT_KEY";
                            "GOOGLE_SHEET_ID" ]%string in
  negb (0 <? List.length (missingIn env required))%nat.

(** [validateNotionEnvironment(env)] of src/services/notionService. *)
Definition validateNotionEnvironment (env : Env) : bool :=
  let required := map lit [ "NOTION_API_KEY"; "NOTION_DATABASE_ID" ]%string in
  negb (0 <? List.length (missingIn env required))%nat.

(** [validateEnvironment()]: the message of the error it throws, or [None]
    when it returns. *)
Definition validateEnvironment (env : Env) : option jsstring :=
  let missingVars := missingIn env REQUIRED_ENV_VARS in
  if (0 <? List.length missingVars)%nat then
    Some (lit "Missing required environment variables: "
          ++ Validation.join (lit ", ") missingVars)
  else if negb (validateGoogleSheetsEnvironment env) then
    Some (lit "Google Sheets environment validation failed")
  else if negb (validateNotionEnvironment env) then
    Some (lit "Notion environment validation failed")
  else None.

End Environment.

(* ================================================================== *)
(** ** src/core/applicationOrchestrator *)

Module Orchestrator.
Import Classifier FormStatistics.

(** The object [processFormData] returns. *)
Record ProcessedFormData := mkProcessed {
  raw : list Row;
  categorized : Categories;
  valid : Forms;
  statistics : Statistics;
  matching : MatchingUtils.MatchingDebugInfo
}.

Section WithBuiltins.
Context {B : Builtins}.

(** [processFormData(sheetsData)]: the error message when it throws.  The
    field [matching] records what the call of
    [debugSearcherReferralMatching] returned, which the source discards. *)
Definition processFormData (sheetsData : option (list Row))
  : jsstring + ProcessedFormData :=
  match sheetsData with
  | None => inl (lit "No data found in Google Sheets")
  | Some rows =>
      if (List.length rows =? 0)%nat
      then inl (lit "No data found in Google Sheets")
      else
        let categorizedForms := categorizeAllForms rows in
        let validForms := filterValidForms (entries categorizedForms) in
        let statistics := getFormStatistics validForms in
        inr (mkProcessed rows categorizedForms validForms statistics
               (MatchingUtils.debugSearcherReferralMatching
                  (rowsOf validForms (lit "searchers"))
                  (rowsOf validForms (lit "searcherReferrals"))))
  end.

End WithBuiltins.

End Orchestrator.

(* ================================================================== *)
(** ** The unmatched referrals of the two processors *)

Module Unmatched.
Import Text Matching Notion.

(** What [createUnmatchedReferralPage] or
    [createUnmatchedSearcherReferralPage] does for one name and its
    referral rows: it changes the document store, and returns ([None]) or
    throws an error with a message. *)
Definition UnmatchedWriter (World : Type) : Type :=
  World -> jsstring -> list Row -> World * option jsstring.

(** One attempt to create the page of unmatched referrals. *)
Record Attempt := mkAttempt {
  attemptName : jsstring;
  attemptReferrals : list Row;
  attemptError : option jsstring
}.

(** The object a processor returns. *)
Record Summary := mkSummary {
  counters : Results;
  unmatchedReferrals : nat
}.

(** What a processor leaves: its summary, the document store, and, as a
    record of the run, the attempts of the unmatched-referral handler. *)
Record Report (World : Type) := mkReport {
  summary : Summary;
  finalWorld : World;
  unmatchedAttempts : list Attempt
}.

(** The rows of [referralRows] whose index is not in the set
    [matchedReferralIds]:
    [referralRows.filter((_, index) => !matchedReferralIds.has(index))]. *)
Fixpoint unmatchedFrom (index : nat) (matchedReferralIds : list nat)
  (referralRows : list Row) : list Row :=
  match referralRows with
  | [] => []
  | row :: rows =>
      (if existsb (Nat.eqb index) matchedReferralIds then [] else [row])
      ++ unmatchedFrom (S index) matchedReferralIds rows
  end.

(** [(referral[22] || "Unknown").trim()]. *)
Definition referredName (referral : Row) : jsstring :=
  trim (if otruthy (cell referral 22) then orEmpty (cell referral 22)
        else lit "Unknown").

Section WithBuiltins.
Context {B : Builtins}.
Variable World : Type.
Variable writePage : PageWriter World.
Variable writeUnmatched : UnmatchedWriter World.

(** One iteration of the loop of [processUnmatchedReferrals] (and of
    [processUnmatchedSearcherReferrals]) with its [try]/[catch]. *)
Definition attempt (st : World * list Attempt) (name : jsstring)
  (referrals : list Row) : World * list Attempt :=
  let '(w', thrown) := writeUnmatched (fst st) name referrals in
  (w', snd st ++ [mkAttempt name referrals thrown]).

(** [processUnmatchedReferrals(referralMapping, notionClient, databaseId)]:
    one attempt per entry of the mapping. *)
Definition processUnmatchedReferrals (w : World)
  (referralMapping : Founder.Index) : World * list Attempt :=
  fold_left (fun st e =>
               attempt st (Founder.displayName (snd e))
                       (Founder.referrals (snd e)))
            referralMapping (w, []).

(** [processFounders(founderRows, referralRows, notionClient, databaseId)];
    [None] when [createReferralMapping] throws. *)
Definition processFounders (w : World) (founderRows referralRows : list Row)
  : option (Report World) :=
  match Founder.processFounders writePage w founderRows referralRows with
  | None => None
  | Some run =>
      let unmatched := List.length (Founder.keys (Founder.mapping run)) in
      let '(w', attempts) :=
        if (0 <? unmatched)%nat
        then processUnmatchedReferrals (Founder.world run)
                                       (Founder.mapping run)
        else (Founder.world run, []) in
      Some (mkReport (mkSummary (Founder.results run) unmatched) w' attempts)
  end.

(** [processUnmatchedSearcherReferrals(unmatchedReferrals, notionClient,
    databaseId)]: one attempt per referral row. *)
Definition processUnmatchedSearcherReferrals (w : World)
  (unmatchedReferrals : list Row) : World * list Attempt :=
  fold_left (fun st referral =>
               attempt st (referredName referral) [referral])
            unmatchedReferrals (w, []).

(** [processSearchers(searcherRows, referralRows, notionClient,
    databaseId)]. *)
Definition processSearchers (w : World) (searcherRows referralRows : list Row)
  : Report World :=
  let run := Searcher.processSearchers writePage w searcherRows
                                       referralRows in
  let unmatchedReferrals :=
    unmatchedFrom 0 (Searcher.matchedIds run) referralRows in
  let '(w', attempts) :=
    if (0 <? List.length unmatchedReferrals)%nat
    then processUnmatchedSearcherReferrals (Searcher.world run)
                                           unmatchedReferrals
    else (Searcher.world run, []) in
  mkReport (mkSummary (Searcher.results run)
                      (List.length unmatchedReferrals))
           w' attempts.

End WithBuiltins.

End Unmatched.

(* ================================================================== *)
(** ** src/processors/founderProcessor and src/services/notionService:
       writing the page of a founder *)

Module FounderPages.
Import Notion.

(** A page object, as far as the processor reads it: its [id]. *)
Record Page := mkPage {
  pageId : jsstring
}.

(** [notionClient], as far as the founder processor uses it.  A request
    changes the document store, prints the lines the client itself prints,
    and resolves with a value or rejects with an error, of which the
    message is kept.  A request is given by what its arguments are computed
    from: [queryByTitle] is [databases.query] with the filter "Name equals
    title" and resolves with the [results]; [createPage] is the
    [pages.create] of [createFounderPage]; [updatePage] is the
    [pages.update] of [updateFounderPage]. *)
Record Client (World : Type) := mkClient {
  queryByTitle :
    World -> jsstring -> World * list jsstring * (jsstring + list Page);
  createPage :
    World -> Row -> list Row -> World * list jsstring * (jsstring + Page);
  updatePage :
    World -> Page -> Row -> list Row ->
    World * list jsstring * (jsstring + unit)
}.

(** The lines of [findPageByTitle] that are printed with one argument. *)
Definition logSearching (title : jsstring) : jsstring :=
  [0xD83D; 0xDD0D]%N ++ lit " Searching for page with title: "
    ++ [34%N] ++ title ++ [34%N].

Definition logFoundPage (title : jsstring) : jsstring :=
  [0x2705]%N ++ lit " Found existing page: " ++ [34%N] ++ title ++ [34%N].

Definition logNoPage (title : jsstring) : jsstring :=
  [0x2139; 0xFE0F]%N ++ lit " No existing page found for: "
    ++ [34%N] ++ title ++ [34%N].

(** The lines of [processSingleFounder] after the search, and of the
    functions [updateFounderPageContent] calls. *)
Definition logUpdating (startupName : jsstring) : jsstring :=
  [0xD83D; 0xDD04]%N ++ lit " Updating existing page for " ++ startupName.

Definition logCreating (startupName : jsstring) : jsstring :=
  [0xD83C; 0xDD95]%N ++ lit " Creating new page for " ++ startupName.

Definition logCompleted (startupName : jsstring) : jsstring :=
  [0x2705]%N ++ lit " Completed processing for " ++ startupName.

Definition logStructure (pageId : jsstring) : jsstring :=
  [0xD83C; 0xDFD7; 0xFE0F]%N ++ lit " Ensuring page structure for " ++ pageId.

Definition logInsights (n : nat) : jsstring :=
  [0xD83E; 0xDD1D]%N ++ lit " Updating referral insights with " ++ showNat n
    ++ lit " referrals".

Definition logSections : jsstring :=
  [0xD83D; 0xDCDD]%N ++ lit " Updating founder form sections".

(** [updateFounderPageContent(page, founderRow, referrals, notionClient)]:
    the lines it prints.  It makes no request and does not throw. *)
Definition updateFounderPageContent (page : Page) (referrals : list Row)
  : list jsstring :=
  [logStructure (pageId page)]
  ++ (if (0 <? List.length referrals)%nat
      then [logInsights (List.length referrals)] else [])
  ++ [logSections].

Section WithClient.

(** [console.error(a, b)] for two strings prints [util.format(a, b)]: when
    [a] holds no percent sign, that is [a], a space and [b]. *)
Variable format : jsstring -> jsstring -> jsstring.

Variable World : Type.
Variable client : Client World.

(** [console.error(`❌ Failed to search for page "${title}":`,
    error.message)]. *)
Definition logSearchFailed (title message : jsstring) : jsstring :=
  format ([0x274C]%N ++ lit " Failed to search for page " ++ [34%N] ++ title
            ++ [34%N] ++ lit ":")
         message.

(** [findPageByTitle(databaseId, title, notionClient)]: the store it
    leaves, the lines printed, and the page, [null], or the message of the
    error it rethrows. *)
Definition findPageByTitle (w : World) (title : jsstring)
  : World * list jsstring * (jsstring + option Page) :=
  if truthy title then
    match queryByTitle client w title with
    | (w', lines, inr results) =>
        let page := hd_error results in
        (w',
         logSearching title :: lines
           ++ [match page with
               | Some _ => logFoundPage title
               | None => logNoPage title
               end],
         inr page)
    | (w', lines, inl message) =>
        (w', logSearching title :: lines ++ [logSearchFailed title message],
         inl message)
    end
  else (w, [], inr None).

(** [processSingleFounder] from the call of [findPageByTitle] to its end,
    with [createFounderPage], [updateFounderPage] and
    [updateFounderPageContent]. *)
Definition writePage : PageWriter World :=
  fun w startupName founderRow matchedReferrals =>
    match findPageByTitle w startupName with
    | (w1, lines1, inl message) => (w1, lines1, Threw message)
    | (w1, lines1, inr (Some existingPage)) =>
        match updatePage client w1 existingPage founderRow
                         matchedReferrals with
        | (w2, lines2, inl message) =>
            (w2, lines1 ++ logUpdating startupName :: lines2, Threw message)
        | (w2, lines2, inr _) =>
            (w2,
             lines1 ++ logUpdating startupName :: lines2
               ++ updateFounderPageContent existingPage matchedReferrals
               ++ [logCompleted startupName],
             Returned false true)
        end
    | (w1, lines1, inr None) =>
        match createPage client w1 founderRow matchedReferrals with
        | (w2, lines2, inl message) =>
            (w2, lines1 ++ logCreating startupName :: lines2, Threw message)
        | (w2, lines2, inr page) =>
            (w2,
             lines1 ++ logCreating startupName :: lines2
               ++ updateFounderPageContent page matchedReferrals
               ++ [logCompleted startupName],
             Returned true false)
        end
    end.

End WithClient.

(** [console.error(`❌ Notion operation failed after ${attempt}
    attempts:`, error.message)], the line [withRetry] prints before it
    throws. *)
Definition logFailed (attempt : nat) (message : jsstring) : jsstring :=
  [0x274C]%N ++ lit " Notion operation failed after " ++ showNat attempt
    ++ lit " attempts:" ++ lit " " ++ message.

End FounderPages.

(* ================================================================== *)
(** ** The built-ins on ASCII text *)

Module AsciiText.

(** [toLowerCase] on ASCII. *)
Definition lower (s : jsstring) : jsstring :=
  map (fun c => if (65 <=? c) && (c <=? 90) then c + 32 else c)%N s.

(** The ASCII members of [\p{Diacritic}] are [^] and the backquote. *)
Definition dropDiacritics (s : jsstring) : jsstring :=
  filter (fun c => negb ((c =? 94) || (c =? 96)))%N s.

(** [Number] on an unsigned decimal numeral (surrounding white space
    allowed, the empty string is 0); anything else is [NaN] here. *)
Definition number (o : option jsstring) : float :=
  match o with
  | None => PrimFloat.nan
  | Some s =>
      let t := trim s in
      if forallb isDigit t
      then ofZ (Z.of_N (fold_left (fun acc c => acc * 10 + (c - 48))%N t 0%N))
      else PrimFloat.nan
  end.

(** These functions agree with the JavaScript built-ins on ASCII strings
    (NFKD leaves ASCII unchanged); they are used to run the embedding on
    concrete ASCII inputs. *)
Definition builtins : Builtins.
Proof.
  refine {| toLowerCase := lower;
            normalizeNFKD := fun s => s;
            removeDiacritics := dropDiacritics;
            toNumber := number |}.
  - induction s as [|c s IH]; simpl; [reflexivity|].
    intros H. apply andb_true_iff in H. destruct H as [Hc Hs].
    rewrite (IH Hs). f_equal.
    unfold plain, alnum in Hc.
    destruct ((65 <=? c) && (c <=? 90))%N eqn:E; [|reflexivity].
    exfalso. apply andb_true_iff in E. destruct E as [E1 E2].
    apply N.leb_le in E1, E2.
    repeat (apply orb_true_iff in Hc; destruct Hc as [Hc|Hc]);
      try (apply andb_true_iff in Hc; destruct Hc as [H1 H2];
           apply N.leb_le in H1, H2; lia);
      try (apply N.eqb_eq in Hc; lia).
  - reflexivity.
  - induction s as [|c s IH]; simpl; [reflexivity|].
    intros H. apply andb_true_iff in H. destruct H as [Hc Hs].
    unfold plain, alnum in Hc.
    destruct ((c =? 94) || (c =? 96))%N eqn:E; simpl.
    + exfalso. 
      apply orb_true_iff in E. destruct E as [E|E]; apply N.eqb_eq in E; subst c;
        vm_compute in Hc; discriminate.
    + f_equal. exact (IH Hs).
Defined.

End AsciiText.

(* ================================================================== *)
(** ** Vocabulary of the properties *)

Module Spec.
Import Matching.

(** What [trim] leaves at the front of a string. *)
Definition headKept (s : jsstring) : Prop :=
  match s with
  | [] => True
  | c :: _ => isWhiteSpace c = false
  end.

(** [r] is the first element of [candidates] with the least score. *)
Definition firstLeast (score : jsstring -> nat) (candidates : list jsstring)
  (r : jsstring) : Prop :=
  exists before after,
    candidates = before ++ r :: after
    /\ (forall c, In c before -> score r < score c)
    /\ (forall c, In c after -> score r <= score c).

(** The contract of the fuzzy matcher as the specification words it: the
    result is the first candidate at the least distance from the target
    when that distance is at most [maxDistance], and [null] when every
    candidate is farther away than [maxDistance]. *)
Definition bestMatchContract (target : jsstring) (candidates : list jsstring)
  (maxDistance : Z) (result : option jsstring) : Prop :=
  match result with
  | Some r =>
      firstLeast (Levenshtein.distance target) candidates r
      /\ (Z.of_nat (Levenshtein.distance target r) <= maxDistance)%Z
  | None =>
      forall c, In c candidates ->
                (maxDistance < Z.of_nat (Levenshtein.distance target c))%Z
  end.

(** The common shape of the matcher loops: candidates rejected by [keep]
    are skipped, the others compete on [score]. *)
Definition consider (keep : jsstring -> bool) (score : jsstring -> nat)
  (st : Best) (c : jsstring) : Best :=
  if keep c then
    if improves (score c) (bestScore st) then mkBest (Some c) (Some (score c))
    else st
  else st.

(** What the loop state says after the candidates [seen]. *)
Definition bestOf (score : jsstring -> nat) (seen : list jsstring)
  (st : Best) : Prop :=
  match bestMatch st, bestScore st with
  | None, None => seen = []
  | Some r, Some s => s = score r /\ firstLeast score seen r
  | _, _ => False
  end.

Section WithBuiltins.
Context {B : Builtins}.

(** The score [findBestMatch] gives a candidate. *)
Definition scoreOf (target c : jsstring) : nat :=
  Levenshtein.distance (Text.normalizeText (Some target))
                       (Text.normalizeText (Some c)).

End WithBuiltins.

(** The five buckets of [categorizeAllForms]. *)
Inductive Category :=
| FounderForm
| FounderReferralForm
| SearcherForm
| SearcherReferralForm
| UnknownForm.

Definition Category_eqb (a b : Category) : bool :=
  match a, b with
  | FounderForm, FounderForm
  | FounderReferralForm, FounderReferralForm
  | SearcherForm, SearcherForm
  | SearcherReferralForm, SearcherReferralForm
  | UnknownForm, UnknownForm => true
  | _, _ => false
  end.

(** The bucket the [switch] of [categorizeAllForms] selects for a value
    returned by [classifyFormType]. *)
Definition category (v : Classifier.value) : Category :=
  if Classifier.isString v (lit "founder") then FounderForm
  else if Classifier.isString v (lit "founder referral")
       then FounderReferralForm
  else if Classifier.isString v (lit "searcher") then SearcherForm
  else if Classifier.isString v (lit "searcher referral")
       then SearcherReferralForm
  else UnknownForm.

Definition bucket (c : Category) (cs : Classifier.Categories) : list Row :=
  match c with
  | FounderForm => Classifier.founders cs
  | FounderReferralForm => Classifier.founderReferrals cs
  | SearcherForm => Classifier.searchers cs
  | SearcherReferralForm => Classifier.searcherReferrals cs
  | UnknownForm => Classifier.unknownForms cs
  end.

Definition total (cs : Classifier.Categories) : nat :=
  List.length (Classifier.founders cs)
  + List.length (Classifier.founderReferrals cs)
  + List.length (Classifier.searchers cs)
  + List.length (Classifier.searcherReferrals cs)
  + List.length (Classifier.unknownForms cs).

(** The key a step of the founder loop claimed: the matched key, when
    referral rows were found under it. *)
Definition claimedKey {World : Type} (s : Founder.Step World)
  : option jsstring :=
  if (0 <? List.length (Founder.stepMatchedReferrals s))%nat
  then Founder.stepMatchedKey s else None.

Fixpoint claimedKeys {World : Type} (l : list (Founder.Step World))
  : list jsstring :=
  match l with
  | [] => []
  | s :: l' =>
      match claimedKey s with
      | Some k => k :: claimedKeys l'
      | None => claimedKeys l'
      end
  end.

(** The keys of a referral mapping built by [createReferralMapping] are
    non-empty normalized keys. *)
Definition keysNormalized (m : Founder.Index) : Prop :=
  Forall (fun k => Text.normalized k /\ k <> []) (Founder.keys m).

(** Every bucket of a referral mapping built by [createReferralMapping]
    holds at least one row, and no key occurs twice. *)
Definition bucketsNonEmpty (m : Founder.Index) : Prop :=
  Forall (fun e => Founder.referrals (snd e) <> []) m.

Definition wellFormed (m : Founder.Index) : Prop :=
  keysNormalized m /\ NoDup (Founder.keys m) /\ bucketsNonEmpty m.

(** [k] is none of the keys [ks]. *)
Definition notAmong (ks : list jsstring) (k : jsstring) : bool :=
  negb (existsb (jsstring_eqb k) ks).

(** The steps that threw. *)
Definition threw (c : Notion.Completion) : bool :=
  match c with
  | Notion.Threw _ => true
  | Notion.Returned _ _ => false
  end.

(** What a loop prints for one row: the lines of the step and, when the
    step threw, the line of the [catch] block. *)
Definition founderLines {World : Type} (s : Founder.Step World)
  : list jsstring :=
  Founder.stepLog s
  ++ match Founder.stepCompletion s with
     | Notion.Threw message => [Founder.logError message]
     | Notion.Returned _ _ => []
     end.

Definition searcherLines {World : Type} (s : Searcher.Step World)
  : list jsstring :=
  Searcher.stepLog s
  ++ match Searcher.stepCompletion s with
     | Notion.Threw message => [Searcher.logError message]
     | Notion.Returned _ _ => []
     end.

(** The integer a number denotes, when it is a finite integer. *)
Definition integerValue (x : float) : option Z :=
  match Prim2SF x with
  | S754_zero _ => Some 0%Z
  | S754_finite s m e =>
      let v := if s then Zneg m else Zpos m in
      if (0 <=? e)%Z then Some (v * 2 ^ e)%Z
      else if (Zpos m mod 2 ^ (- e) =? 0)%Z then Some (v / 2 ^ (- e))%Z
      else None
  | _ => None
  end.

(** [round(100 * a / t)] in exact arithmetic, ties upwards. *)
Definition roundedPercent (a t : nat) : Z :=
  ((200 * Z.of_nat a + Z.of_nat t) / (2 * Z.of_nat t))%Z.

(** [Math.round((a / t) * 100)] denotes the exactly rounded percentage. *)
Definition percentAgrees (a t : nat) : bool :=
  match integerValue
          (Math_round (ofNat a / ofNat t * ofNat 100)%float) with
  | Some z => (z =? roundedPercent a t)%Z
  | None => false
  end.

Definition percentAgreesUpTo (t : nat) : bool :=
  forallb (fun a => percentAgrees a t) (seq 0 (S t)).

(** The required field indices as the specification words them for a
    founder row that declares [n] team members: the fixed columns 66 to 115,
    then 11 columns per team member from column 119 on. *)
Definition requiredIndices (n : nat) : list nat :=
  seq 66 50 ++ seq 119 (11 * n).

(** A cell is filled when it holds a string that is not blank. *)
Definition filledCell (c : option jsstring) : bool :=
  match c with
  | Some s => negb (jsstring_eqb (trim s) [])
  | None => false
  end.

(** The number of the required cells of a row that are filled: the
    indices, one by one, whose cell is filled. *)
Definition filledCount (row : Row) (indices : list nat) : nat :=
  List.length (filter (fun i => filledCell (cell row i)) indices).

End Spec.

(* ================================================================== *)
(** ** Sample data *)

Module Sample.
Import Notion.

(** A row whose only cell is [v], in column [i]. *)
Definition rowWith (i : nat) (v : string) : Row :=
  repeat None i ++ [Some (lit v)].

(** A founder form (startup name in column 73). *)
Definition founderRow (startupName : string) : Row := rowWith 73 startupName.

(** A founder referral (startup name in column 9). *)
Definition founderReferral (startupName : string) : Row :=
  rowWith 9 startupName.

(** A searcher form (name in column 37) and a searcher referral (referred
    name in column 22). *)
Definition searcherRow (name : string) : Row := rowWith 37 name.
Definition searcherReferral (name : string) : Row := rowWith 22 name.

(** A referral mapping with one bucket. *)
Definition oneBucket (key display : string) : Founder.Index :=
  [ (lit key, Founder.mkBucket (lit display) [founderReferral display]) ].

(** A page writer that creates every page. *)
Definition quietWriter : PageWriter unit :=
  fun w _ _ _ => (w, [], Returned true false).

(** [util.format(a, b)] on a string [a] without a percent sign. *)
Definition plainFormat (a b : jsstring) : jsstring := a ++ lit " " ++ b.

(** The page a database holds under a title. *)
Definition pageOf (title : jsstring) : FounderPages.Page :=
  FounderPages.mkPage (lit "page-" ++ title).

(** The message of the error of a rejected request. *)
Definition rejection : jsstring := lit "body failed validation".

(** A client object over a database that holds the pages whose titles the
    store lists.  Its request [pages.create] is rejected for the title
    [name] and adds the page otherwise; the client prints the lines
    [failureLines] gives for a rejected request, and nothing else. *)
Definition rejecting (name : string)
  (failureLines : jsstring -> list jsstring)
  : FounderPages.Client (list jsstring) :=
  FounderPages.mkClient
    (fun w title =>
       (w, [],
        inr (if existsb (jsstring_eqb title) w then [pageOf title] else [])))
    (fun w founderRow _ =>
       let title := FounderProperties.pageTitle founderRow in
       if jsstring_eqb title (lit name)
       then (w, failureLines rejection, inl rejection)
       else (w ++ [title], [], inr (pageOf title)))
    (fun w _ _ _ => (w, [], inr tt)).

(** A client that prints nothing itself. *)
Definition silent (message : jsstring) : list jsstring := [].

(** A client as [createNotionClient] builds it: [withRetry] prints its
    line for an error it does not retry. *)
Definition behindRetry (message : jsstring) : list jsstring :=
  [FounderPages.logFailed 1 message].

(** The error of the rejected request, as the Notion API reports a
    validation error. *)
Definition validationError : NotionService.Error :=
  NotionService.mkError (NotionService.JString (lit "validation_error"))
    (NotionService.JNumber 400)
    (NotionService.JString (lit "APIResponseError"))
    NotionService.JUndefined (Some rejection).

(** A founder row with the columns 66 to 115 filled, [declared] in column
    118, and the first [filled] team-member columns (from 119 on) filled. *)
Definition founderWithTeam (declared : string) (filled : nat) : Row :=
  repeat None 66 ++ repeat (Some (lit "x")) 50
    ++ [None; None; Some (lit declared)] ++ repeat (Some (lit "x")) filled.

End Sample.

(* ================================================================== *)
(** ** Vocabulary of the further properties *)

Module Vocabulary.
Import Text Matching Notion Spec.

(** The delays of exponential backoff before the attempts 2 to [n]:
    [baseDelay], then twice the previous one. *)
Definition backoff (baseDelay : Z) (n : nat) : list Z :=
  map (fun k => baseDelay * 2 ^ Z.of_nat k)%Z (seq 0 (n - 1)).

(** The sum of a list of delays. *)
Definition totalDelay (delays : list Z) : Z := fold_right Z.add 0%Z delays.

(** The errors among what the calls of an operation gave. *)
Definition failuresOf {Result : Type}
  (attempts : list (NotionService.Error + Result))
  : list NotionService.Error :=
  flat_map (fun a => match a with inl e => [e] | inr _ => [] end) attempts.

(** The codes [isRetryableError] retries. *)
Definition retryableCode (code : NotionService.jsvalue) : bool :=
  NotionService.isStr code "rate_limited"
  || NotionService.isNum code 429
  || NotionService.isNum code 503
  || NotionService.isStr code "ECONNRESET"
  || NotionService.isStr code "ENOTFOUND"
  || NotionService.isStr code "UND_ERR_CONNECT_TIMEOUT"
  || NotionService.isStr code "UND_ERR_HEADERS_TIMEOUT"
  || NotionService.isStr code "UND_ERR_SOCKET".

(** An operation that always fails with the error [error]. *)
Definition failing (error : NotionService.Error)
  : nat -> nat * (NotionService.Error + unit) :=
  fun calls => (S calls, inl error).

Section WithBuiltins.
Context {B : Builtins}.

(** The key under which a mapping builder files a row: the normalized form
    of the trimmed cell of the key column.  A row whose key is empty is not
    filed. *)
Definition keyOf (keyColumn : nat) (row : Row) : jsstring :=
  normalizeText (Some (trim (orEmpty (cell row keyColumn)))).

(** The rows filed under the key [k]. *)
Definition filedUnder (keyColumn : nat) (k : jsstring) (rows : list Row)
  : list Row :=
  filter (fun row => jsstring_eqb (keyOf keyColumn row) k) rows.

(** What a mapping says about the rows [seen] it was built from. *)
Definition describes (keyColumn : nat) (seen : list Row)
  (m : Founder.Index) : Prop :=
  forall k,
    match Founder.lookup m k with
    | Some b =>
        k <> []
        /\ inherited k = false
        /\ Founder.referrals b = filedUnder keyColumn k seen
        /\ exists first rest,
             Founder.referrals b = first :: rest
             /\ Founder.displayName b
                = trim (orEmpty (cell first keyColumn))
    | None => k <> [] -> filedUnder keyColumn k seen = []
    end.

End WithBuiltins.

(** The name and the rows of each attempt of an unmatched-referral
    handler. *)
Definition attemptPages (attempts : list Unmatched.Attempt)
  : list (jsstring * list Row) :=
  map (fun a => (Unmatched.attemptName a, Unmatched.attemptReferrals a))
      attempts.

Section WithBuiltins.
Context {B : Builtins}.

(** The searcher row [searcherRow] has a name, and the referral row
    [referral] refers to that name. *)
Definition namesReferral (searcherRow referral : Row) : bool :=
  let searcherName := trim (orEmpty (cell searcherRow 37)) in
  truthy searcherName
  && referralMatches (normalizeText (Some searcherName)) 22 referral.

(** Some row of [searcherRows] names the referral. *)
Definition named (searcherRows : list Row) (referral : Row) : bool :=
  existsb (fun searcherRow => namesReferral searcherRow referral)
          searcherRows.

End WithBuiltins.

(** An unmatched-referral writer that creates every page. *)
Definition quietUnmatched : Unmatched.UnmatchedWriter unit :=
  fun w _ _ => (w, None).

(** The report of a processor, or an empty report when it threw. *)
Definition reportOr (r : option (Unmatched.Report unit))
  : Unmatched.Report unit :=
  match r with
  | Some report => report
  | None =>
      Unmatched.mkReport (Unmatched.mkSummary Notion.noResults 0) tt []
  end.

Section WithBuiltins.
Context {B : Builtins}.

(** The cells a form of a category must fill to be valid. *)
Definition filled (c : Category) (row : Row) : bool :=
  match c with
  | FounderForm => hasContent (cell row 73)
  | FounderReferralForm => hasContent (cell row 4) && hasContent (cell row 9)
  | SearcherForm => hasContent (cell row 37)
  | SearcherReferralForm =>
      hasContent (cell row 18) && hasContent (cell row 22)
  | UnknownForm => false
  end.

(** The row is classified in the category [c] and fills the cells that
    category requires. *)
Definition passes (c : Category) (row : Row) : bool :=
  Category_eqb (category (Classifier.classifyFormType
                            (Classifier.IsArray row))) c
  && filled c row.

End WithBuiltins.

(** The entry of [stats.byType] for [n] forms that are all valid. *)
Definition allValid (n : nat) : FormStatistics.TypeStatistics :=
  FormStatistics.mkTypeStatistics n n 0.

(** The only white space of [s] is the space, no two spaces are adjacent,
    and [s] does not start with a space when [afterSpace] holds. *)
Fixpoint spaced (afterSpace : bool) (s : jsstring) : bool :=
  match s with
  | [] => true
  | c :: s' =>
      if isWhiteSpace c
      then (c =? 32)%N && negb afterSpace && spaced true s'
      else spaced false s'
  end.

(** [s] consists of lower-case ASCII alphanumerics and hyphens, no two
    hyphens are adjacent, and [s] does not start with a hyphen when
    [afterHyphen] holds. *)
Fixpoint hyphened (afterHyphen : bool) (s : jsstring) : bool :=
  match s with
  | [] => true
  | c :: s' =>
      if alnum c then hyphened false s'
      else (c =? 45)%N && negb afterHyphen && hyphened true s'
  end.

(** The shape of an address the e-mail pattern accepts: three parts, with
    an at sign after the first and a dot after the second; no part is
    empty, and none holds white space or an at sign.  The second and the
    third part may hold dots. *)
Definition addressShape (address : jsstring) : Prop :=
  exists local domain rest,
    address = local ++ [64%N] ++ domain ++ [46%N] ++ rest
    /\ local <> [] /\ domain <> [] /\ rest <> []
    /\ forallb TextUtils.notSpaceNorAt (local ++ domain ++ rest) = true.

(** The block is among the blocks a list of identifiers names. *)
Definition archivedIn (ids : list jsstring) (block : NotionService.Block)
  : bool :=
  existsb (jsstring_eqb (NotionService.blockId block)) ids.

(** Three children of a page: two toggles titled "Form" and a paragraph. *)
Definition sampleChildren : list NotionService.Block :=
  [ NotionService.mkBlock (lit "a") (lit "toggle") (Some (lit "Form"));
    NotionService.mkBlock (lit "b") (lit "paragraph") None;
    NotionService.mkBlock (lit "c") (lit "toggle") (Some (lit "Form")) ].

(** The delays of the second script's backoff after [n] failures in a row:
    [baseDelay], then twice the previous one, each capped at 30 seconds. *)
Definition cappedBackoff (baseDelay : Z) (n : nat) : list Z :=
  map (fun k => Z.min 30000 (baseDelay * 2 ^ Z.of_nat k))%Z (seq 0 n).

(** A key as the callers of the script's [getBestMatch] pass it: not empty
    and left unchanged by [normalizeText]. *)
Definition normalizedKey {B : Builtins} (key : jsstring) : Prop :=
  key <> [] /\ normalizeText (Some key) = key.

End Vocabulary.

(* ################################################################## *)
(** * Part II: properties *)

Import Text Matching Notion Spec.

Unset Implicit Arguments.

(* ================================================================== *)
(** ** Strings *)

Lemma jsstring_eqb_eq (a b : jsstring) : jsstring_eqb a b = true <-> a = b.
Proof.
  unfold jsstring_eqb. destruct (list_eq_dec N.eq_dec a b); split; congruence.
Qed.

Lemma jsstring_eqb_refl (a : jsstring) : jsstring_eqb a a = true.
Proof. now apply jsstring_eqb_eq. Qed.

Lemma jsstring_eqb_neq (a b : jsstring) : jsstring_eqb a b = false <-> a <> b.
Proof.
  unfold jsstring_eqb. destruct (list_eq_dec N.eq_dec a b); split;
    congruence.
Qed.

Lemma alnum_not_space (c : N) : alnum c = true -> isWhiteSpace c = false.
Proof.
  unfold alnum, isWhiteSpace. intros H.
  apply orb_true_iff in H.
  destruct H as [H|H]; apply andb_true_iff in H; destruct H as [H1 H2];
    apply N.leb_le in H1, H2;
    repeat (apply orb_false_iff; split);
    try (apply andb_false_iff; (left; apply N.leb_gt; lia)
                               || (right; apply N.leb_gt; lia));
    try (apply N.eqb_neq; lia).
Qed.

Lemma trimStart_headKept (s : jsstring) : headKept (trimStart s).
Proof.
  induction s as [|c s IH]; simpl; [exact I|].
  destruct (isWhiteSpace c) eqn:E; [exact IH|exact E].
Qed.

Lemma trimStart_fixed (s : jsstring) : headKept s -> trimStart s = s.
Proof.
  destruct s as [|c s]; simpl; [reflexivity|].
  intros H. now rewrite H.
Qed.

Lemma trimEnd_headKept (s : jsstring) : headKept s -> headKept (trimEnd s).
Proof.
  destruct s as [|c s]; simpl; [exact (fun H => H)|].
  intros H. destruct (trimEnd s); [rewrite H|]; exact H.
Qed.

Lemma trimEnd_idempotent (s : jsstring) : trimEnd (trimEnd s) = trimEnd s.
Proof.
  induction s as [|c s IH]; simpl; [reflexivity|].
  destruct (trimEnd s) as [|d t] eqn:E.
  - destruct (isWhiteSpace c) eqn:Ec; simpl; [reflexivity|now rewrite Ec].
  - change (trimEnd (c :: d :: t))
      with (match trimEnd (d :: t) with
            | [] => if isWhiteSpace c then [] else [c]
            | x :: t0 => c :: x :: t0
            end).
    now rewrite IH.
Qed.

Lemma trim_idempotent (s : jsstring) : trim (trim s) = trim s.
Proof.
  unfold trim.
  rewrite (trimStart_fixed (trimEnd (trimStart s))).
  - apply trimEnd_idempotent.
  - apply trimEnd_headKept, trimStart_headKept.
Qed.

(* ================================================================== *)
(** ** The text normalizer *)

Lemma separated_plain (s : jsstring) :
  forall b, separated b s = true -> forallb plain s = true.
Proof.
  induction s as [|c s IH]; intros b H; simpl in *; [reflexivity|].
  unfold plain at 1.
  destruct (alnum c) eqn:E; simpl.
  - exact (IH _ H).
  - apply andb_true_iff in H. destruct H as [H Hs].
    apply andb_true_iff in H. destruct H as [Hc _].
    rewrite Hc. exact (IH _ Hs).
Qed.

Lemma separated_weaken (s : jsstring) :
  separated true s = true -> separated false s = true.
Proof.
  destruct s as [|c s]; simpl; [reflexivity|].
  destruct (alnum c); [exact (fun H => H)|].
  rewrite andb_false_r. discriminate.
Qed.

Lemma separated_collapseFrom (s : jsstring) :
  forall b, separated b (collapseFrom b s) = true.
Proof.
  induction s as [|c s IH]; intros b; simpl; [reflexivity|].
  destruct (alnum c) eqn:E.
  - simpl. rewrite E. apply IH.
  - destruct b; [apply IH|].
    simpl. apply IH.
Qed.

Lemma collapseFrom_fixed (s : jsstring) :
  forall b, separated b s = true -> collapseFrom b s = s.
Proof.
  induction s as [|c s IH]; intros b H; simpl in *; [reflexivity|].
  destruct (alnum c) eqn:E.
  - f_equal. exact (IH _ H).
  - apply andb_true_iff in H. destruct H as [H Hs].
    apply andb_true_iff in H. destruct H as [Hc Hb].
    apply N.eqb_eq in Hc. destruct b; [discriminate|].
    subst c. f_equal. exact (IH _ Hs).
Qed.

Lemma separated_trimStart (s : jsstring) :
  separated false s = true -> separated false (trimStart s) = true.
Proof.
  induction s as [|c s IH]; intros H; simpl; [reflexivity|].
  destruct (isWhiteSpace c) eqn:Ew; [|exact H].
  apply IH. simpl in H.
  destruct (alnum c) eqn:E.
  - rewrite (alnum_not_space c E) in Ew. discriminate.
  - apply andb_true_iff in H. destruct H as [_ Hs].
    now apply separated_weaken.
Qed.

Lemma separated_trimEnd (s : jsstring) :
  forall b, separated b s = true -> separated b (trimEnd s) = true.
Proof.
  induction s as [|c s IH]; intros b H; simpl in *; [reflexivity|].
  destruct (alnum c) eqn:E.
  - specialize (IH _ H).
    destruct (trimEnd s) as [|d t].
    + rewrite (alnum_not_space c E). simpl. now rewrite E.
    + simpl. rewrite E. exact IH.
  - apply andb_true_iff in H. destruct H as [H Hs].
    specialize (IH _ Hs).
    destruct (trimEnd s) as [|d t].
    + destruct (isWhiteSpace c); [reflexivity|].
      simpl. rewrite E, H. reflexivity.
    + simpl. rewrite E, H. exact IH.
Qed.

Lemma replaceDigits_plain (s : jsstring) :
  forallb plain s = true -> replaceDigits s = s.
Proof.
  induction s as [|c s IH]; simpl; [reflexivity|].
  intros H. apply andb_true_iff in H. destruct H as [Hc Hs].
  rewrite (IH Hs). f_equal.
  assert (c < 0xB2)%N as Hlt.
  { unfold plain, alnum in Hc.
    repeat (apply orb_true_iff in Hc; destruct Hc as [Hc|Hc]);
      try (apply andb_true_iff in Hc; destruct Hc as [H1 H2];
           apply N.leb_le in H1, H2; lia);
      try (apply N.eqb_eq in Hc; lia). }
  unfold digitMap.
  repeat match goal with
         | |- context [N.eqb c ?k] =>
             replace (N.eqb c k) with false by (symmetry; apply N.eqb_neq; lia)
         | |- context [N.leb ?k c] =>
             replace (N.leb k c) with false by (symmetry; apply N.leb_gt; lia)
         end.
  reflexivity.
Qed.

Section NormalizerFacts.
Context {B : Builtins}.

Lemma normalizeText_normalized (text : option jsstring) :
  normalized (normalizeText text).
Proof.
  unfold normalized, normalizeText.
  destruct (otruthy text); [|split; reflexivity].
  split.
  - unfold trim. apply separated_trimEnd, separated_trimStart.
    apply separated_collapseFrom.
  - apply trim_idempotent.
Qed.

Lemma normalizeText_fixed (s : jsstring) :
  normalized s -> normalizeText (Some s) = s.
Proof.
  intros [Hsep Htrim]. unfold normalizeText.
  destruct s as [|c s]; [reflexivity|].
  cbn [otruthy orEmpty].
  pose proof (separated_plain _ _ Hsep) as Hplain.
  rewrite (toLowerCase_plain _ Hplain), (normalizeNFKD_plain _ Hplain),
    (replaceDigits_plain _ Hplain), (removeDiacritics_plain _ Hplain).
  unfold collapseNonAlnum. rewrite (collapseFrom_fixed _ _ Hsep).
  exact Htrim.
Qed.

(** C8. The text normalizer is idempotent: for every input, normalizing the
    result of [normalizeText] gives that result again; [null]/[undefined]
    and the empty string are mapped to the empty string. *)
Theorem normalizeText_idempotent (text : option jsstring) :
  normalizeText (Some (normalizeText text)) = normalizeText text
  /\ normalizeText None = []
  /\ normalizeText (Some []) = [].
Proof.
  split; [|split; reflexivity].
  apply normalizeText_fixed, normalizeText_normalized.
Qed.

(** The normalizer of the monolithic script is the same function. *)
Lemma normName_normalizeText (s : option jsstring) :
  Legacy.normName s = normalizeText s.
Proof.
  unfold Legacy.normName, normalizeText.
  destruct (otruthy s) eqn:E; [reflexivity|].
  assert (orEmpty s = []) as ->.
  { destruct s as [[|]|]; try reflexivity. discriminate. }
  rewrite (toLowerCase_plain [] eq_refl), (normalizeNFKD_plain [] eq_refl).
  cbn [replaceDigits map].
  now rewrite (removeDiacritics_plain [] eq_refl).
Qed.

End NormalizerFacts.

(* ================================================================== *)
(** ** Edit distance *)

Lemma distance_cons (x : N) (a : jsstring) (y : N) (b : jsstring) :
  Levenshtein.distance (x :: a) (y :: b)
  = Nat.min (Nat.min (S (Levenshtein.distance a (y :: b)))
                     (S (Levenshtein.distance (x :: a) b)))
            (Levenshtein.distance a b + (if (x =? y)%N then 0 else 1)).
Proof. reflexivity. Qed.

Lemma distance_refl (s : jsstring) : Levenshtein.distance s s = 0.
Proof.
  induction s as [|c s IH]; [reflexivity|].
  rewrite distance_cons, IH, N.eqb_refl. apply Nat.min_0_r.
Qed.

Lemma distance_nil_r (a : jsstring) :
  Levenshtein.distance a [] = List.length a.
Proof. destruct a; reflexivity. Qed.

Lemma distance_zero (a : jsstring) :
  forall b, Levenshtein.distance a b = 0 -> a = b.
Proof.
  induction a as [|x a IH]; intros b H.
  - destruct b; [reflexivity|discriminate].
  - destruct b as [|y b]; [discriminate|].
    rewrite distance_cons in H.
    destruct (x =? y)%N eqn:E.
    + apply N.eqb_eq in E. subst y.
      f_equal. apply IH. lia.
    + lia.
Qed.

(* ================================================================== *)
(** ** The fuzzy matcher *)

Section LoopFacts.
Variable keep : jsstring -> bool.
Variable score : jsstring -> nat.

Lemma firstLeast_least (seen : list jsstring) (r c : jsstring) :
  firstLeast score seen r -> In c seen -> score r <= score c.
Proof.
  intros (before & after & -> & Hb & Ha) Hin.
  apply in_app_or in Hin. destruct Hin as [Hin|[<-|Hin]].
  - apply Nat.lt_le_incl. now apply Hb.
  - apply Nat.le_refl.
  - now apply Ha.
Qed.

Lemma firstLeast_In (seen : list jsstring) (r : jsstring) :
  firstLeast score seen r -> In r seen.
Proof.
  intros (before & after & -> & _). apply in_or_app. right. now left.
Qed.

Lemma bestOf_step (seen : list jsstring) (st : Best) (c : jsstring) :
  bestOf score seen st ->
  bestOf score (seen ++ filter keep [c]) (consider keep score st c).
Proof.
  unfold bestOf, consider. intros H. simpl.
  destruct (keep c); [|now rewrite app_nil_r].
  destruct st as [[r|] [s|]]; simpl in *; try contradiction.
  - destruct H as [-> HL].
    destruct (score c <? score r)%nat eqn:E; simpl.
    + apply Nat.ltb_lt in E. split; [reflexivity|].
      exists seen, []. split; [reflexivity|]. split.
      * intros x Hx. pose proof (firstLeast_least _ _ _ HL Hx). lia.
      * intros x [].
    + apply Nat.ltb_ge in E. split; [reflexivity|].
      destruct HL as (before & after & -> & Hb & Ha).
      exists before, (after ++ [c]). split.
      * now rewrite <- app_assoc.
      * split; [exact Hb|].
        intros x Hx. apply in_app_or in Hx.
        destruct Hx as [Hx|[<-|[]]]; [now apply Ha|exact E].
  - subst seen. split; [reflexivity|].
    exists [], []. split; [reflexivity|]. split; intros x [].
Qed.

Lemma bestOf_fold (candidates : list jsstring) :
  forall seen st,
    bestOf score seen st ->
    bestOf score (seen ++ filter keep candidates)
           (fold_left (consider keep score) candidates st).
Proof.
  induction candidates as [|c cs IH]; intros seen st H; simpl fold_left.
  - simpl. now rewrite app_nil_r.
  - pose proof (IH _ _ (bestOf_step _ _ c H)) as H'.
    rewrite <- app_assoc in H'.
    replace (filter keep [c] ++ filter keep cs) with (filter keep (c :: cs))
      in H'; [exact H'|].
    simpl. now destruct (keep c).
Qed.

Lemma bestOf_run (candidates : list jsstring) :
  bestOf score (filter keep candidates)
         (fold_left (consider keep score) candidates initialBest).
Proof. apply (bestOf_fold candidates [] initialBest). reflexivity. Qed.

End LoopFacts.

Lemma firstLeast_ext (f g : jsstring -> nat) (l : list jsstring)
  (r : jsstring) :
  (forall c, In c l -> f c = g c) -> firstLeast f l r -> firstLeast g l r.
Proof.
  intros Hfg (before & after & -> & Hb & Ha).
  assert (f r = g r) as Hr.
  { apply Hfg. apply in_or_app. right. now left. }
  exists before, after. split; [reflexivity|]. split; intros c Hc.
  - rewrite <- Hr, <- (Hfg c); [now apply Hb|].
    apply in_or_app. now left.
  - rewrite <- Hr, <- (Hfg c); [now apply Ha|].
    apply in_or_app. right. now right.
Qed.

Lemma filter_truthy_In (l : list jsstring) (c : jsstring) :
  c <> [] -> In c l -> In c (filter truthy l).
Proof.
  intros Hc Hin. apply filter_In. split; [exact Hin|].
  destruct c; [contradiction|reflexivity].
Qed.

Section MatcherFacts.
Context {B : Builtins}.

(** What [findBestMatch] returns for a non-empty target, in terms of the
    scores it computes: empty candidates are skipped, the first candidate
    with the least score wins if that score is within [maxDistance]. *)
Lemma findBestMatch_scores (target : jsstring) (candidates : list jsstring)
  (maxDistance : Z) :
  target <> [] ->
  match findBestMatch target candidates maxDistance with
  | Some r =>
      firstLeast (scoreOf target) (filter truthy candidates) r
      /\ (Z.of_nat (scoreOf target r) <= maxDistance)%Z
  | None =>
      forall c, In c (filter truthy candidates) ->
                (maxDistance < Z.of_nat (scoreOf target c))%Z
  end.
Proof.
  intros Ht. unfold findBestMatch.
  destruct target as [|t0 target']; [contradiction|]. cbn [truthy].
  set (target := t0 :: target') in *.
  pose proof (bestOf_run truthy (scoreOf target) candidates) as H.
  change (fold_left (consider truthy (scoreOf target)) candidates initialBest)
    with (fold_left (considerCandidate (normalizeText (Some target)))
                    candidates initialBest) in H.
  unfold bestOf in H.
  destruct (fold_left _ candidates initialBest) as [[r|] [s|]];
    simpl in *; try contradiction.
  - destruct H as [-> HL].
    destruct (Z.of_nat (scoreOf target r) <=? maxDistance)%Z eqn:E.
    + apply Z.leb_le in E. split; assumption.
    + apply Z.leb_gt in E. intros c Hc.
      pose proof (firstLeast_least _ _ _ _ HL Hc). lia.
  - rewrite H. intros c [].
Qed.

(** On normalized keys the scores are the distances between the keys. *)
Lemma scoreOf_keys (target : jsstring) (candidates : list jsstring) :
  normalized target ->
  Forall normalized candidates ->
  forall c, In c (filter truthy candidates) ->
            scoreOf target c = Levenshtein.distance target c.
Proof.
  intros Hn Hc c Hin. apply filter_In in Hin. destruct Hin as [Hin _].
  unfold scoreOf. rewrite (normalizeText_fixed target Hn).
  rewrite Forall_forall in Hc. now rewrite (normalizeText_fixed c (Hc c Hin)).
Qed.

(** C4 (amended). For every non-empty normalized target key, every list of
    normalized candidate keys and every threshold, [findBestMatch] skips the
    empty candidates and returns the first of the remaining candidates at
    the least Levenshtein distance from the target when that distance is at
    most [maxDistance], and [null] when every such candidate is farther
    away. *)
Theorem findBestMatch_contract (target : jsstring)
  (candidates : list jsstring) (maxDistance : Z) :
  target <> [] ->
  normalized target ->
  Forall normalized candidates ->
  bestMatchContract target (filter truthy candidates) maxDistance
                    (findBestMatch target candidates maxDistance).
Proof.
  intros Ht Hn Hc.
  pose proof (findBestMatch_scores target candidates maxDistance Ht) as H.
  pose proof (scoreOf_keys target candidates Hn Hc) as Hs.
  unfold bestMatchContract.
  destruct (findBestMatch target candidates maxDistance) as [r|].
  - destruct H as [HL Hle].
    rewrite (Hs r (firstLeast_In _ _ _ HL)) in Hle.
    split; [|exact Hle].
    exact (firstLeast_ext _ _ _ _ Hs HL).
  - intros c Hin. rewrite <- (Hs c Hin). now apply H.
Qed.

(** C5 (amended). For every non-empty target: if the target occurs verbatim
    among the candidates, [findBestMatch] (default threshold) returns a
    candidate at distance 0, which, among normalized keys, is the target
    itself; and [findBestMatch(k, [k])] returns [k]. *)
Theorem findBestMatch_verbatim (target : jsstring) :
  target <> [] ->
  (forall candidates, In target candidates ->
     exists r,
       findBestMatch target candidates defaultMaxDistance = Some r
       /\ In r candidates
       /\ Levenshtein.distance (normalizeText (Some target))
                               (normalizeText (Some r)) = 0
       /\ (normalized target -> normalized r -> r = target))
  /\ findBestMatch target [target] defaultMaxDistance = Some target.
Proof.
  intros Ht.
  assert (forall candidates, In target candidates ->
     exists r,
       findBestMatch target candidates defaultMaxDistance = Some r
       /\ In r (filter truthy candidates)
       /\ scoreOf target r = 0) as Hmain.
  { intros candidates Hin.
    pose proof (findBestMatch_scores target candidates defaultMaxDistance Ht)
      as H.
    pose proof (filter_truthy_In candidates target Ht Hin) as Hin'.
    assert (scoreOf target target = 0) as Hz by apply distance_refl.
    destruct (findBestMatch target candidates defaultMaxDistance) as [r|].
    - destruct H as [HL _]. exists r. split; [reflexivity|].
      split; [exact (firstLeast_In _ _ _ HL)|].
      pose proof (firstLeast_least _ _ _ _ HL Hin'). lia.
    - specialize (H target Hin'). rewrite Hz in H.
      unfold defaultMaxDistance in H. lia. }
  split.
  - intros candidates Hin.
    destruct (Hmain candidates Hin) as (r & Hr & Hin' & Hz).
    exists r. split; [exact Hr|]. apply filter_In in Hin'.
    split; [tauto|]. split; [exact Hz|].
    intros Hn Hnr. unfold scoreOf in Hz.
    rewrite (normalizeText_fixed target Hn), (normalizeText_fixed r Hnr) in Hz.
    symmetry. now apply distance_zero.
  - destruct (Hmain [target] (or_introl eq_refl)) as (r & Hr & Hin' & _).
    apply filter_In in Hin'. destruct Hin' as [[<-|[]] _]. exact Hr.
Qed.

End MatcherFacts.

(** The matcher of the monolithic script has no guard on its arguments and
    meets the contract for all keys, at the threshold 2. *)
Lemma getBestMatch_contract (targetKey : jsstring)
  (candidates : list jsstring) :
  bestMatchContract targetKey candidates 2
                    (Legacy.getBestMatch targetKey candidates).
Proof.
  unfold Legacy.getBestMatch, bestMatchContract.
  pose proof (bestOf_run (fun _ => true) (Levenshtein.distance targetKey)
                         candidates) as H.
  replace (filter (fun _ => true) candidates) with candidates in H
    by (clear; induction candidates; simpl; congruence).
  change (fold_left (consider (fun _ => true)
                              (Levenshtein.distance targetKey))
                    candidates initialBest)
    with (fold_left (Legacy.considerKey targetKey) candidates initialBest)
    in H.
  unfold bestOf in H.
  destruct (fold_left _ candidates initialBest) as [[r|] [s|]];
    simpl in *; try contradiction.
  - destruct H as [-> HL].
    destruct (Levenshtein.distance targetKey r <=? 2)%nat eqn:E.
    + apply Nat.leb_le in E. split; [exact HL|lia].
    + apply Nat.leb_gt in E. intros c Hc.
      pose proof (firstLeast_least _ _ _ _ HL Hc). lia.
  - rewrite H. intros c [].
Qed.

(** The matcher of the first script compares the names as [normalizeName]
    leaves them: the result is the first candidate with the least such
    score, when that score is at most 2. *)
Lemma getBestMatch_first_scores {B : Builtins} (targetName : jsstring)
  (candidates : list jsstring) :
  let score := fun c =>
    Levenshtein.distance (LegacyFirst.normalizeName targetName)
                         (LegacyFirst.normalizeName c) in
  match LegacyFirst.getBestMatch targetName candidates with
  | Some r => firstLeast score candidates r /\ score r <= 2
  | None => forall c, In c candidates -> 2 < score c
  end.
Proof.
  intros score. unfold LegacyFirst.getBestMatch.
  pose proof (bestOf_run (fun _ => true) score candidates) as H.
  replace (filter (fun _ => true) candidates) with candidates in H
    by (clear; induction candidates; simpl; congruence).
  change (fold_left (consider (fun _ => true) score) candidates initialBest)
    with (fold_left (LegacyFirst.considerName
                       (LegacyFirst.normalizeName targetName))
                    candidates initialBest) in H.
  unfold bestOf in H.
  destruct (fold_left _ candidates initialBest) as [[r|] [s|]];
    simpl in *; try contradiction.
  - destruct H as [-> HL].
    destruct (score r <=? 2)%nat eqn:E.
    + apply Nat.leb_le in E. now split.
    + apply Nat.leb_gt in E. intros c Hc.
      pose proof (firstLeast_least _ _ _ _ HL Hc). lia.
  - rewrite H. intros c [].
Qed.

(* ================================================================== *)
(** ** Tier labels *)

(** C7. The tier label of a reconciled row depends on the number of matched
    referral rows only: none for 0; the labels "I", "II", "III", "IV"
    (with their suffix) for 1 to 4; the "V+" label from 5 on.  This holds
    for the founder status and for the searcher referral status. *)
Theorem tierLabel_table (matched : list Row) :
  Founder.pageStatus matched
  = match List.length matched with
    | 0 => None
    | 1 => Some (lit "I Endorsement")
    | 2 => Some (lit "II Endorsements")
    | 3 => Some (lit "III Endorsements")
    | 4 => Some (lit "IV Endorsements")
    | _ => Some (lit "V+ Endorsements")
    end
  /\ Searcher.pageReferralStatus matched
     = match List.length matched with
       | 0 => None
       | 1 => Some (lit "I Referral")
       | 2 => Some (lit "II Referrals")
       | 3 => Some (lit "III Referrals")
       | 4 => Some (lit "IV Referrals")
       | _ => Some (lit "V+ Referrals")
       end.
Proof.
  unfold Founder.pageStatus, Searcher.pageReferralStatus.
  destruct (List.length matched) as [|[|[|[|[|n]]]]]; split; reflexivity.
Qed.

(* ================================================================== *)
(** ** The form classifier *)

Section ClassifierFacts.
Context {B : Builtins}.

Lemma categorize_bucket (acc : Classifier.Categories) (row : Row)
  (c : Category) :
  bucket c (Classifier.categorize acc row)
  = bucket c acc
    ++ (if Category_eqb
             (category (Classifier.classifyFormType (Classifier.IsArray row)))
             c
        then [row] else []).
Proof.
  unfold Classifier.categorize, category.
  destruct (Classifier.isString _ (lit "founder"));
    [destruct c; simpl; now rewrite ?app_nil_r|].
  destruct (Classifier.isString _ (lit "founder referral"));
    [destruct c; simpl; now rewrite ?app_nil_r|].
  destruct (Classifier.isString _ (lit "searcher"));
    [destruct c; simpl; now rewrite ?app_nil_r|].
  destruct (Classifier.isString _ (lit "searcher referral"));
    destruct c; simpl; now rewrite ?app_nil_r.
Qed.

Lemma categorize_total (acc : Classifier.Categories) (row : Row) :
  total (Classifier.categorize acc row) = S (total acc).
Proof.
  unfold Classifier.categorize, total.
  repeat match goal with
         | |- context [if ?b then _ else _] => destruct b
         end; simpl; rewrite ?length_app; simpl; lia.
Qed.

Lemma categorize_fold (rows : list Row) :
  forall acc c,
    bucket c (fold_left Classifier.categorize rows acc)
    = bucket c acc
      ++ filter (fun row =>
                   Category_eqb
                     (category (Classifier.classifyFormType
                                  (Classifier.IsArray row))) c)
                rows.
Proof.
  induction rows as [|row rows IH]; intros acc c; simpl.
  - now rewrite app_nil_r.
  - rewrite IH, categorize_bucket, <- app_assoc. f_equal.
    now destruct (Category_eqb _ c).
Qed.

Lemma categorize_fold_total (rows : list Row) :
  forall acc,
    total (fold_left Classifier.categorize rows acc)
    = total acc + List.length rows.
Proof.
  induction rows as [|row rows IH]; intros acc; simpl; [lia|].
  rewrite IH, categorize_total. lia.
Qed.

(** C9. [categorizeAllForms] files every row in the one bucket the
    classification of that row selects: each bucket is the sub-list of the
    input rows (in input order) whose classification selects it, and the
    sizes of the five buckets add up to the number of rows.  The
    classification of a row is a function of the row. *)
Theorem categorizeAllForms_partition (allRows : list Row) :
  (forall c,
     bucket c (Classifier.categorizeAllForms allRows)
     = filter (fun row =>
                 Category_eqb
                   (category (Classifier.classifyFormType
                                (Classifier.IsArray row))) c)
              allRows)
  /\ total (Classifier.categorizeAllForms allRows) = List.length allRows
  /\ (forall row row',
        row = row' ->
        Classifier.classifyFormType (Classifier.IsArray row)
        = Classifier.classifyFormType (Classifier.IsArray row')).
Proof.
  unfold Classifier.categorizeAllForms. split; [|split].
  - intros c. rewrite categorize_fold. now destruct c.
  - now rewrite categorize_fold_total.
  - now intros row row' ->.
Qed.

(** [classifyFormType] never fails on an argument that is not an array. *)
Lemma classifyFormType_not_array :
  Classifier.classifyFormType Classifier.NotAnArray = Classifier.unknown.
Proof. reflexivity. Qed.

(** An absent or empty intent cell is classified as unknown. *)
Lemma classifyFormType_blank (row : Row) :
  otruthy (cell row 3) = false ->
  Classifier.classifyFormType (Classifier.IsArray row) = Classifier.unknown.
Proof.
  intros H. unfold Classifier.classifyFormType.
  assert (orEmpty (cell row 3) = []) as ->.
  { destruct (cell row 3) as [[|]|]; try reflexivity. discriminate. }
  cbn [trim trimStart trimEnd].
  rewrite (toLowerCase_plain [] eq_refl). reflexivity.
Qed.

(** An intent that is neither in the vocabulary nor the name of a property
    of [Object.prototype] is classified as unknown. *)
Lemma classifyFormType_miss (row : Row) :
  let formIntent := toLowerCase (trim (orEmpty (cell row 3))) in
  Classifier.ownProperty Classifier.FORM_TYPE_MAPPINGS formIntent = None ->
  inherited formIntent = false ->
  Classifier.classifyFormType (Classifier.IsArray row) = Classifier.unknown.
Proof.
  intros formIntent Hown Hproto.
  unfold Classifier.classifyFormType, Classifier.getProperty.
  fold formIntent. now rewrite Hown, Hproto.
Qed.

(** An intent that names a property of [Object.prototype] is not classified
    as unknown: the inherited value is returned. *)
Lemma classifyFormType_inherited (row : Row) :
  let formIntent := toLowerCase (trim (orEmpty (cell row 3))) in
  inherited formIntent = true ->
  Classifier.classifyFormType (Classifier.IsArray row)
  = Classifier.VInherited formIntent.
Proof.
  intros formIntent Hproto.
  unfold Classifier.classifyFormType, Classifier.getProperty.
  fold formIntent.
  assert (Classifier.ownProperty Classifier.FORM_TYPE_MAPPINGS formIntent
          = None) as ->.
  { apply existsb_exists in Hproto. destruct Hproto as (name & Hin & Heq).
    apply jsstring_eqb_eq in Heq. rewrite Heq.
    simpl in Hin.
    repeat (destruct Hin as [<-|Hin]; [vm_compute; reflexivity|]).
    destruct Hin. }
  now rewrite Hproto.
Qed.

End ClassifierFacts.

(* ================================================================== *)
(** ** The referral mapping *)

Lemma lookup_In_keys (m : Founder.Index) (k : jsstring) :
  In k (Founder.keys m) -> exists b, Founder.lookup m k = Some b.
Proof.
  induction m as [|[k' b'] m IH]; simpl; [intros []|].
  intros [->|Hin].
  - rewrite jsstring_eqb_refl. now exists b'.
  - destruct (jsstring_eqb k' k); [now exists b'|now apply IH].
Qed.

Lemma lookup_Some_keys (m : Founder.Index) (k : jsstring)
  (b : Founder.Bucket) :
  Founder.lookup m k = Some b -> In k (Founder.keys m).
Proof.
  induction m as [|[k' b'] m IH]; simpl; [discriminate|].
  destruct (jsstring_eqb k' k) eqn:E.
  - apply jsstring_eqb_eq in E. now left.
  - intros H. right. now apply IH.
Qed.

Lemma keys_delete (k k' : jsstring) (m : Founder.Index) :
  In k' (Founder.keys (Founder.delete k m))
  <-> In k' (Founder.keys m) /\ k' <> k.
Proof.
  unfold Founder.keys, Founder.delete.
  induction m as [|[k0 b0] m IH]; simpl; [tauto|].
  destruct (jsstring_eqb k0 k) eqn:E; simpl.
  - apply jsstring_eqb_eq in E. subst k0. rewrite IH.
    split; [tauto|]. intros [[->|H] Hn]; [contradiction|tauto].
  - apply jsstring_eqb_neq in E. rewrite IH.
    split; [intros [->|[H Hn]]; tauto|tauto].
Qed.

Lemma lookup_delete_other (k k' : jsstring) (m : Founder.Index) :
  k' <> k -> Founder.lookup (Founder.delete k m) k' = Founder.lookup m k'.
Proof.
  intros Hn. unfold Founder.delete.
  induction m as [|[k0 b0] m IH]; simpl; [reflexivity|].
  destruct (jsstring_eqb k0 k) eqn:E; simpl.
  - apply jsstring_eqb_eq in E. subst k0.
    destruct (jsstring_eqb k k') eqn:E'; [|exact IH].
    apply jsstring_eqb_eq in E'. congruence.
  - now rewrite IH.
Qed.

Lemma delete_filter (k : jsstring) (ks : list jsstring)
  (m : Founder.Index) :
  filter (fun e => notAmong ks (fst e)) (Founder.delete k m)
  = filter (fun e => notAmong (k :: ks) (fst e)) m.
Proof.
  unfold Founder.delete, notAmong.
  induction m as [|[k0 b0] m IH]; simpl; [reflexivity|].
  destruct (jsstring_eqb k0 k) eqn:E; simpl; [exact IH|].
  destruct (existsb (jsstring_eqb k0) ks); simpl; [exact IH|].
  now rewrite IH.
Qed.

Lemma filter_notAmong_nil (m : Founder.Index) :
  filter (fun e => notAmong [] (fst e)) m = m.
Proof. induction m as [|e m IH]; simpl; congruence. Qed.

Lemma keysNormalized_filter (m : Founder.Index) :
  keysNormalized m ->
  Forall normalized (Founder.keys m)
  /\ filter truthy (Founder.keys m) = Founder.keys m.
Proof.
  unfold keysNormalized. induction 1 as [|k ks [Hn Hk] _ [IH1 IH2]].
  - split; [constructor|reflexivity].
  - split; [now constructor|].
    simpl. destruct k; [contradiction|]. simpl. now rewrite IH2.
Qed.

(* ================================================================== *)
(** ** Building the referral mapping *)

Lemma keys_pushReferral (k : jsstring) (row : Row) (m : Founder.Index) :
  Founder.keys (Founder.pushReferral k row m) = Founder.keys m.
Proof.
  induction m as [|[k' b] m IH]; simpl; [reflexivity|].
  destruct (jsstring_eqb k' k); simpl; [reflexivity|].
  f_equal. exact IH.
Qed.

Lemma pushReferral_buckets (k : jsstring) (row : Row) (m : Founder.Index) :
  NoDup (Founder.keys m) ->
  (forall e, In e m -> fst e <> k -> Founder.referrals (snd e) <> []) ->
  bucketsNonEmpty (Founder.pushReferral k row m).
Proof.
  unfold bucketsNonEmpty.
  induction m as [|[k' b] m IH]; intros Hnd H; simpl; [constructor|].
  inversion Hnd as [|? ? Hnotin Hnd']; subst.
  destruct (jsstring_eqb k' k) eqn:E.
  - apply jsstring_eqb_eq in E. subst k'. constructor.
    + simpl. intros Happ. now apply app_eq_nil in Happ.
    + rewrite Forall_forall. intros e He. apply H; [now right|].
      intros Hk. apply Hnotin. rewrite <- Hk. now apply in_map.
  - apply jsstring_eqb_neq in E. constructor.
    + apply (H (k', b)); [now left|exact E].
    + apply IH; [exact Hnd'|]. intros e He. apply H. now right.
Qed.

Lemma In_insertIndexed (n : N) (k : jsstring) (b : Founder.Bucket)
  (m : Founder.Index) (e : jsstring * Founder.Bucket) :
  In e (Founder.insertIndexed n k b m) <-> e = (k, b) \/ In e m.
Proof.
  induction m as [|[k' b'] m IH]; simpl.
  - split; [intros [<-|[]]; now left|intros [->|[]]; now left].
  - destruct (arrayIndex k') as [n'|]; [destruct (n' <? n)%N|]; simpl;
      rewrite ?IH; intuition congruence.
Qed.

Lemma In_addProperty (k : jsstring) (b : Founder.Bucket)
  (m : Founder.Index) (e : jsstring * Founder.Bucket) :
  In e (Founder.addProperty k b m) <-> e = (k, b) \/ In e m.
Proof.
  unfold Founder.addProperty. destruct (arrayIndex k).
  - apply In_insertIndexed.
  - rewrite in_app_iff. simpl. intuition congruence.
Qed.

Lemma keys_addProperty (k k' : jsstring) (b : Founder.Bucket)
  (m : Founder.Index) :
  In k' (Founder.keys (Founder.addProperty k b m))
  <-> k' = k \/ In k' (Founder.keys m).
Proof.
  unfold Founder.keys. rewrite !in_map_iff. split.
  - intros (e & <- & He). apply In_addProperty in He.
    destruct He as [->|He]; [now left|right; now exists e].
  - intros [->|(e & <- & He)].
    + exists (k, b). split; [reflexivity|]. apply In_addProperty. now left.
    + exists e. split; [reflexivity|]. apply In_addProperty. now right.
Qed.

Lemma NoDup_insertIndexed (n : N) (k : jsstring) (b : Founder.Bucket)
  (m : Founder.Index) :
  NoDup (Founder.keys m) -> ~ In k (Founder.keys m) ->
  NoDup (Founder.keys (Founder.insertIndexed n k b m)).
Proof.
  induction m as [|[k' b'] m IH]; intros Hnd Hk; simpl.
  - constructor; [intros []|constructor].
  - assert (NoDup (k :: Founder.keys ((k', b') :: m))) as Hall
        by (constructor; assumption).
    destruct (arrayIndex k') as [n'|]; [destruct (n' <? n)%N|];
      try exact Hall.
    simpl in Hnd, Hk |- *. inversion Hnd as [|? ? Hnotin Hnd']; subst.
    constructor.
    + intros Hin. apply in_map_iff in Hin. destruct Hin as (e & He & Hin).
      apply In_insertIndexed in Hin. destruct Hin as [->|Hin].
      * simpl in He. apply Hk. now left.
      * apply Hnotin. rewrite <- He. now apply in_map.
    + apply IH; [exact Hnd'|]. intros Hin. apply Hk. now right.
Qed.

Lemma NoDup_addProperty (k : jsstring) (b : Founder.Bucket)
  (m : Founder.Index) :
  NoDup (Founder.keys m) -> ~ In k (Founder.keys m) ->
  NoDup (Founder.keys (Founder.addProperty k b m)).
Proof.
  intros Hnd Hk. unfold Founder.addProperty. destruct (arrayIndex k).
  - now apply NoDup_insertIndexed.
  - unfold Founder.keys. rewrite map_app. simpl.
    apply NoDup_app; [exact Hnd|repeat constructor; intros []|].
    intros x Hx [<-|[]]. now apply Hk.
Qed.

Lemma lookup_None_keys (m : Founder.Index) (k : jsstring) :
  Founder.lookup m k = None -> ~ In k (Founder.keys m).
Proof.
  intros Hnone Hin. destruct (lookup_In_keys m k Hin) as [b Hb]. congruence.
Qed.

Section BuilderFacts.
Context {B : Builtins}.

Lemma addReferral_wellFormed (m m' : Founder.Index) (row : Row) :
  wellFormed m -> Founder.addReferral (Some m) row = Some m' ->
  wellFormed m'.
Proof.
  intros (Hkeys & Hnd & Hb) H. unfold Founder.addReferral in H.
  destruct (truthy (trim (orEmpty (cell row 9)))); [|now inversion H; subst].
  set (k := normalizeText (Some (trim (orEmpty (cell row 9))))) in *.
  destruct (truthy k) eqn:Ek; [|now inversion H; subst].
  unfold bucketsNonEmpty in Hb. rewrite Forall_forall in Hb.
  destruct (Founder.lookup m k) as [b|] eqn:El.
  - inversion H; subst m'. clear H. unfold wellFormed, keysNormalized.
    rewrite keys_pushReferral. split; [exact Hkeys|]. split; [exact Hnd|].
    apply pushReferral_buckets; [exact Hnd|]. intros e He _. now apply Hb.
  - destruct (inherited k); [discriminate|].
    inversion H; subst m'. clear H.
    pose proof (lookup_None_keys m k El) as Hnotin.
    unfold wellFormed, keysNormalized. rewrite keys_pushReferral.
    split; [|split].
    + rewrite Forall_forall. intros k' Hk'. apply keys_addProperty in Hk'.
      destruct Hk' as [->|Hk'].
      * split; [apply normalizeText_normalized|].
        destruct k; [discriminate|discriminate].
      * unfold keysNormalized in Hkeys. rewrite Forall_forall in Hkeys.
        now apply Hkeys.
    + now apply NoDup_addProperty.
    + apply pushReferral_buckets; [now apply NoDup_addProperty|].
      intros e He Hne. apply In_addProperty in He.
      destruct He as [->|He]; [now contradiction Hne|now apply Hb].
Qed.

Lemma addReferral_None (rows : list Row) :
  fold_left Founder.addReferral rows None = None.
Proof. induction rows; simpl; auto. Qed.

(** The mapping [createReferralMapping] returns has non-empty normalized
    keys, each once, and non-empty buckets. *)
Lemma createReferralMapping_wellFormed (referralRows : list Row)
  (m : Founder.Index) :
  Founder.createReferralMapping referralRows = Some m -> wellFormed m.
Proof.
  unfold Founder.createReferralMapping.
  assert (wellFormed []) as H0.
  { repeat split; constructor. }
  revert H0. generalize (@nil (jsstring * Founder.Bucket)) as m0.
  induction referralRows as [|row rows IH]; intros m0 H0 H;
    cbn [fold_left] in H.
  - now inversion H; subst.
  - destruct (Founder.addReferral (Some m0) row) as [m1|] eqn:E.
    + apply (IH m1); [|exact H]. now apply (addReferral_wellFormed m0 _ row).
    + now rewrite addReferral_None in H.
Qed.

End BuilderFacts.

(* ================================================================== *)
(** ** One founder row *)

Section FounderFacts.
Context {B : Builtins}.
Variable World : Type.
Variable writePage : PageWriter World.

(** The fields of a step for a row with a startup name. *)
Lemma processSingleFounder_named (w : World) (m : Founder.Index)
  (row : Row) :
  let name := trim (orEmpty (cell row 73)) in
  let s := Founder.processSingleFounder writePage w m row in
  let key := fst (Founder.matchReferrals m name) in
  let matched := snd (Founder.matchReferrals m name) in
  name <> [] ->
  Founder.stepRow s = row
  /\ Founder.stepMatchedKey s = Some key
  /\ Founder.stepMatchedReferrals s = matched
  /\ Founder.stepIndex s
     = (if (0 <? List.length matched)%nat then Founder.delete key m else m)
  /\ Founder.stepCompletion s = snd (writePage w name row matched)
  /\ In (Founder.logProcessing name) (Founder.stepLog s).
Proof.
  intros name s key matched Hname. subst s key matched.
  unfold Founder.processSingleFounder. fold name.
  destruct name as [|c name'] eqn:En; [contradiction|]. cbn [truthy].
  destruct (Founder.matchReferrals m (c :: name')) as [key matched].
  cbn [fst snd].
  destruct (writePage w (c :: name') row matched) as [[w' lines] completion].
  cbn [Founder.stepRow Founder.stepMatchedKey Founder.stepMatchedReferrals
       Founder.stepIndex Founder.stepCompletion Founder.stepLog snd].
  repeat split; try reflexivity. now left.
Qed.

(** The fields of a step for a row without a startup name. *)
Lemma processSingleFounder_unnamed (w : World) (m : Founder.Index)
  (row : Row) :
  trim (orEmpty (cell row 73)) = [] ->
  Founder.processSingleFounder writePage w m row
  = Founder.mkStep row m w [] None []
      (Threw (lit "Founder missing startup name")).
Proof.
  intros H. unfold Founder.processSingleFounder. now rewrite H.
Qed.

Lemma processSingleFounder_row (w : World) (m : Founder.Index) (row : Row) :
  Founder.stepRow (Founder.processSingleFounder writePage w m row) = row.
Proof.
  destruct (trim (orEmpty (cell row 73))) eqn:E.
  - now rewrite processSingleFounder_unnamed.
  - apply processSingleFounder_named. rewrite E. discriminate.
Qed.

(** The matched rows are those of the bucket stored under the matched key,
    if there is one. *)
Lemma matchReferrals_lookup (m : Founder.Index) (name : jsstring) :
  snd (Founder.matchReferrals m name)
  = match Founder.lookup m (fst (Founder.matchReferrals m name)) with
    | Some b => Founder.referrals b
    | None => []
    end.
Proof. reflexivity. Qed.

(** What a step claims, and what it does to the mapping. *)
Lemma processSingleFounder_claim (w : World) (m : Founder.Index)
  (row : Row) :
  let s := Founder.processSingleFounder writePage w m row in
  match claimedKey s with
  | Some k =>
      Founder.stepIndex s = Founder.delete k m
      /\ Founder.stepMatchedReferrals s <> []
      /\ exists b, Founder.lookup m k = Some b
                   /\ Founder.stepMatchedReferrals s = Founder.referrals b
  | None =>
      Founder.stepIndex s = m /\ Founder.stepMatchedReferrals s = []
  end.
Proof.
  intros s. subst s. unfold claimedKey.
  destruct (trim (orEmpty (cell row 73))) as [|c name'] eqn:E.
  - rewrite processSingleFounder_unnamed by exact E. simpl. now split.
  - assert (trim (orEmpty (cell row 73)) <> []) as Hne
        by (rewrite E; discriminate).
    destruct (processSingleFounder_named w m row Hne)
      as (_ & Hk & Hm & Hi & _).
    rewrite Hk, Hm, Hi. rewrite E in *.
    rewrite matchReferrals_lookup.
    destruct (Founder.lookup m (fst (Founder.matchReferrals m (c :: name'))))
      as [b|] eqn:El; [|now split].
    destruct (Founder.referrals b) as [|r rs] eqn:Er; [now split|].
    simpl. split; [reflexivity|]. split; [discriminate|].
    exists b. now split.
Qed.

(** C3 (amended), founder rows.  For every founder row whose normalized
    startup name is non-empty and every mapping with normalized keys: when
    some key is within distance 2 of that name, the rows attached are those
    of the bucket of the first key at the least distance (itself within 2);
    when no key is within distance 2, no rows are attached, the mapping is
    left as it is, and nothing is thrown by the matching (the step ends as
    the page writer ends).  Searcher rows: the rows attached are exactly the
    referral rows whose non-empty target name normalizes to a string at
    distance 0 from the normalized searcher name. *)
Theorem reconciliation_matching :
  (forall (w : World) (m : Founder.Index) (row : Row),
      let name := trim (orEmpty (cell row 73)) in
      let key := normalizeText (Some name) in
      let s := Founder.processSingleFounder writePage w m row in
      key <> [] ->
      keysNormalized m ->
      ((exists k, In k (Founder.keys m) /\ Levenshtein.distance key k <= 2) ->
       exists k b,
         firstLeast (Levenshtein.distance key) (Founder.keys m) k
         /\ Levenshtein.distance key k <= 2
         /\ Founder.lookup m k = Some b
         /\ Founder.stepMatchedKey s = Some k
         /\ Founder.stepMatchedReferrals s = Founder.referrals b)
      /\ ((forall k, In k (Founder.keys m) ->
                     2 < Levenshtein.distance key k) ->
          Founder.stepMatchedReferrals s = []
          /\ Founder.stepIndex s = m
          /\ Founder.stepCompletion s = snd (writePage w name row [])))
  /\ (forall (w : World) (allReferrals : list Row) (ids : list nat)
             (row : Row),
         let name := trim (orEmpty (cell row 37)) in
         let s := Searcher.processSingleSearcher writePage w allReferrals ids
                                                 row in
         name <> [] ->
         forall r,
           In r (Searcher.stepMatchedReferrals s)
           <-> In r allReferrals
               /\ otruthy (cell r 22) = true
               /\ Levenshtein.distance (normalizeText (Some name))
                                       (normalizeText (cell r 22)) = 0).
Proof.
  split.
  - intros w m row name key s Hkey Hm.
    assert (name <> []) as Hname.
    { intros E. apply Hkey. subst key. now rewrite E. }
    destruct (processSingleFounder_named w m row Hname)
      as (_ & Hk & Hmatched & Hi & Hc & _).
    fold name in Hk, Hmatched, Hi, Hc. fold s in Hk, Hmatched, Hi, Hc.
    destruct (keysNormalized_filter m Hm) as [Hnorm Hfilter].
    pose proof (findBestMatch_scores key (Founder.keys m)
                  defaultMaxDistance Hkey) as Hscores.
    pose proof (scoreOf_keys key (Founder.keys m)
                  (normalizeText_normalized (Some name)) Hnorm) as Hdist.
    rewrite Hfilter in Hscores, Hdist.
    unfold Founder.matchReferrals in Hk, Hmatched, Hi, Hc.
    fold key in Hk, Hmatched, Hi, Hc. cbn [fst snd] in Hk, Hmatched, Hi, Hc.
    destruct (findBestMatch key (Founder.keys m) defaultMaxDistance)
      as [k|]; unfold defaultMaxDistance in Hscores.
    + destruct Hscores as [HL Hle].
      pose proof (firstLeast_In _ _ _ HL) as Hin.
      rewrite (Hdist k Hin) in Hle.
      apply (firstLeast_ext _ _ _ _ Hdist) in HL.
      assert (truthy k = true) as Ht.
      { unfold keysNormalized in Hm. rewrite Forall_forall in Hm.
        destruct (Hm k Hin) as [_ Hne]. destruct k; [contradiction|reflexivity]. }
      rewrite Ht in Hk, Hmatched, Hi, Hc.
      destruct (lookup_In_keys m k Hin) as [b Hb].
      rewrite Hb in Hmatched.
      split.
      * intros _. exists k, b. repeat split; try assumption. lia.
      * intros Hfar. specialize (Hfar k Hin). lia.
    + assert (forall c, In c (Founder.keys m) ->
                        2 < Levenshtein.distance key c) as Hcontract.
      { intros c Hin. specialize (Hscores c Hin).
        rewrite (Hdist c Hin) in Hscores. lia. }
      assert (Founder.lookup m key = None) as Hnone.
      { destruct (Founder.lookup m key) as [b|] eqn:El; [|reflexivity].
        apply lookup_Some_keys in El. specialize (Hcontract key El).
        rewrite distance_refl in Hcontract. lia. }
      rewrite Hnone in Hmatched, Hi, Hc. simpl in Hi.
      split.
      * intros (k & Hin & Hle). specialize (Hcontract k Hin). lia.
      * intros _. now repeat split.
  - intros w allReferrals ids row name s Hname r. subst s.
    unfold Searcher.processSingleSearcher. fold name.
    destruct name as [|c name'] eqn:En; [contradiction|]. cbn [truthy].
    destruct (writePage w (c :: name') row
                (findMatchingReferrals (c :: name') allReferrals 22))
      as [[w' lines] completion].
    cbn [Searcher.stepMatchedReferrals].
    unfold findMatchingReferrals. cbn [truthy].
    rewrite filter_In. unfold referralMatches.
    destruct (otruthy (cell r 22)) eqn:Ec.
    + rewrite jsstring_eqb_eq. split.
      * intros [Hin Heq]. repeat split; [exact Hin|].
        rewrite Heq. apply distance_refl.
      * intros (Hin & _ & Hz). split; [exact Hin|].
        symmetry. now apply distance_zero.
    + split; [intros [_ H]; discriminate|intros (_ & H & _); discriminate].
Qed.

End FounderFacts.

(* ================================================================== *)
(** ** The founder loop: claims *)

Section FounderRunFacts.
Context {B : Builtins}.
Variable World : Type.
Variable writePage : PageWriter World.

Lemma iteration_fields (run : Founder.Run World) (row : Row) :
  let s := Founder.processSingleFounder writePage (Founder.world run)
                                        (Founder.mapping run) row in
  let run' := Founder.iteration writePage run row in
  Founder.mapping run' = Founder.stepIndex s
  /\ Founder.world run' = Founder.stepWorld s
  /\ Founder.steps run' = Founder.steps run ++ [s].
Proof.
  intros s run'. subst run'. unfold Founder.iteration. fold s.
  destruct (Founder.stepCompletion s); simpl; now repeat split.
Qed.

(** The invariant of the loop, from any state on: the steps taken claim
    pairwise distinct keys of the mapping they started from, each claimed
    key leaves the mapping in the step that claims it, what a step attaches
    is the bucket stored under the key it claims, and the mapping at the
    end is the initial one without the claimed keys. *)
Lemma claims_from (rows : list Row) :
  forall run : Founder.Run World,
  exists news,
    Founder.steps (fold_left (Founder.iteration writePage) rows run)
    = Founder.steps run ++ news
    /\ map (@Founder.stepRow World) news = rows
    /\ NoDup (claimedKeys news)
    /\ (forall k, In k (claimedKeys news) ->
                  In k (Founder.keys (Founder.mapping run)))
    /\ Founder.mapping (fold_left (Founder.iteration writePage) rows run)
       = filter (fun e => notAmong (claimedKeys news) (fst e))
                (Founder.mapping run)
    /\ Forall (fun s =>
                 match claimedKey s with
                 | Some k =>
                     ~ In k (Founder.keys (Founder.stepIndex s))
                     /\ Founder.stepMatchedReferrals s <> []
                     /\ exists b,
                          Founder.lookup (Founder.mapping run) k = Some b
                          /\ Founder.stepMatchedReferrals s
                             = Founder.referrals b
                 | None => Founder.stepMatchedReferrals s = []
                 end) news.
Proof.
  induction rows as [|row rows IH]; intros run; simpl fold_left.
  - exists []. rewrite app_nil_r. simpl.
    repeat split; try constructor; try (intros k []).
    now rewrite filter_notAmong_nil.
  - set (s := Founder.processSingleFounder writePage (Founder.world run)
                (Founder.mapping run) row).
    destruct (iteration_fields run row) as (Hmap & _ & Hsteps).
    fold s in Hmap, Hsteps.
    destruct (IH (Founder.iteration writePage run row))
      as (news & Hs & Hrows & Hnd & Hin & Hfinal & Hall).
    rewrite Hmap in Hin, Hfinal, Hall. rewrite Hsteps in Hs.
    exists (s :: news).
    pose proof (processSingleFounder_claim World writePage (Founder.world run)
                  (Founder.mapping run) row) as Hclaim.
    fold s in Hclaim. cbn zeta in Hclaim.
    split; [now rewrite Hs, <- app_assoc|].
    split.
    { simpl. f_equal; [apply (processSingleFounder_row World)|exact Hrows]. }
    simpl claimedKeys.
    destruct (claimedKey s) as [k|] eqn:Ek.
    + destruct Hclaim as (Hidx & Hne & b & Hb & Hrefs).
      rewrite Hidx in Hin, Hfinal, Hall.
      assert (forall k', In k' (claimedKeys news) ->
                         In k' (Founder.keys (Founder.mapping run))
                         /\ k' <> k) as Hin'.
      { intros k' Hk'. apply keys_delete. now apply Hin. }
      split; [|split; [|split]].
      * constructor; [|exact Hnd].
        intros Hk. destruct (Hin' k Hk) as [_ Hn]. now apply Hn.
      * intros k' [<-|Hk']; [now apply (lookup_Some_keys _ _ b)|].
        now apply Hin'.
      * rewrite Hfinal. apply delete_filter.
      * constructor.
        -- rewrite Ek, Hidx. split; [|split; [exact Hne|now exists b]].
           intros Hk. apply keys_delete in Hk. now destruct Hk.
        -- eapply Forall_impl; [|exact Hall].
           intros s' Hs'. cbv beta in Hs' |- *.
           destruct (claimedKey s') as [k'|]; [|exact Hs'].
           destruct Hs' as (Hgone & Hne' & b' & Hb' & Hrefs').
           split; [exact Hgone|]. split; [exact Hne'|].
           exists b'. split; [|exact Hrefs'].
           rewrite <- Hb'. symmetry. apply lookup_delete_other.
           apply lookup_Some_keys in Hb'. apply keys_delete in Hb'.
           now destruct Hb'.
    + destruct Hclaim as (Hidx & Hnone).
      rewrite Hidx in Hin, Hfinal, Hall.
      split; [exact Hnd|]. split; [exact Hin|]. split; [exact Hfinal|].
      constructor; [now rewrite Ek|exact Hall].
Qed.

(** C1 (amended). In every run of the loop of [processFounders] over
    founder rows and a referral mapping: the keys claimed by the steps are
    pairwise distinct, so a bucket is attached to at most one founder row,
    the first whose match it is;
    the step that claims a key removes it from the mapping before the page
    is written, and attaches the rows stored under that key; a step that
    claims nothing attaches nothing; and the mapping after the run is the
    initial mapping without the claimed keys. *)
Theorem claims_exclusive (w : World) (referralMapping : Founder.Index)
  (founderRows : list Row) :
  let run := Founder.processFoundersFrom writePage w referralMapping
                                     founderRows in
  map (@Founder.stepRow World) (Founder.steps run) = founderRows
  /\ NoDup (claimedKeys (Founder.steps run))
  /\ Forall (fun s =>
               match claimedKey s with
               | Some k =>
                   ~ In k (Founder.keys (Founder.stepIndex s))
                   /\ Founder.stepMatchedReferrals s <> []
                   /\ exists b,
                        Founder.lookup referralMapping k = Some b
                        /\ Founder.stepMatchedReferrals s
                           = Founder.referrals b
               | None => Founder.stepMatchedReferrals s = []
               end) (Founder.steps run)
  /\ Founder.mapping run
     = filter (fun e => notAmong (claimedKeys (Founder.steps run)) (fst e))
              referralMapping
  /\ (forall k b,
        In (k, b) (Founder.mapping run)
        <-> In (k, b) referralMapping
            /\ ~ In k (claimedKeys (Founder.steps run))).
Proof.
  intros run. subst run. unfold Founder.processFoundersFrom.
  destruct (claims_from founderRows
              (Founder.mkRun noResults referralMapping w [] []))
    as (news & Hs & Hrows & Hnd & _ & Hfinal & Hall).
  simpl in Hs, Hfinal, Hall. rewrite Hs.
  split; [exact Hrows|]. split; [exact Hnd|]. split; [exact Hall|].
  split; [exact Hfinal|].
  intros k b. rewrite Hfinal, filter_In. unfold notAmong. cbn [fst].
  rewrite negb_true_iff.
  assert (existsb (jsstring_eqb k) (claimedKeys news) = false
          <-> ~ In k (claimedKeys news)) as Hiff.
  { split.
    - intros E Hin.
      assert (existsb (jsstring_eqb k) (claimedKeys news) = true) as Ht.
      { apply existsb_exists. exists k. split; [exact Hin|].
        apply jsstring_eqb_refl. }
      congruence.
    - intros Hn.
      destruct (existsb (jsstring_eqb k) (claimedKeys news)) eqn:E;
        [|reflexivity].
      apply existsb_exists in E. destruct E as (k' & Hk' & Heq).
      apply jsstring_eqb_eq in Heq. subst k'. contradiction. }
  now rewrite Hiff.
Qed.

End FounderRunFacts.

(* ================================================================== *)
(** ** The loops: errors *)

Section ErrorFacts.
Context {B : Builtins}.
Variable World : Type.
Variable writePage : PageWriter World.

Lemma processSingleFounder_log (w : World) (m : Founder.Index) (row : Row) :
  let name := trim (orEmpty (cell row 73)) in
  name <> [] ->
  In (Founder.logProcessing name)
     (Founder.stepLog (Founder.processSingleFounder writePage w m row)).
Proof. intros name H. now apply processSingleFounder_named. Qed.

Lemma processSingleSearcher_fields (w : World) (allReferrals : list Row)
  (ids : list nat) (row : Row) :
  let name := trim (orEmpty (cell row 37)) in
  let s := Searcher.processSingleSearcher writePage w allReferrals ids row in
  Searcher.stepRow s = row
  /\ (name <> [] -> In (Searcher.logProcessing name) (Searcher.stepLog s)).
Proof.
  intros name s. subst s. unfold Searcher.processSingleSearcher. fold name.
  destruct name as [|c name']; cbn [truthy].
  - split; [reflexivity|]. intros H. now contradiction H.
  - destruct (writePage w (c :: name') row _) as [[w' lines] completion].
    split; [reflexivity|]. intros _. now left.
Qed.

Lemma founder_iteration_cases (run : Founder.Run World) (row : Row) :
  let s := Founder.processSingleFounder writePage (Founder.world run)
                                        (Founder.mapping run) row in
  let run' := Founder.iteration writePage run row in
  Founder.steps run' = Founder.steps run ++ [s]
  /\ match Founder.stepCompletion s with
     | Threw message =>
         Founder.console run'
         = Founder.console run ++ Founder.stepLog s
           ++ [Founder.logError message]
         /\ Founder.results run' = countError (Founder.results run)
     | Returned c u =>
         Founder.console run' = Founder.console run ++ Founder.stepLog s
         /\ Founder.results run' = countSuccess (Founder.results run) c u
     end.
Proof.
  intros s run'. subst run'. unfold Founder.iteration. fold s.
  destruct (Founder.stepCompletion s); simpl; now repeat split.
Qed.

Lemma searcher_iteration_cases (referralRows : list Row)
  (run : Searcher.Run World) (row : Row) :
  let s := Searcher.processSingleSearcher writePage (Searcher.world run)
             referralRows (Searcher.matchedIds run) row in
  let run' := Searcher.iteration writePage referralRows run row in
  Searcher.steps run' = Searcher.steps run ++ [s]
  /\ match Searcher.stepCompletion s with
     | Threw message =>
         Searcher.console run'
         = Searcher.console run ++ Searcher.stepLog s
           ++ [Searcher.logError message]
         /\ Searcher.results run' = countError (Searcher.results run)
     | Returned c u =>
         Searcher.console run' = Searcher.console run ++ Searcher.stepLog s
         /\ Searcher.results run' = countSuccess (Searcher.results run) c u
     end.
Proof.
  intros s run'. subst run'. unfold Searcher.iteration. fold s.
  destruct (Searcher.stepCompletion s); simpl; now repeat split.
Qed.

(** Membership in a console built by appending. *)
Ltac in_appended :=
  first [ assumption
        | left; reflexivity
        | apply in_or_app; left; in_appended
        | apply in_or_app; right; in_appended
        | right; in_appended ].

(** The end of one case of a loop invariant: the step [s] in front of the
    steps [news] the induction hypothesis speaks about. *)
Ltac finish_iteration Hs Hc Hrow Hrows Ecomp Hlog Hname Hprog :=
  split; [now rewrite Hs, <- app_assoc|];
  split; [now rewrite Hc, <- ?app_assoc|];
  split; [simpl; now rewrite Hrow, Hrows|];
  simpl filter; rewrite Ecomp; cbn [threw negb List.length];
  split; [lia|]; split; [lia|]; split;
  [ let s' := fresh "s" in
    let Hin := fresh "Hin" in
    let Hthrew := fresh "Hthrew" in
    intros s' ? [<-|Hin] Hthrew;
    [ rewrite Ecomp in Hthrew;
      first [ discriminate | injection Hthrew as <-; in_appended ]
    | pose proof (Hlog _ _ Hin Hthrew); in_appended ]
  | let s' := fresh "s" in
    let Hin := fresh "Hin" in
    let Hn := fresh "Hn" in
    intros s' [<-|Hin] Hn;
    [ rewrite Hrow in Hn |- *; pose proof (Hprog Hn); in_appended
    | pose proof (Hname _ Hin Hn); in_appended ] ].

(** The invariant of the founder loop, from any state on: one step per row,
    in order; the counters grow by the number of steps that returned and
    by the number of steps that threw; the console only grows, by lines
    that include one error line per thrown error and the progress line of
    every named row. *)
Lemma founder_errors_from (rows : list Row) :
  forall run : Founder.Run World,
  exists news extra,
    let run' := fold_left (Founder.iteration writePage) rows run in
    Founder.steps run' = Founder.steps run ++ news
    /\ Founder.console run' = Founder.console run ++ extra
    /\ map (@Founder.stepRow World) news = rows
    /\ errors (Founder.results run')
       = errors (Founder.results run)
         + List.length (filter (fun s => threw (Founder.stepCompletion s))
                               news)
    /\ processed (Founder.results run')
       = processed (Founder.results run)
         + List.length (filter (fun s =>
                                  negb (threw (Founder.stepCompletion s)))
                               news)
    /\ (forall s message,
          In s news -> Founder.stepCompletion s = Threw message ->
          In (Founder.logError message) extra)
    /\ (forall s,
          In s news ->
          trim (orEmpty (cell (Founder.stepRow s) 73)) <> [] ->
          In (Founder.logProcessing
                (trim (orEmpty (cell (Founder.stepRow s) 73)))) extra).
Proof.
  induction rows as [|row rows IH]; intros run; simpl fold_left.
  - exists [], []. cbn zeta. rewrite !app_nil_r. simpl.
    repeat split; try lia; intros; contradiction.
  - set (s := Founder.processSingleFounder writePage (Founder.world run)
                (Founder.mapping run) row).
    destruct (IH (Founder.iteration writePage run row))
      as (news & extra & Hs & Hc & Hrows & He & Hp & Hlog & Hname).
    cbn zeta in *.
    pose proof (processSingleFounder_row World writePage (Founder.world run)
                  (Founder.mapping run) row) as Hrow.
    pose proof (processSingleFounder_log (Founder.world run)
                  (Founder.mapping run) row) as Hprog.
    fold s in Hrow, Hprog. cbn zeta in Hprog.
    destruct (founder_iteration_cases run row) as [Hst Hcase].
    fold s in Hst, Hcase. cbn zeta in Hst, Hcase.
    rewrite Hst in Hs.
    destruct (Founder.stepCompletion s) as [message|c u] eqn:Ecomp;
      destruct Hcase as [Hcon Hres]; rewrite Hcon in Hc;
      rewrite Hres in He, Hp;
      cbn [errors processed countError countSuccess] in He, Hp.
    + exists (s :: news), (Founder.stepLog s ++ [Founder.logError message]
                           ++ extra).
      finish_iteration Hs Hc Hrow Hrows Ecomp Hlog Hname Hprog.
    + exists (s :: news), (Founder.stepLog s ++ extra).
      finish_iteration Hs Hc Hrow Hrows Ecomp Hlog Hname Hprog.
Qed.

(** The same invariant for the searcher loop. *)
Lemma searcher_errors_from (referralRows rows : list Row) :
  forall run : Searcher.Run World,
  exists news extra,
    let run' := fold_left (Searcher.iteration writePage referralRows) rows
                          run in
    Searcher.steps run' = Searcher.steps run ++ news
    /\ Searcher.console run' = Searcher.console run ++ extra
    /\ map (@Searcher.stepRow World) news = rows
    /\ errors (Searcher.results run')
       = errors (Searcher.results run)
         + List.length (filter (fun s => threw (Searcher.stepCompletion s))
                               news)
    /\ processed (Searcher.results run')
       = processed (Searcher.results run)
         + List.length (filter (fun s =>
                                  negb (threw (Searcher.stepCompletion s)))
                               news)
    /\ (forall s message,
          In s news -> Searcher.stepCompletion s = Threw message ->
          In (Searcher.logError message) extra)
    /\ (forall s,
          In s news ->
          trim (orEmpty (cell (Searcher.stepRow s) 37)) <> [] ->
          In (Searcher.logProcessing
                (trim (orEmpty (cell (Searcher.stepRow s) 37)))) extra).
Proof.
  induction rows as [|row rows IH]; intros run; simpl fold_left.
  - exists [], []. cbn zeta. rewrite !app_nil_r. simpl.
    repeat split; try lia; intros; contradiction.
  - set (s := Searcher.processSingleSearcher writePage (Searcher.world run)
                referralRows (Searcher.matchedIds run) row).
    destruct (IH (Searcher.iteration writePage referralRows run row))
      as (news & extra & Hs & Hc & Hrows & He & Hp & Hlog & Hname).
    cbn zeta in *.
    destruct (processSingleSearcher_fields (Searcher.world run) referralRows
                (Searcher.matchedIds run) row) as [Hrow Hprog].
    fold s in Hrow, Hprog.
    destruct (searcher_iteration_cases referralRows run row) as [Hst Hcase].
    fold s in Hst, Hcase. cbn zeta in Hst, Hcase.
    rewrite Hst in Hs.
    destruct (Searcher.stepCompletion s) as [message|c u] eqn:Ecomp;
      destruct Hcase as [Hcon Hres]; rewrite Hcon in Hc;
      rewrite Hres in He, Hp;
      cbn [errors processed countError countSuccess] in He, Hp.
    + exists (s :: news), (Searcher.stepLog s ++ [Searcher.logError message]
                           ++ extra).
      finish_iteration Hs Hc Hrow Hrows Ecomp Hlog Hname Hprog.
    + exists (s :: news), (Searcher.stepLog s ++ extra).
      finish_iteration Hs Hc Hrow Hrows Ecomp Hlog Hname Hprog.
Qed.

(** The counters and the lines of the two loops. *)
Lemma errors_counted :
  (forall (w : World) (referralMapping : Founder.Index)
          (founderRows : list Row),
      let run := Founder.processFoundersFrom writePage w referralMapping
                                         founderRows in
      map (@Founder.stepRow World) (Founder.steps run) = founderRows
      /\ errors (Founder.results run)
         = List.length (filter (fun s => threw (Founder.stepCompletion s))
                               (Founder.steps run))
      /\ processed (Founder.results run)
         = List.length (filter (fun s =>
                                  negb (threw (Founder.stepCompletion s)))
                               (Founder.steps run))
      /\ processed (Founder.results run) + errors (Founder.results run)
         = List.length founderRows
      /\ (forall s message,
            In s (Founder.steps run) ->
            Founder.stepCompletion s = Threw message ->
            In (Founder.logError message) (Founder.console run))
      /\ (forall s,
            In s (Founder.steps run) ->
            trim (orEmpty (cell (Founder.stepRow s) 73)) <> [] ->
            In (Founder.logProcessing
                  (trim (orEmpty (cell (Founder.stepRow s) 73))))
               (Founder.console run)))
  /\ (forall (w : World) (searcherRows referralRows : list Row),
         let run := Searcher.processSearchers writePage w searcherRows
                                              referralRows in
         map (@Searcher.stepRow World) (Searcher.steps run) = searcherRows
         /\ errors (Searcher.results run)
            = List.length (filter (fun s =>
                                     threw (Searcher.stepCompletion s))
                                  (Searcher.steps run))
         /\ processed (Searcher.results run)
            = List.length (filter (fun s =>
                                     negb (threw (Searcher.stepCompletion s)))
                                  (Searcher.steps run))
         /\ processed (Searcher.results run) + errors (Searcher.results run)
            = List.length searcherRows
         /\ (forall s message,
               In s (Searcher.steps run) ->
               Searcher.stepCompletion s = Threw message ->
               In (Searcher.logError message) (Searcher.console run))
         /\ (forall s,
               In s (Searcher.steps run) ->
               trim (orEmpty (cell (Searcher.stepRow s) 37)) <> [] ->
               In (Searcher.logProcessing
                     (trim (orEmpty (cell (Searcher.stepRow s) 37))))
                  (Searcher.console run))).
Proof.
  split.
  - intros w referralMapping founderRows run. subst run.
    unfold Founder.processFoundersFrom.
    destruct (founder_errors_from founderRows
                (Founder.mkRun noResults referralMapping w [] []))
      as (news & extra & Hs & Hc & Hrows & He & Hp & Hlog & Hname).
    cbn zeta in *. simpl in Hs, Hc, He, Hp.
    rewrite Hs, Hc, He, Hp.
    repeat split; try assumption.
    rewrite <- Hrows, length_map.
    rewrite <- (filter_length (fun s => threw (Founder.stepCompletion s))
                              news).
    lia.
  - intros w searcherRows referralRows run. subst run.
    unfold Searcher.processSearchers.
    destruct (searcher_errors_from referralRows searcherRows
                (Searcher.mkRun noResults [] w [] []))
      as (news & extra & Hs & Hc & Hrows & He & Hp & Hlog & Hname).
    cbn zeta in *. simpl in Hs, Hc, He, Hp.
    rewrite Hs, Hc, He, Hp.
    repeat split; try assumption.
    rewrite <- Hrows, length_map.
    rewrite <- (filter_length (fun s => threw (Searcher.stepCompletion s))
                              news).
    lia.
Qed.


(** The console of the founder loop is made of the lines of the steps, one
    step after the other. *)
Lemma founder_console_from (rows : list Row) :
  forall run : Founder.Run World,
    Founder.console run = flat_map founderLines (Founder.steps run) ->
    Founder.console (fold_left (Founder.iteration writePage) rows run)
    = flat_map founderLines
        (Founder.steps (fold_left (Founder.iteration writePage) rows run)).
Proof.
  induction rows as [|row rows IH]; intros run H; [exact H|].
  cbn [fold_left]. apply IH.
  destruct (founder_iteration_cases run row) as [Hst Hcase].
  cbn zeta in Hst, Hcase. rewrite Hst, flat_map_app. cbn [flat_map].
  rewrite app_nil_r, <- H. unfold founderLines.
  destruct (Founder.stepCompletion _) as [message|c u];
    destruct Hcase as [-> _]; [reflexivity|now rewrite app_nil_r].
Qed.

Lemma searcher_console_from (referralRows rows : list Row) :
  forall run : Searcher.Run World,
    Searcher.console run = flat_map searcherLines (Searcher.steps run) ->
    Searcher.console
      (fold_left (Searcher.iteration writePage referralRows) rows run)
    = flat_map searcherLines
        (Searcher.steps
           (fold_left (Searcher.iteration writePage referralRows) rows run)).
Proof.
  induction rows as [|row rows IH]; intros run H; [exact H|].
  cbn [fold_left]. apply IH.
  destruct (searcher_iteration_cases referralRows run row) as [Hst Hcase].
  cbn zeta in Hst, Hcase. rewrite Hst, flat_map_app. cbn [flat_map].
  rewrite app_nil_r, <- H. unfold searcherLines.
  destruct (Searcher.stepCompletion _) as [message|c u];
    destruct Hcase as [-> _]; [reflexivity|now rewrite app_nil_r].
Qed.

(** C2 (amended). In the loop of [processFounders] and in the loop of
    [processSearchers], an error thrown while one row is processed does not
    end the run: every row of the input gets its step, in order; the error
    counter is the number of steps that threw and the processed counter the
    number of steps that returned, so the two add up to the number of rows;
    the console holds, step after step, the lines of the step followed,
    when the step threw, by the one line [console.error] prints; that line
    is a fixed text, a space and the message of the error, so the name of
    the row is not put into it; and for every row with a name the console
    holds the progress line that carries that name. *)
Theorem errors_isolated :
  (forall (w : World) (referralMapping : Founder.Index)
          (founderRows : list Row),
      let run := Founder.processFoundersFrom writePage w referralMapping
                                         founderRows in
      map (@Founder.stepRow World) (Founder.steps run) = founderRows
      /\ errors (Founder.results run)
         = List.length (filter (fun s => threw (Founder.stepCompletion s))
                               (Founder.steps run))
      /\ processed (Founder.results run)
         = List.length (filter (fun s =>
                                  negb (threw (Founder.stepCompletion s)))
                               (Founder.steps run))
      /\ processed (Founder.results run) + errors (Founder.results run)
         = List.length founderRows
      /\ (forall s message,
            In s (Founder.steps run) ->
            Founder.stepCompletion s = Threw message ->
            In (Founder.logError message) (Founder.console run))
      /\ (forall s,
            In s (Founder.steps run) ->
            trim (orEmpty (cell (Founder.stepRow s) 73)) <> [] ->
            In (Founder.logProcessing
                  (trim (orEmpty (cell (Founder.stepRow s) 73))))
               (Founder.console run))
      /\ Founder.console run
         = flat_map founderLines (Founder.steps run))
  /\ (forall (w : World) (searcherRows referralRows : list Row),
         let run := Searcher.processSearchers writePage w searcherRows
                                              referralRows in
         map (@Searcher.stepRow World) (Searcher.steps run) = searcherRows
         /\ errors (Searcher.results run)
            = List.length (filter (fun s =>
                                     threw (Searcher.stepCompletion s))
                                  (Searcher.steps run))
         /\ processed (Searcher.results run)
            = List.length (filter (fun s =>
                                     negb (threw (Searcher.stepCompletion s)))
                                  (Searcher.steps run))
         /\ processed (Searcher.results run) + errors (Searcher.results run)
            = List.length searcherRows
         /\ (forall s message,
               In s (Searcher.steps run) ->
               Searcher.stepCompletion s = Threw message ->
               In (Searcher.logError message) (Searcher.console run))
         /\ (forall s,
               In s (Searcher.steps run) ->
               trim (orEmpty (cell (Searcher.stepRow s) 37)) <> [] ->
               In (Searcher.logProcessing
                     (trim (orEmpty (cell (Searcher.stepRow s) 37))))
                  (Searcher.console run))
         /\ Searcher.console run
            = flat_map searcherLines (Searcher.steps run))
  /\ (forall message : jsstring,
         Founder.logError message
         = [0x274C]%N ++ lit " Error processing founder: " ++ message
         /\ Searcher.logError message
            = [0x274C]%N ++ lit " Error processing searcher: " ++ message).
Proof.
  destruct errors_counted as [HF HS].
  split; [|split].
  - intros w referralMapping founderRows run.
    destruct (HF w referralMapping founderRows)
      as (H1 & H2 & H3 & H4 & H5 & H6).
    repeat (split; [assumption|]).
    exact (founder_console_from founderRows
             (Founder.mkRun noResults referralMapping w [] []) eq_refl).
  - intros w searcherRows referralRows run.
    destruct (HS w searcherRows referralRows)
      as (H1 & H2 & H3 & H4 & H5 & H6).
    repeat (split; [assumption|]).
    exact (searcher_console_from referralRows searcherRows
             (Searcher.mkRun noResults [] w [] []) eq_refl).
  - intros message. split; reflexivity.
Qed.

End ErrorFacts.

(* ================================================================== *)
(** ** Completion percentage *)

Lemma countFilledFields_le (row : Row) (indices : list nat) :
  countFilledFields row indices <= List.length indices.
Proof.
  unfold countFilledFields.
  assert (forall n,
            fold_left (fun count index =>
                         count + (if hasContent (cell row index)
                                  then 1 else 0)) indices n
            <= n + List.length indices) as H.
  { induction indices as [|i indices IH]; intros n; simpl; [lia|].
    specialize (IH (n + (if hasContent (cell row i) then 1 else 0))).
    destruct (hasContent (cell row i)); lia. }
  apply (H 0).
Qed.

(** The counters of the code count the filled cells. *)
Lemma hasContent_filledCell (c : option jsstring) :
  hasContent c = filledCell c.
Proof.
  destruct c as [[|x s]|]; try reflexivity.
  unfold hasContent, filledCell. cbn [otruthy orEmpty andb].
  destruct (trim (x :: s)) as [|y t]; reflexivity.
Qed.

Lemma trimmed_filledCell (c : option jsstring) :
  otruthy (option_map trim c) = filledCell c.
Proof.
  destruct c as [s|]; [|reflexivity]. cbn [option_map filledCell].
  destruct (trim s) as [|y t]; reflexivity.
Qed.

Lemma count_filter (p : nat -> bool) (indices : list nat) :
  forall n,
    fold_left (fun count i => count + (if p i then 1 else 0)) indices n
    = n + List.length (filter p indices).
Proof.
  induction indices as [|i indices IH]; intros n; cbn [fold_left filter].
  - cbn. lia.
  - rewrite IH. destruct (p i); cbn [List.length]; lia.
Qed.

Lemma countFilledFields_filled (row : Row) (indices : list nat) :
  countFilledFields row indices = filledCount row indices.
Proof.
  unfold countFilledFields, filledCount.
  rewrite (count_filter (fun i => hasContent (cell row i))).
  cbn [Nat.add]. f_equal. apply filter_ext.
  intros i. apply hasContent_filledCell.
Qed.

Section LegacyFacts.
Context {B : Builtins}.

Lemma getFilledCount_filled (row : Row) (indices : list nat) :
  Legacy.getFilledCount row indices = filledCount row indices.
Proof.
  unfold Legacy.getFilledCount, filledCount.
  rewrite (count_filter (fun i => otruthy (option_map trim (cell row i)))).
  cbn [Nat.add]. f_equal. apply filter_ext.
  intros i. apply trimmed_filledCell.
Qed.

Lemma getFilledCount_le (row : Row) (indices : list nat) :
  Legacy.getFilledCount row indices <= List.length indices.
Proof.
  unfold Legacy.getFilledCount.
  assert (forall n,
            fold_left (fun count i =>
                         count + (if otruthy (option_map trim (cell row i))
                                  then 1 else 0)) indices n
            <= n + List.length indices) as H.
  { induction indices as [|i indices IH]; intros n; simpl; [lia|].
    specialize (IH (n + (if otruthy (option_map trim (cell row i))
                         then 1 else 0))).
    destruct (otruthy (option_map trim (cell row i))); lia. }
  apply (H 0).
Qed.

End LegacyFacts.

Lemma map_add_seq (a n : nat) (k : nat) :
  map (fun j => a + j) (seq k n) = seq (a + k) n.
Proof.
  revert k. induction n as [|n IH]; intros k; simpl; [reflexivity|].
  f_equal. rewrite IH. f_equal. lia.
Qed.

Lemma teamMemberIndices_seq (i : nat) :
  Legacy.teamMemberIndices i = seq (119 + 11 * i) 11.
Proof.
  unfold Legacy.teamMemberIndices.
  rewrite (map_add_seq (119 + i * 11) 11 0). f_equal. lia.
Qed.

Lemma teamIndices_seq (n : nat) :
  forall k,
    flat_map Legacy.teamMemberIndices (seq k n) = seq (119 + 11 * k) (11 * n).
Proof.
  induction n as [|n IH]; intros k.
  - now rewrite Nat.mul_0_r.
  - cbn [seq flat_map]. rewrite IH, teamMemberIndices_seq.
    replace (11 * S n) with (11 + 11 * n) by lia.
    rewrite seq_app. do 2 f_equal. lia.
Qed.

Lemma requiredIndices_length (n : nat) :
  List.length (requiredIndices n) = 50 + 11 * n.
Proof. unfold requiredIndices. now rewrite length_app, !length_seq. Qed.

Lemma roundedPercent_bounds (a t : nat) :
  a <= t -> 0 < t -> (0 <= roundedPercent a t <= 100)%Z.
Proof.
  intros Ha Ht. unfold roundedPercent. split.
  - apply Z.div_pos; lia.
  - apply Z.lt_succ_r. apply Z.div_lt_upper_bound; lia.
Qed.

Lemma percentAgrees_spec (a t : nat) :
  percentAgreesUpTo t = true -> a <= t ->
  integerValue (Math_round (ofNat a / ofNat t * ofNat 100)%float)
  = Some (roundedPercent a t).
Proof.
  unfold percentAgreesUpTo. intros H Ha.
  rewrite forallb_forall in H.
  specialize (H a). unfold percentAgrees in H.
  destruct (integerValue _) as [z|].
  - f_equal. apply Z.eqb_eq. apply H. apply in_seq. lia.
  - assert (false = true) by (apply H; apply in_seq; lia). discriminate.
Qed.

(** On the totals the founder forms produce with up to nine team members,
    the double-precision expression lands on the exactly rounded value. *)
Lemma percentAgrees_small (n : nat) :
  n <= 9 -> percentAgreesUpTo (50 + 11 * n) = true.
Proof.
  intros Hn.
  assert (forallb (fun n => percentAgreesUpTo (50 + 11 * n)) (seq 0 10)
          = true) as H by (vm_compute; reflexivity).
  rewrite forallb_forall in H. apply H. apply in_seq. lia.
Qed.

Section CompletionFacts.
Context {B : Builtins}.

(** C6 (amended).  For every founder row, the counter of the founder
    processor is the number of filled cells among the fixed columns 66 to
    115, and its completion percentage is the rounded percentage of that
    number out of 50, that is twice the number, between 0 and 100; the
    declared number of team members plays no part.  In the monolithic
    script, for a row that declares [n] team members, the required columns
    are the columns 66 to 115 followed by 11 columns per team member from
    column 119 on, the counter of the script is the number of filled cells
    among them, and, for [n] at most 9, the completion percentage is the
    rounded percentage of that number out of the number of required
    columns, between 0 and 100. *)
Theorem completionPercent_rounded :
  (forall row : Row,
      let a := filledCount row (seq 66 50) in
      Founder.relevantIndices = seq 66 50
      /\ countFilledFields row Founder.relevantIndices = a
      /\ a <= 50
      /\ integerValue (Founder.completionPercent row)
         = Some (roundedPercent a 50)
      /\ roundedPercent a 50 = (2 * Z.of_nat a)%Z
      /\ (0 <= roundedPercent a 50 <= 100)%Z)
  /\ (forall (row : Row) (n : nat),
         loopCount (Legacy.numTeamMembers row) = Some n ->
         let a := filledCount row (requiredIndices n) in
         let t := List.length (requiredIndices n) in
         Legacy.allRelevantIndices row = Some (requiredIndices n)
         /\ Legacy.getFilledCount row (requiredIndices n) = a
         /\ t = 50 + 11 * n
         /\ a <= t
         /\ (0 <= roundedPercent a t <= 100)%Z
         /\ (n <= 9 ->
             exists p,
               Legacy.completionPercent row = Some p
               /\ integerValue p = Some (roundedPercent a t))).
Proof.
  split.
  - intros row a.
    assert (countFilledFields row Founder.relevantIndices = a) as Hcount
        by exact (countFilledFields_filled row (seq 66 50)).
    assert (a <= 50) as Ha.
    { rewrite <- Hcount.
      exact (countFilledFields_le row Founder.relevantIndices). }
    split; [reflexivity|]. split; [exact Hcount|]. split; [exact Ha|]. split.
    + unfold Founder.completionPercent. rewrite Hcount.
      change (List.length Founder.relevantIndices) with 50.
      apply percentAgrees_spec; [|exact Ha].
      apply (percentAgrees_small 0). lia.
    + split; [|apply roundedPercent_bounds; lia].
      unfold roundedPercent. change (Z.of_nat 50) with 50%Z.
      symmetry. apply Z.div_unique with (r := 50%Z); lia.
  - intros row n Hloop a t.
    assert (Legacy.allRelevantIndices row = Some (requiredIndices n)) as Hix.
    { unfold Legacy.allRelevantIndices. rewrite Hloop. f_equal.
      unfold requiredIndices. f_equal. apply (teamIndices_seq n 0). }
    assert (Legacy.getFilledCount row (requiredIndices n) = a) as Hcount
        by exact (getFilledCount_filled row (requiredIndices n)).
    assert (t = 50 + 11 * n) as Ht by exact (requiredIndices_length n).
    assert (a <= t) as Ha.
    { rewrite <- Hcount.
      exact (getFilledCount_le row (requiredIndices n)). }
    split; [exact Hix|]. split; [exact Hcount|]. split; [exact Ht|].
    split; [exact Ha|].
    split; [apply roundedPercent_bounds; lia|].
    intros Hn.
    unfold Legacy.completionPercent. rewrite Hix, Hcount. fold t.
    destruct (t =? 0) eqn:E; [apply Nat.eqb_eq in E; lia|].
    eexists. split; [reflexivity|].
    apply percentAgrees_spec; [|exact Ha].
    rewrite Ht. now apply percentAgrees_small.
Qed.

End CompletionFacts.

(* ================================================================== *)
(** ** Concrete runs *)

Section Concrete.
Import Sample.
Open Scope string_scope.

#[local] Existing Instance AsciiText.builtins.

(** The scenarios of the specification, on the founder path. *)
Example scenario_case_and_punctuation :
  normalizeText (Some (lit "Acme Co.")) = normalizeText (Some (lit "ACME CO"))
  /\ Founder.stepMatchedReferrals
       (Founder.processSingleFounder quietWriter tt
          (oneBucket "acme co" "ACME CO") (founderRow "Acme Co."))
     = [founderReferral "ACME CO"].
Proof. split; vm_compute; reflexivity. Qed.

Example scenario_one_character_typo :
  Levenshtein.distance (normalizeText (Some (lit "Acme Corp")))
                       (normalizeText (Some (lit "Acme Cor"))) = 1
  /\ Founder.stepMatchedReferrals
       (Founder.processSingleFounder quietWriter tt
          (oneBucket "acme cor" "Acme Cor") (founderRow "Acme Corp"))
     = [founderReferral "Acme Cor"].
Proof. split; vm_compute; reflexivity. Qed.


(** The mapping built from referral rows: one bucket per normalized name,
    numeric names first. *)
Example mapping_of_three_referrals :
  Founder.createReferralMapping
    [founderReferral "Beta Inc"; founderReferral "42"; founderReferral "BETA inc."]
  = Some [ (lit "42", Founder.mkBucket (lit "42") [founderReferral "42"]);
           (lit "beta inc",
            Founder.mkBucket (lit "Beta Inc")
              [founderReferral "Beta Inc"; founderReferral "BETA inc."]) ].
Proof. vm_compute. reflexivity. Qed.

(** A referral for a startup called "Constructor" makes
    [createReferralMapping] throw, and with it [processFounders]. *)
Example mapping_of_inherited_name :
  Founder.createReferralMapping [founderReferral "Constructor"] = None
  /\ Founder.processFounders quietWriter tt [founderRow "Acme"]
                             [founderReferral "Constructor"] = None.
Proof. split; vm_compute; reflexivity. Qed.

(** Two referrals for startups without a founder form stay in the mapping,
    under their display names. *)
Example scenario_unmatched_referrals :
  option_map (fun run => map (fun e => Founder.displayName (snd e))
                             (Founder.mapping run))
    (Founder.processFounders quietWriter tt [founderRow "Acme Corp"]
       [founderReferral "Beta Inc"; founderReferral "Gamma LLC"])
  = Some [lit "Beta Inc"; lit "Gamma LLC"].
Proof. vm_compute. reflexivity. Qed.

(** Two founder rows compete for one bucket: the first one gets it, the
    second finds nothing, and nothing is left unmatched. *)
Example claim_goes_to_first_row :
  let run := Founder.processFoundersFrom quietWriter tt
               (oneBucket "acme cor" "Acme Cor")
               [founderRow "Acme Corp"; founderRow "Acme Co"] in
  map (@Founder.stepMatchedReferrals unit) (Founder.steps run)
  = [[founderReferral "Acme Cor"]; []]
  /\ claimedKeys (Founder.steps run) = [lit "acme cor"]
  /\ Founder.mapping run = [].
Proof. vm_compute. repeat split. Qed.

(** C1: counterexample.  Two searcher forms under the same name and one
    referral for that name, all of them valid forms: the searcher loop
    keeps no index, and the referral row is attached to both searcher
    rows. *)
Lemma searcher_referral_attached_twice :
  let referral :=
    (rowWith 18 "Jo" ++ [None; None; None; Some (lit "Acme")])%list in
  let run := Searcher.processSearchers quietWriter tt
               [searcherRow "Acme"; searcherRow "Acme"] [referral] in
  Classifier.validateFormData (searcherRow "Acme") (lit "searcher") = true
  /\ Classifier.validateFormData referral (lit "searcher referral") = true
  /\ cell referral 22 = Some (lit "Acme")
  /\ map (@Searcher.stepRow unit) (Searcher.steps run)
     = [searcherRow "Acme"; searcherRow "Acme"]
  /\ map (@Searcher.stepMatchedReferrals unit) (Searcher.steps run)
     = [[referral]; [referral]].
Proof. vm_compute. repeat split. Qed.

(** C2: counterexample.  The request that creates the page of "Acme" is
    rejected: the error is caught and counted and the next row is
    processed, and the line printed for the error holds its message, not
    the name.  The same holds behind the retry wrapper, which does not
    retry the error and prints one more line with the message. *)
Lemma error_line_lacks_name :
  (let run := Founder.processFoundersFrom
                (FounderPages.writePage plainFormat (rejecting "Acme" silent))
                [] [] [founderRow "Acme"; founderRow "Beta"] in
   errors (Founder.results run) = 1
   /\ processed (Founder.results run) = 1
   /\ Founder.console run
      = [ Founder.logProcessing (lit "Acme");
          FounderPages.logSearching (lit "Acme");
          FounderPages.logNoPage (lit "Acme");
          FounderPages.logCreating (lit "Acme");
          Founder.logError rejection;
          Founder.logProcessing (lit "Beta");
          FounderPages.logSearching (lit "Beta");
          FounderPages.logNoPage (lit "Beta");
          FounderPages.logCreating (lit "Beta");
          FounderPages.logStructure (lit "page-Beta");
          FounderPages.logSections;
          FounderPages.logCompleted (lit "Beta") ])
  /\ (let run := Founder.processFoundersFrom
                   (FounderPages.writePage plainFormat
                      (rejecting "Acme" behindRetry))
                   [] [] [founderRow "Acme"; founderRow "Beta"] in
      errors (Founder.results run) = 1
      /\ processed (Founder.results run) = 1
      /\ Founder.console run
         = [ Founder.logProcessing (lit "Acme");
             FounderPages.logSearching (lit "Acme");
             FounderPages.logNoPage (lit "Acme");
             FounderPages.logCreating (lit "Acme");
             FounderPages.logFailed 1 rejection;
             Founder.logError rejection;
             Founder.logProcessing (lit "Beta");
             FounderPages.logSearching (lit "Beta");
             FounderPages.logNoPage (lit "Beta");
             FounderPages.logCreating (lit "Beta");
             FounderPages.logStructure (lit "page-Beta");
             FounderPages.logSections;
             FounderPages.logCompleted (lit "Beta") ])
  /\ NotionService.isRetryableError validationError = false
  /\ NotionService.attempts
       (NotionService.withRetry
          (fun w : unit => (w, @inl NotionService.Error unit validationError))
          NotionService.RETRY_ATTEMPTS NotionService.BASE_DELAY tt)
     = [inl validationError]
  /\ NotionService.message validationError = Some rejection
  /\ Founder.logError rejection
     = ([0x274C]%N
        ++ lit " Error processing founder: body failed validation")%list
  /\ FounderPages.logFailed 1 rejection
     = ([0x274C]%N ++ lit " Notion operation failed after 1 attempts: "
        ++ lit "body failed validation")%list
  /\ includes (lit "Acme") (Founder.logError rejection) = false
  /\ includes (lit "Acme") (FounderPages.logFailed 1 rejection) = false.
Proof. vm_compute. repeat split. Qed.

(** C3: counterexample.  A complete founder row named "??" has the empty
    normalized name, at distance 2 from the key "ab", and gets no referral;
    a searcher named "Acme Corp" does not get the referral for "Acme Cor",
    at distance 1. *)
Lemma fuzzy_match_missed :
  (Classifier.validateFormData (founderRow "??") (lit "founder") = true
   /\ In (lit "ab") (Founder.keys (oneBucket "ab" "AB"))
   /\ Levenshtein.distance
        (normalizeText (Some (trim (orEmpty (cell (founderRow "??") 73)))))
        (lit "ab") = 2
   /\ Founder.stepMatchedReferrals
        (Founder.processSingleFounder quietWriter tt (oneBucket "ab" "AB")
           (founderRow "??")) = []
   /\ Founder.stepIndex
        (Founder.processSingleFounder quietWriter tt (oneBucket "ab" "AB")
           (founderRow "??")) = oneBucket "ab" "AB")
  /\ (Classifier.validateFormData (searcherRow "Acme Corp") (lit "searcher")
      = true
      /\ Levenshtein.distance (normalizeText (Some (lit "Acme Corp")))
                              (normalizeText (Some (lit "Acme Cor"))) = 1
      /\ Searcher.stepMatchedReferrals
           (Searcher.processSingleSearcher quietWriter tt
              [searcherReferral "Acme Cor"] [] (searcherRow "Acme Corp"))
         = []).
Proof. vm_compute. repeat split. now left. Qed.

(** C3: the amended statement at a founder row one edit away from a key. *)
Lemma reconciliation_matching_witness :
  exists k b,
    firstLeast
      (Levenshtein.distance
         (normalizeText
            (Some (trim (orEmpty (cell (founderRow "Acme Corp") 73))))))
      (Founder.keys (oneBucket "acme cor" "Acme Cor")) k
    /\ Levenshtein.distance
         (normalizeText
            (Some (trim (orEmpty (cell (founderRow "Acme Corp") 73))))) k
       <= 2
    /\ Founder.lookup (oneBucket "acme cor" "Acme Cor") k = Some b
    /\ Founder.stepMatchedKey
         (Founder.processSingleFounder quietWriter tt
            (oneBucket "acme cor" "Acme Cor") (founderRow "Acme Corp"))
       = Some k
    /\ Founder.stepMatchedReferrals
         (Founder.processSingleFounder quietWriter tt
            (oneBucket "acme cor" "Acme Cor") (founderRow "Acme Corp"))
       = Founder.referrals b.
Proof.
  apply (proj1 (reconciliation_matching unit quietWriter) tt
               (oneBucket "acme cor" "Acme Cor") (founderRow "Acme Corp")).
  - vm_compute. discriminate.
  - repeat constructor; try (vm_compute; reflexivity).
    vm_compute. discriminate.
  - exists (lit "acme cor"). split; [now left|].
    vm_compute. repeat constructor.
Defined.

(** C4: counterexample.  The empty string is a normalized key, the key "ab"
    is at distance 2 from it, and [findBestMatch] returns [null]. *)
Lemma findBestMatch_empty_target :
  normalized []
  /\ normalized (lit "ab")
  /\ Levenshtein.distance [] (lit "ab") = 2
  /\ findBestMatch [] [lit "ab"] defaultMaxDistance = None
  /\ ~ bestMatchContract [] [lit "ab"] defaultMaxDistance
         (findBestMatch [] [lit "ab"] defaultMaxDistance).
Proof.
  repeat split; try (vm_compute; reflexivity).
  intros H. change (findBestMatch [] [lit "ab"] defaultMaxDistance)
    with (@None jsstring) in H.
  specialize (H (lit "ab") (or_introl eq_refl)).
  vm_compute in H. discriminate.
Qed.

(** C4: the amended statement on three keys. *)
Lemma findBestMatch_contract_witness :
  bestMatchContract (lit "acme corp")
    (filter truthy [lit "beta"; lit "acme cor"; lit "acme corp"])
    defaultMaxDistance
    (findBestMatch (lit "acme corp")
                   [lit "beta"; lit "acme cor"; lit "acme corp"]
                   defaultMaxDistance).
Proof.
  apply findBestMatch_contract.
  - vm_compute. discriminate.
  - split; vm_compute; reflexivity.
  - repeat constructor; vm_compute; reflexivity.
Defined.

(** C5: counterexample.  The empty key occurs verbatim among the
    candidates and is not returned. *)
Lemma findBestMatch_empty_self :
  In ([] : jsstring) [[]]
  /\ findBestMatch [] [[]] defaultMaxDistance = None
  /\ findBestMatch [] [[]] defaultMaxDistance <> Some [].
Proof.
  split; [now left|]. split; [reflexivity|discriminate].
Qed.

(** C5: the amended statement at the key "acme corp". *)
Lemma findBestMatch_verbatim_witness :
  (forall candidates, In (lit "acme corp") candidates ->
     exists r,
       findBestMatch (lit "acme corp") candidates defaultMaxDistance = Some r
       /\ In r candidates
       /\ Levenshtein.distance (normalizeText (Some (lit "acme corp")))
                               (normalizeText (Some r)) = 0
       /\ (normalized (lit "acme corp") -> normalized r ->
           r = lit "acme corp"))
  /\ findBestMatch (lit "acme corp") [lit "acme corp"] defaultMaxDistance
     = Some (lit "acme corp").
Proof.
  apply findBestMatch_verbatim. vm_compute. discriminate.
Defined.

(** C6: counterexample.  A founder row with the fixed columns filled that
    declares one team member and leaves that member's columns empty: over
    the extended list 50 of 61 cells are filled and the percentage is 82,
    the founder processor reports 100.  And in the monolithic script, with
    ten declared team members and 92 of the 160 required cells filled, the
    exact percentage 57.5 rounds to 58 while the script reports 57. *)
Lemma completionPercent_diverges :
  (loopCount (Legacy.numTeamMembers (founderWithTeam "1" 0)) = Some 1
   /\ filledCount (founderWithTeam "1" 0) (requiredIndices 1) = 50
   /\ List.length (requiredIndices 1) = 61
   /\ roundedPercent
        (Legacy.getFilledCount (founderWithTeam "1" 0) (requiredIndices 1))
        (List.length (requiredIndices 1)) = 82%Z
   /\ integerValue (Founder.completionPercent (founderWithTeam "1" 0))
      = Some 100%Z)
  /\ (loopCount (Legacy.numTeamMembers (founderWithTeam "10" 42)) = Some 10
      /\ Legacy.allRelevantIndices (founderWithTeam "10" 42)
         = Some (requiredIndices 10)
      /\ filledCount (founderWithTeam "10" 42) (requiredIndices 10) = 92
      /\ Legacy.getFilledCount (founderWithTeam "10" 42) (requiredIndices 10)
         = 92
      /\ List.length (requiredIndices 10) = 160
      /\ roundedPercent 92 160 = 58%Z
      /\ option_map integerValue
           (Legacy.completionPercent (founderWithTeam "10" 42))
         = Some (Some 57%Z)).
Proof. vm_compute. repeat split. Qed.

(** C6: the amended statement at a row that declares one team member and
    fills five of that member's columns. *)
Lemma completionPercent_rounded_witness :
  let row := founderWithTeam "1" 5 in
  let a := filledCount row (requiredIndices 1) in
  let t := List.length (requiredIndices 1) in
  Legacy.allRelevantIndices row = Some (requiredIndices 1)
  /\ Legacy.getFilledCount row (requiredIndices 1) = a
  /\ t = 50 + 11 * 1
  /\ a <= t
  /\ (0 <= roundedPercent a t <= 100)%Z
  /\ (1 <= 9 ->
      exists p,
        Legacy.completionPercent row = Some p
        /\ integerValue p = Some (roundedPercent a t)).
Proof.
  apply (proj2 completionPercent_rounded (founderWithTeam "1" 5) 1).
  vm_compute. reflexivity.
Defined.

(** C10: at the failing input.  An intent cell that reads "Constructor" is
    not in the vocabulary; the lookup finds the property [constructor]
    inherited from [Object.prototype], and [classifyFormType] returns that
    value instead of the string "unknown". *)
Theorem classifyFormType_constructor :
  Classifier.ownProperty Classifier.FORM_TYPE_MAPPINGS (lit "constructor")
  = None
  /\ Classifier.classifyFormType (Classifier.IsArray (rowWith 3 "Constructor"))
     = Classifier.VInherited (lit "constructor")
  /\ Classifier.classifyFormType (Classifier.IsArray (rowWith 3 "Constructor"))
     <> Classifier.unknown
  /\ category (Classifier.classifyFormType
                 (Classifier.IsArray (rowWith 3 "Constructor")))
     = UnknownForm.
Proof.
  repeat split; try (vm_compute; reflexivity).
  vm_compute. discriminate.
Qed.

End Concrete.

(* ################################################################## *)
(** * Part III: further properties *)

Import Vocabulary.

(* ================================================================== *)
(** ** Comma-separated lists *)

Lemma In_trimStart (c : N) (s : jsstring) : In c (trimStart s) -> In c s.
Proof.
  induction s as [|d s IH]; simpl; [tauto|].
  destruct (isWhiteSpace d); [intros H; right; now apply IH|tauto].
Qed.

Lemma In_trimEnd (c : N) (s : jsstring) : In c (trimEnd s) -> In c s.
Proof.
  induction s as [|d s IH]; [simpl; tauto|].
  change (trimEnd (d :: s))
    with (match trimEnd s with
          | [] => if isWhiteSpace d then [] else [d]
          | t => d :: t
          end).
  destruct (trimEnd s) as [|e t].
  - destruct (isWhiteSpace d); simpl; [tauto|]. intros [<-|[]]. now left.
  - intros [<-|H]; [now left|right; now apply IH].
Qed.

Lemma In_trim (c : N) (s : jsstring) : In c (trim s) -> In c s.
Proof. intros H. now apply In_trimStart, In_trimEnd. Qed.

(** The segments of [splitOn] do not hold the separator, and there is at
    least one. *)
Lemma splitOn_segments (sep : N) (s : jsstring) :
  Validation.splitOn sep s <> []
  /\ Forall (fun segment => ~ In sep segment) (Validation.splitOn sep s).
Proof.
  induction s as [|c s [IHne IH]]; simpl.
  - split; [discriminate|]. repeat constructor. intros [].
  - destruct (c =? sep)%N eqn:E.
    + split; [discriminate|]. constructor; [intros []|exact IH].
    + apply N.eqb_neq in E.
      destruct (Validation.splitOn sep s) as [|segment segments];
        [contradiction|].
      split; [discriminate|].
      inversion IH as [|? ? Hseg Hrest]; subst. constructor; [|exact Hrest].
      intros [H|H]; [congruence|contradiction].
Qed.

Lemma splitOn_plain (sep : N) (s : jsstring) :
  ~ In sep s -> Validation.splitOn sep s = [s].
Proof.
  induction s as [|c s IH]; simpl; [reflexivity|].
  intros H. destruct (c =? sep)%N eqn:E.
  - apply N.eqb_eq in E. exfalso. apply H. now left.
  - rewrite IH; [reflexivity|]. intros Hin. apply H. now right.
Qed.

Lemma splitOn_app (sep : N) (s t : jsstring) :
  ~ In sep s ->
  Validation.splitOn sep (s ++ sep :: t) = s :: Validation.splitOn sep t.
Proof.
  induction s as [|c s IH]; simpl; intros H.
  - now rewrite N.eqb_refl.
  - destruct (c =? sep)%N eqn:E.
    + apply N.eqb_eq in E. exfalso. apply H. now left.
    + rewrite IH; [reflexivity|]. intros Hin. apply H. now right.
Qed.

Lemma splitOn_join (sep : N) (items : list jsstring) :
  items <> [] ->
  Forall (fun item => ~ In sep item) items ->
  Validation.splitOn sep (Validation.join [sep] items) = items.
Proof.
  induction items as [|item rest IH]; [congruence|].
  intros _ H. inversion H as [|? ? Hitem Hrest]; subst.
  destruct rest as [|item' rest'].
  - simpl. now apply splitOn_plain.
  - change (Validation.join [sep] (item :: item' :: rest'))
      with (item ++ sep :: Validation.join [sep] (item' :: rest')).
    rewrite splitOn_app by exact Hitem.
    f_equal. apply IH; [discriminate|exact Hrest].
Qed.

Lemma parsed_item (csvString : option jsstring) (item : jsstring) :
  In item (Validation.parseCommaSeparatedList csvString) ->
  item <> [] /\ trim item = item /\ ~ In 44%N item.
Proof.
  unfold Validation.parseCommaSeparatedList.
  destruct (otruthy csvString); [|intros []].
  intros H. apply filter_In in H. destruct H as [Hin Hlen].
  apply in_map_iff in Hin. destruct Hin as (segment & <- & Hseg).
  split; [|split].
  - intros E. rewrite E in Hlen. discriminate.
  - apply trim_idempotent.
  - intros Hc. apply In_trim in Hc.
    destruct (splitOn_segments 44 (orEmpty csvString)) as [_ Hall].
    rewrite Forall_forall in Hall. exact (Hall segment Hseg Hc).
Qed.

(** X1. Every item [parseCommaSeparatedList] returns is non-empty, is
    trimmed, and holds no comma; an absent or empty cell gives no item. *)
Theorem parseCommaSeparatedList_items (csvString : option jsstring) :
  Forall (fun item => item <> [] /\ trim item = item /\ ~ In 44%N item)
         (Validation.parseCommaSeparatedList csvString)
  /\ (otruthy csvString = false ->
      Validation.parseCommaSeparatedList csvString = []).
Proof.
  split.
  - rewrite Forall_forall. intros item. apply parsed_item.
  - unfold Validation.parseCommaSeparatedList. now intros ->.
Qed.

(** X2. Joining with commas and parsing again gives the items back, for
    items that are non-empty, trimmed and free of commas. *)
Theorem parseCommaSeparatedList_join (items : list jsstring) :
  Forall (fun item => item <> [] /\ trim item = item /\ ~ In 44%N item)
         items ->
  Validation.parseCommaSeparatedList (Some (Validation.join [44%N] items))
  = items.
Proof.
  intros H. unfold Validation.parseCommaSeparatedList.
  destruct items as [|item rest]; [reflexivity|].
  assert (otruthy (Some (Validation.join [44%N] (item :: rest))) = true)
    as ->.
  { inversion H as [|? ? (Hne & _) _]; subst.
    destruct item as [|c item]; [contradiction|].
    destruct rest; reflexivity. }
  cbn [orEmpty]. rewrite splitOn_join.
  - clear - H. induction H as [|x l (Hne & Ht & _) _ IH]; [reflexivity|].
    cbn [map filter]. rewrite Ht.
    destruct x as [|c x]; [contradiction|]. cbn. f_equal. exact IH.
  - discriminate.
  - eapply Forall_impl; [|exact H]. cbv beta. tauto.
Qed.

Lemma parseCommaSeparatedList_join_witness :
  Validation.parseCommaSeparatedList
    (Some (Validation.join [44%N] [lit "Hiring"; lit "Go to market"]))
  = [lit "Hiring"; lit "Go to market"].
Proof.
  apply parseCommaSeparatedList_join.
  repeat constructor; try discriminate; try (vm_compute; reflexivity);
    vm_compute; intuition discriminate.
Defined.

(* ================================================================== *)
(** ** Priority properties of a founder page *)

Lemma skipn_nth_error {A : Type} (l : list A) (k : nat) :
  skipn k l = match nth_error l k with
              | Some x => x :: skipn (S k) l
              | None => []
              end.
Proof.
  revert k. induction l as [|a l IH]; intros [|k]; simpl; try reflexivity.
  apply IH.
Qed.

Lemma priority_entries_from (ranking : list jsstring) (n : nat) :
  Forall (fun item => item <> []) ranking ->
  forall k,
    flat_map (fun i =>
                match nth_error ranking i with
                | Some item =>
                    if truthy item
                    then [(FounderProperties.priorityName i, item)] else []
                | None => []
                end)
             (seq k n)
    = combine (map FounderProperties.priorityName (seq k n))
              (skipn k ranking).
Proof.
  intros Hall. induction n as [|n IH]; intros k; [reflexivity|].
  cbn [seq flat_map map]. rewrite IH, (skipn_nth_error ranking k).
  destruct (nth_error ranking k) as [item|] eqn:E.
  - rewrite Forall_forall in Hall.
    pose proof (Hall item (nth_error_In _ _ E)) as Hne.
    destruct item; [contradiction|]. reflexivity.
  - cbn [app combine]. rewrite (skipn_all2 ranking).
    + now destruct (map _ _).
    + apply nth_error_None in E. lia.
Qed.

(** X3. The priority properties of a founder page are the first six items
    of the comma-separated list in column 104, named "1. Priority (18
    months)" to "6. Priority (18 months)" in their order; the list is read
    only when column 105 is non-empty. *)
Theorem priorityEntries_ranked (founderRow : Row) :
  FounderProperties.priorityEntries founderRow
  = combine (map FounderProperties.priorityName (seq 0 6))
            (if otruthy (cell founderRow 105)
             then Validation.parseCommaSeparatedList (cell founderRow 104)
             else []).
Proof.
  unfold FounderProperties.priorityEntries.
  rewrite priority_entries_from; [reflexivity|].
  unfold FounderProperties.priorityRanking.
  destruct (otruthy (cell founderRow 105)); [|constructor].
  rewrite Forall_forall. intros item Hin.
  now apply (parsed_item (cell founderRow 104)).
Qed.

(* ================================================================== *)
(** ** Availability options *)

Lemma startsWith_app (a b s : jsstring) :
  startsWith (a ++ b) s = true -> startsWith a s = true.
Proof.
  revert s. induction a as [|x a IH]; intros s; [now destruct s|].
  destruct s as [|y s]; simpl; [discriminate|].
  intros H. apply andb_true_iff in H. destruct H as [-> H].
  now apply IH.
Qed.

(** A string that includes [a ++ b] includes [a]. *)
Lemma includes_app (a b s : jsstring) :
  includes (a ++ b) s = true -> includes a s = true.
Proof.
  induction s as [|y s IH].
  - simpl. rewrite !orb_false_r. apply startsWith_app.
  - cbn [includes]. intros H. apply orb_true_iff in H.
    apply orb_true_iff. destruct H as [H|H].
    + left. exact (startsWith_app a b _ H).
    + right. now apply IH.
Qed.

Section AvailabilityFacts.
Context {B : Builtins}.

(** [toLowerCase] on the six options: the ASCII capitals become small
    letters, the other characters stay. *)
Hypothesis toLowerCase_options :
  forall option, In option Validation.AVAILABILITY_OPTIONS ->
                 toLowerCase option = AsciiText.lower option.

(** The loop of [mapAvailabilityOption] as a decision list on the
    lower-cased answer. *)
Lemma mapAvailabilityOption_cases (rawAnswer : option jsstring) :
  let answer := toLowerCase (orEmpty rawAnswer) in
  Validation.mapAvailabilityOption rawAnswer
  = if otruthy rawAnswer then
      if includes (lit "morning") answer || includes (lit "morning") answer
      then Some Validation.morning
      else if includes (lit "early") answer
              || includes (lit "early afternoon") answer
      then Some Validation.earlyAfternoon
      else if includes (lit "late") answer
              || includes (lit "late afternoon") answer
      then Some Validation.lateAfternoon
      else if includes (lit "evening") answer
              || includes (lit "evening") answer
      then Some Validation.evening
      else if includes (lit "late") answer
              || includes (lit "late evening") answer
      then Some Validation.lateEvening
      else if includes (lit "i'm") answer
              || includes (lit "i'm flexible / decide with the group") answer
      then Some Validation.flexible
      else if includes (lit "flex") answer then Some Validation.flexible
      else None
    else None.
Proof.
  intros answer. unfold Validation.mapAvailabilityOption. fold answer.
  destruct (otruthy rawAnswer); [|reflexivity].
  unfold Validation.AVAILABILITY_OPTIONS. cbn [find].
  unfold Validation.optionMatches.
  rewrite !toLowerCase_options
    by (unfold Validation.AVAILABILITY_OPTIONS; simpl; tauto).
  replace (Validation.beforeFirst (lit " (")
             (AsciiText.lower Validation.morning))
    with (lit "morning") by (vm_compute; reflexivity).
  replace (Validation.beforeFirst (lit " ") (lit "morning"))
    with (lit "morning") by (vm_compute; reflexivity).
  replace (Validation.beforeFirst (lit " (")
             (AsciiText.lower Validation.earlyAfternoon))
    with (lit "early afternoon") by (vm_compute; reflexivity).
  replace (Validation.beforeFirst (lit " ") (lit "early afternoon"))
    with (lit "early") by (vm_compute; reflexivity).
  replace (Validation.beforeFirst (lit " (")
             (AsciiText.lower Validation.lateAfternoon))
    with (lit "late afternoon") by (vm_compute; reflexivity).
  replace (Validation.beforeFirst (lit " ") (lit "late afternoon"))
    with (lit "late") by (vm_compute; reflexivity).
  replace (Validation.beforeFirst (lit " (")
             (AsciiText.lower Validation.evening))
    with (lit "evening") by (vm_compute; reflexivity).
  replace (Validation.beforeFirst (lit " ") (lit "evening"))
    with (lit "evening") by (vm_compute; reflexivity).
  replace (Validation.beforeFirst (lit " (")
             (AsciiText.lower Validation.lateEvening))
    with (lit "late evening") by (vm_compute; reflexivity).
  replace (Validation.beforeFirst (lit " ") (lit "late evening"))
    with (lit "late") by (vm_compute; reflexivity).
  replace (Validation.beforeFirst (lit " (")
             (AsciiText.lower Validation.flexible))
    with (lit "i'm flexible / decide with the group")
    by (vm_compute; reflexivity).
  replace (Validation.beforeFirst (lit " ")
             (lit "i'm flexible / decide with the group"))
    with (lit "i'm") by (vm_compute; reflexivity).
  repeat match goal with
         | |- context [if ?b then _ else _] => destruct b; try reflexivity
         end.
Qed.

(** X4. [mapAvailabilityOption] never returns the option "Late evening
    (21:00-23:00)": whatever the answer, the result is one of the five other
    options or nothing.  An answer that mentions "late", and neither
    "morning" nor "early", is mapped to "Late afternoon (15:00-18:00)". *)
Theorem mapAvailabilityOption_never_late_evening
  (rawAnswer : option jsstring) :
  let answer := toLowerCase (orEmpty rawAnswer) in
  match Validation.mapAvailabilityOption rawAnswer with
  | Some option =>
      In option [ Validation.morning; Validation.earlyAfternoon;
                  Validation.lateAfternoon; Validation.evening;
                  Validation.flexible ]
  | None => True
  end
  /\ Validation.mapAvailabilityOption rawAnswer
     <> Some Validation.lateEvening
  /\ (otruthy rawAnswer = true ->
      includes (lit "late") answer = true ->
      includes (lit "morning") answer = false ->
      includes (lit "early") answer = false ->
      Validation.mapAvailabilityOption rawAnswer
      = Some Validation.lateAfternoon).
Proof.
  intros answer.
  rewrite (mapAvailabilityOption_cases rawAnswer). fold answer.
  assert (includes (lit "late evening") answer = true ->
          includes (lit "late") answer = true) as Hlate
    by apply (includes_app (lit "late") (lit " evening")).
  assert (includes (lit "early afternoon") answer = true ->
          includes (lit "early") answer = true) as Hearly
    by apply (includes_app (lit "early") (lit " afternoon")).
  destruct (otruthy rawAnswer);
    [|split; [exact I|split; [discriminate|discriminate]]].
  destruct (includes (lit "morning") answer);
    [cbn; split; [tauto|split; [discriminate|discriminate]]|].
  destruct (includes (lit "early") answer);
    [cbn; split; [tauto|split; [discriminate|discriminate]]|].
  destruct (includes (lit "early afternoon") answer);
    [now specialize (Hearly eq_refl)|].
  destruct (includes (lit "late") answer);
    [cbn; split; [tauto|split; [discriminate|reflexivity]]|].
  destruct (includes (lit "late evening") answer);
    [now specialize (Hlate eq_refl)|].
  cbn [orb].
  repeat match goal with
         | |- context [if ?b then _ else _] => destruct b
         end; (split; [cbn; tauto|split; discriminate]).
Qed.

End AvailabilityFacts.

Lemma mapAvailabilityOption_never_late_evening_witness :
  let B := AsciiText.builtins in
  let rawAnswer := Some (lit "Late evening (21:00-23:00)") in
  let answer := toLowerCase (orEmpty rawAnswer) in
  match Validation.mapAvailabilityOption rawAnswer with
  | Some option =>
      In option [ Validation.morning; Validation.earlyAfternoon;
                  Validation.lateAfternoon; Validation.evening;
                  Validation.flexible ]
  | None => True
  end
  /\ Validation.mapAvailabilityOption rawAnswer
     <> Some Validation.lateEvening
  /\ (otruthy rawAnswer = true ->
      includes (lit "late") answer = true ->
      includes (lit "morning") answer = false ->
      includes (lit "early") answer = false ->
      Validation.mapAvailabilityOption rawAnswer
      = Some Validation.lateAfternoon).
Proof.
  apply (@mapAvailabilityOption_never_late_evening AsciiText.builtins).
  intros option _. reflexivity.
Defined.

(* ================================================================== *)
(** ** Retrying Notion requests *)

Lemma totalDelay_geometric (baseDelay start : Z) (n : nat) :
  (0 <= start)%Z ->
  totalDelay (map (fun k => baseDelay * 2 ^ (start + Z.of_nat k))%Z
                  (seq 0 n))
  = (baseDelay * 2 ^ start * (2 ^ Z.of_nat n - 1))%Z.
Proof.
  intros Hs. induction n as [|n IH].
  - simpl. ring.
  - rewrite seq_S, map_app. unfold totalDelay in *.
    rewrite fold_right_app. cbn [map fold_right seq Nat.add].
    replace (fold_right Z.add
               (baseDelay * 2 ^ (start + Z.of_nat n) + 0)%Z
               (map (fun k => (baseDelay * 2 ^ (start + Z.of_nat k))%Z)
                    (seq 0 n)))
      with (fold_right Z.add 0%Z
              (map (fun k => (baseDelay * 2 ^ (start + Z.of_nat k))%Z)
                   (seq 0 n))
            + baseDelay * 2 ^ (start + Z.of_nat n))%Z.
    + rewrite IH. rewrite Nat2Z.inj_succ, Z.pow_succ_r by lia.
      rewrite Z.pow_add_r by lia. ring.
    + generalize (map (fun k => (baseDelay * 2 ^ (start + Z.of_nat k))%Z)
                      (seq 0 n)) as l.
      induction l as [|x l IHl]; simpl; [ring|]. rewrite <- IHl. ring.
Qed.

Section RetryFacts.
Context {B : Builtins}.
Variables World Result : Type.
Variable operation : World -> World * (NotionService.Error + Result).


(** The loop, from any attempt on: the number of calls of the operation is
    at most the number of iterations left; every call but the last failed
    with a retryable error, and was followed by a delay that doubles from
    one attempt to the next; the loop ends with the result of the last
    call, or with its error when that error is not retryable or the
    attempt is the last one. *)
Lemma retryFrom_spec (maxAttempts baseDelay : Z) :
  forall (remaining : nat) (attempt : Z) (lastError : option NotionService.Error)
         (w : World),
    (1 <= attempt)%Z ->
    (Z.of_nat remaining = maxAttempts - attempt + 1)%Z ->
    0 < remaining ->
    let r := NotionService.retryFrom operation remaining attempt maxAttempts baseDelay lastError w in
    let n := List.length (NotionService.attempts r) in
    0 < n <= remaining
    /\ NotionService.delays r
       = map (fun k => baseDelay * 2 ^ (attempt - 1 + Z.of_nat k))%Z
             (seq 0 (n - 1))
    /\ exists failures last,
         NotionService.attempts r = map inl failures ++ [last]
         /\ Forall (fun e => NotionService.isRetryableError e = true) failures
         /\ match last with
            | inr result => NotionService.outcome r = NotionService.Resolved result
            | inl error =>
                NotionService.outcome r = NotionService.Rejected Result error
                /\ (NotionService.isRetryableError error = false
                    \/ Z.of_nat n = maxAttempts - attempt + 1)%Z
            end.
Proof.
  induction remaining as [|remaining IH];
    intros attempt lastError w Hattempt Hrem Hpos; [lia|].
  cbn [NotionService.retryFrom].
  destruct (operation w) as [w' [error|result]].
  - destruct (NotionService.isRetryableError error) eqn:Er; cbn [negb orb].
    + destruct (attempt =? maxAttempts)%Z eqn:Ea.
      * apply Z.eqb_eq in Ea. cbn. split; [lia|]. split; [reflexivity|].
        exists [], (inl error). cbn.
        split; [reflexivity|]. split; [constructor|].
        split; [reflexivity|]. right. lia.
      * apply Z.eqb_neq in Ea.
        assert (0 < remaining) as Hpos' by lia.
        specialize (IH (attempt + 1)%Z (Some error) w' ltac:(lia) ltac:(lia)
                       Hpos').
        cbv zeta in IH.
        destruct IH as (Hn & Hd & failures & last & Ha & Hf & Hlast).
        cbn [NotionService.attempts NotionService.delays
             NotionService.outcome List.length].
        set (r := NotionService.retryFrom operation remaining (attempt + 1)%Z maxAttempts baseDelay
                            (Some error) w') in *.
        set (n := List.length (NotionService.attempts r)) in *.
        split; [lia|]. split.
        -- replace (S n - 1) with (S (n - 1)) by lia.
           cbn [seq map]. f_equal.
           ++ f_equal. f_equal. lia.
           ++ rewrite <- seq_shift, map_map, Hd. apply map_ext.
              intros k. f_equal. f_equal. lia.
        -- exists (error :: failures), last. split; [now rewrite Ha|].
           split; [now constructor|].
           destruct last as [e|x]; [|exact Hlast].
           destruct Hlast as [Ho Hor]. split; [exact Ho|].
           destruct Hor as [Hor|Hor]; [now left|right; lia].
    + cbn. split; [lia|]. split; [reflexivity|].
      exists [], (inl error). cbn.
      split; [reflexivity|]. split; [constructor|].
      split; [reflexivity|]. now left.
  - cbn. split; [lia|]. split; [reflexivity|].
    exists [], (inr result). cbn.
    split; [reflexivity|]. split; [constructor|reflexivity].
Qed.

(** X5. [withRetry] calls the operation at most [maxAttempts] times and
    sleeps between two calls only: before the attempt [k + 1] it waits
    [baseDelay * 2^(k-1)] milliseconds, so that a call that made [n]
    attempts has waited [baseDelay * (2^(n-1) - 1)] in all; with the
    settings of the Notion client (7 attempts, 600 ms) this is at most
    37800 ms. *)
Theorem withRetry_backoff (maxAttempts baseDelay : Z) (w : World) :
  let r := NotionService.withRetry operation maxAttempts baseDelay w in
  let n := List.length (NotionService.attempts r) in
  (Z.of_nat n <= Z.max 0 maxAttempts)%Z
  /\ NotionService.delays r = backoff baseDelay n
  /\ totalDelay (NotionService.delays r)
     = (baseDelay * (2 ^ Z.of_nat (n - 1) - 1))%Z
  /\ (maxAttempts = NotionService.RETRY_ATTEMPTS ->
      baseDelay = NotionService.BASE_DELAY ->
      n <= 7 /\ (0 <= totalDelay (NotionService.delays r) <= 37800)%Z).
Proof.
  intros r n.
  assert ((Z.of_nat n <= Z.max 0 maxAttempts)%Z
          /\ NotionService.delays r = backoff baseDelay n) as [Hn Hd].
  { subst n r. unfold NotionService.withRetry.
    destruct (Z.to_nat maxAttempts) as [|remaining] eqn:E.
    - cbn. split; [lia|reflexivity].
    - destruct (retryFrom_spec maxAttempts baseDelay (S remaining) 1 None w
                  ltac:(lia) ltac:(lia) ltac:(lia)) as (Hn & Hd & _).
      split; [lia|]. rewrite Hd. unfold backoff. apply map_ext.
      intros k. f_equal. }
  assert (totalDelay (NotionService.delays r)
          = (baseDelay * (2 ^ Z.of_nat (n - 1) - 1))%Z) as Ht.
  { rewrite Hd. unfold backoff.
    rewrite (map_ext _ (fun k => baseDelay * 2 ^ (0 + Z.of_nat k))%Z)
      by reflexivity.
    rewrite totalDelay_geometric by lia. ring. }
  split; [exact Hn|]. split; [exact Hd|]. split; [exact Ht|].
  intros -> ->. unfold NotionService.RETRY_ATTEMPTS in Hn.
  split; [lia|]. rewrite Ht. unfold NotionService.BASE_DELAY.
  assert (n - 1 <= 6) as Hle by lia.
  assert (1 <= 2 ^ Z.of_nat (n - 1) <= 2 ^ 6)%Z as Hpow.
  { split; [apply (Z.pow_le_mono_r 2 0); lia
           |apply Z.pow_le_mono_r; lia]. }
  change (2 ^ 6)%Z with 64%Z in Hpow. lia.
Qed.

(** X6. [withRetry] retries retryable errors only: every call of the
    operation but the last failed with a retryable error; it returns the
    result of the first call that succeeds, and throws the error of the
    last call when that error is not retryable or [maxAttempts] calls were
    made.  The statement after the loop is reached only when [maxAttempts]
    is below 1: the operation is then never called and [undefined] is
    thrown. *)
Theorem withRetry_outcome (maxAttempts baseDelay : Z) (w : World) :
  let r := NotionService.withRetry operation maxAttempts baseDelay w in
  match NotionService.outcome r with
  | NotionService.Resolved result =>
      exists failures,
        NotionService.attempts r = map inl failures ++ [inr result]
        /\ Forall (fun e => NotionService.isRetryableError e = true) failures
  | NotionService.Rejected _ error =>
      exists failures,
        NotionService.attempts r = map inl failures ++ [inl error]
        /\ Forall (fun e => NotionService.isRetryableError e = true) failures
        /\ (NotionService.isRetryableError error = false
            \/ Z.of_nat (List.length (NotionService.attempts r))
               = maxAttempts)
  | NotionService.RejectedUndefined _ =>
      (maxAttempts < 1)%Z
      /\ NotionService.attempts r = []
      /\ NotionService.world r = w
  end.
Proof.
  intros r. subst r. unfold NotionService.withRetry.
  destruct (Z.to_nat maxAttempts) as [|remaining] eqn:E.
  - cbn. repeat split. lia.
  - destruct (retryFrom_spec maxAttempts baseDelay (S remaining) 1 None w
                ltac:(lia) ltac:(lia) ltac:(lia))
      as (Hn & _ & failures & last & Ha & Hf & Hlast).
    destruct last as [error|result].
    + destruct Hlast as [-> Hor]. exists failures.
      split; [exact Ha|]. split; [exact Hf|].
      destruct Hor as [Hor|Hor]; [now left|right; lia].
    + rewrite Hlast. exists failures. now split.
Qed.

(** X7. On an error that carries a truthy [code], [isRetryableError] reads
    that code and the message only: the [status], the [name] and the code
    of the cause are not looked at.  So when the code is none of the
    retried codes and the message holds neither "fetch failed" nor
    "terminated", [withRetry] throws the error after the first call,
    without waiting, even if the status of the error is 429 or 503. *)
Theorem withRetry_code_before_status (maxAttempts baseDelay : Z) (w w' : World)
  (error : NotionService.Error) :
  NotionService.jtruthy (NotionService.code error) = true ->
  retryableCode (NotionService.code error) = false ->
  includes (lit "fetch failed")
           (toLowerCase (orEmpty (NotionService.message error))) = false ->
  includes (lit "terminated")
           (toLowerCase (orEmpty (NotionService.message error))) = false ->
  operation w = (w', inl error) ->
  (1 <= maxAttempts)%Z ->
  NotionService.isRetryableError error = false
  /\ NotionService.withRetry operation maxAttempts baseDelay w
     = NotionService.mkRetry (NotionService.Rejected Result error) w' []
                             [inl error].
Proof.
  intros Hcode Hnot Hm1 Hm2 Hop Hmax.
  assert (NotionService.isRetryableError error = false) as Hr.
  { unfold NotionService.isRetryableError, NotionService.jor.
    rewrite !Hcode, Hm1, Hm2. unfold retryableCode in Hnot.
    now rewrite Hnot. }
  split; [exact Hr|].
  unfold NotionService.withRetry.
  destruct (Z.to_nat maxAttempts) as [|remaining] eqn:E; [lia|].
  cbn [NotionService.retryFrom]. now rewrite Hop, Hr.
Qed.

End RetryFacts.

Lemma withRetry_code_before_status_witness :
  let B := AsciiText.builtins in
  let error :=
    NotionService.mkError (NotionService.JString (lit "service_unavailable"))
      (NotionService.JNumber 503) NotionService.JUndefined
      NotionService.JUndefined (Some (lit "Service unavailable")) in
  NotionService.isRetryableError error = false
  /\ NotionService.withRetry (failing error) NotionService.RETRY_ATTEMPTS
       NotionService.BASE_DELAY 0
     = NotionService.mkRetry (NotionService.Rejected unit error) 1 []
                             [inl error].
Proof.
  intros B error.
  apply (@withRetry_code_before_status AsciiText.builtins nat unit
           (failing error) NotionService.RETRY_ATTEMPTS
           NotionService.BASE_DELAY 0 1 error);
    try reflexivity.
  unfold NotionService.RETRY_ATTEMPTS. lia.
Defined.

(* ================================================================== *)
(** ** The mapping builders *)

Lemma lookup_pushReferral (k k' : jsstring) (row : Row) (m : Founder.Index) :
  Founder.lookup (Founder.pushReferral k row m) k'
  = if jsstring_eqb k k' then
      match Founder.lookup m k with
      | Some b => Some (Founder.mkBucket (Founder.displayName b)
                                         (Founder.referrals b ++ [row]))
      | None => None
      end
    else Founder.lookup m k'.
Proof.
  induction m as [|[k0 b0] m IH]; simpl.
  - now destruct (jsstring_eqb k k').
  - destruct (jsstring_eqb k0 k) eqn:E0; simpl.
    + apply jsstring_eqb_eq in E0. subst k0.
      destruct (jsstring_eqb k k'); reflexivity.
    + destruct (jsstring_eqb k0 k') eqn:E1.
      * apply jsstring_eqb_eq in E1. subst k0.
        destruct (jsstring_eqb k k') eqn:E2; [|reflexivity].
        apply jsstring_eqb_eq in E2. subst k'.
        rewrite jsstring_eqb_refl in E0. discriminate.
      * exact IH.
Qed.

Lemma lookup_insertIndexed (n : N) (k k' : jsstring) (b : Founder.Bucket)
  (m : Founder.Index) :
  Founder.lookup m k = None ->
  Founder.lookup (Founder.insertIndexed n k b m) k'
  = if jsstring_eqb k k' then Some b else Founder.lookup m k'.
Proof.
  induction m as [|[k0 b0] m IH]; simpl; intros Hnone; [reflexivity|].
  destruct (jsstring_eqb k0 k) eqn:E0; [discriminate|].
  assert (forall x : option Founder.Bucket,
             (if jsstring_eqb k0 k'
              then Some b0
              else if jsstring_eqb k k' then Some b else x)
             = (if jsstring_eqb k k' then Some b
                else if jsstring_eqb k0 k' then Some b0 else x)) as Hswap.
  { intros x. destruct (jsstring_eqb k0 k') eqn:E1;
      destruct (jsstring_eqb k k') eqn:E2; try reflexivity.
    apply jsstring_eqb_eq in E1, E2. subst.
    rewrite jsstring_eqb_refl in E0. discriminate. }
  destruct (arrayIndex k0) as [n'|]; [destruct (n' <? n)%N|]; simpl;
    try reflexivity.
  rewrite (IH Hnone). apply Hswap.
Qed.

Lemma lookup_app (m m' : Founder.Index) (k : jsstring) :
  Founder.lookup (m ++ m') k
  = match Founder.lookup m k with
    | Some b => Some b
    | None => Founder.lookup m' k
    end.
Proof.
  induction m as [|[k0 b0] m IH]; simpl; [reflexivity|].
  now destruct (jsstring_eqb k0 k).
Qed.

Lemma lookup_addProperty (k k' : jsstring) (b : Founder.Bucket)
  (m : Founder.Index) :
  Founder.lookup m k = None ->
  Founder.lookup (Founder.addProperty k b m) k'
  = if jsstring_eqb k k' then Some b else Founder.lookup m k'.
Proof.
  intros Hnone. unfold Founder.addProperty.
  destruct (arrayIndex k); [now apply lookup_insertIndexed|].
  rewrite lookup_app. simpl.
  destruct (jsstring_eqb k k') eqn:E.
  - apply jsstring_eqb_eq in E. subst k'. now rewrite Hnone.
  - now destruct (Founder.lookup m k').
Qed.

(** Only one name that [Object.prototype] defines is a normalized key. *)
Lemma inherited_normalized (k : jsstring) :
  inherited k = true -> normalized k -> k = lit "constructor".
Proof.
  intros Hin [Hsep _]. unfold inherited in Hin.
  apply existsb_exists in Hin. destruct Hin as (name & Hname & Heq).
  apply jsstring_eqb_eq in Heq. subst name.
  unfold objectPrototypeNames in Hname. cbn [map] in Hname.
  destruct Hname as [<-|Hname]; [reflexivity|].
  repeat (destruct Hname as [<-|Hname];
          [vm_compute in Hsep; discriminate|]).
  destruct Hname.
Qed.

Section MappingFacts.
Context {B : Builtins}.

Lemma keyOf_normalized (keyColumn : nat) (row : Row) :
  normalized (keyOf keyColumn row).
Proof. apply normalizeText_normalized. Qed.

(** The key of a row with an absent, empty or blank key cell is empty. *)
Lemma keyOf_blank (keyColumn : nat) (row : Row) :
  trim (orEmpty (cell row keyColumn)) = [] -> keyOf keyColumn row = [].
Proof. unfold keyOf. now intros ->. Qed.

(** The private builder of the founder processor is the builder of the
    matching utilities at column 9, iteration by iteration. *)
Lemma addKey_addReferral (st : option Founder.Index) (row : Row) :
  MatchingUtils.addKey 9 st row = Founder.addReferral st row.
Proof.
  unfold MatchingUtils.addKey, Founder.addReferral.
  destruct st as [mapping|]; [|reflexivity].
  destruct (cell row 9) as [[|c s]|] eqn:E; cbn [otruthy orEmpty];
    try reflexivity.
  destruct (trim (c :: s)) as [|d t] eqn:Et; cbn [truthy]; [|reflexivity].
  unfold normalizeText. reflexivity.
Qed.

(** One iteration of a builder, in terms of the key of the row. *)
Lemma addKey_step (keyColumn : nat) (m : Founder.Index) (row : Row) :
  let k := keyOf keyColumn row in
  MatchingUtils.addKey keyColumn (Some m) row
  = if truthy k then
      match Founder.lookup m k with
      | Some _ => Some (Founder.pushReferral k row m)
      | None =>
          if inherited k then None
          else Some (Founder.pushReferral k row
                       (Founder.addProperty k
                          (Founder.mkBucket
                             (trim (orEmpty (cell row keyColumn))) []) m))
      end
    else Some m.
Proof.
  intros k. subst k. unfold MatchingUtils.addKey, keyOf.
  destruct (cell row keyColumn) as [[|c s]|]; cbn [otruthy orEmpty];
    try reflexivity.
Qed.

Lemma filedUnder_app (keyColumn : nat) (k : jsstring) (seen : list Row)
  (row : Row) :
  filedUnder keyColumn k (seen ++ [row])
  = filedUnder keyColumn k seen
    ++ (if jsstring_eqb (keyOf keyColumn row) k then [row] else []).
Proof. unfold filedUnder. now rewrite filter_app. Qed.

Lemma addKey_describes (keyColumn : nat) (seen : list Row)
  (m m' : Founder.Index) (row : Row) :
  describes keyColumn seen m ->
  MatchingUtils.addKey keyColumn (Some m) row = Some m' ->
  describes keyColumn (seen ++ [row]) m'.
Proof.
  intros Hd H. rewrite addKey_step in H. cbv zeta in H.
  set (key := keyOf keyColumn row) in *.
  destruct (truthy key) eqn:Et.
  - assert (key <> []) as Hne by (destruct key; [discriminate|discriminate]).
    destruct (Founder.lookup m key) as [b|] eqn:El.
    + inversion H; subst m'. clear H. intros k.
      rewrite lookup_pushReferral, filedUnder_app. fold key.
      destruct (jsstring_eqb key k) eqn:E.
      * apply jsstring_eqb_eq in E. subst k. rewrite El.
        pose proof (Hd key) as Hk. rewrite El in Hk.
        destruct Hk as (_ & Hi & Hr & first & rest & Hf & Hdn).
        cbn [Founder.referrals Founder.displayName].
        split; [exact Hne|]. split; [exact Hi|]. split; [now rewrite Hr|].
        exists first, (rest ++ [row]). split; [now rewrite Hf|exact Hdn].
      * pose proof (Hd k) as Hk. rewrite app_nil_r.
        destruct (Founder.lookup m k); exact Hk.
    + destruct (inherited key) eqn:Ei; [discriminate|].
      inversion H; subst m'. clear H. intros k.
      rewrite lookup_pushReferral, filedUnder_app.
      rewrite !lookup_addProperty by exact El.
      rewrite jsstring_eqb_refl. fold key.
      destruct (jsstring_eqb key k) eqn:E.
      * apply jsstring_eqb_eq in E. subst k.
        cbn [Founder.referrals Founder.displayName].
        pose proof (Hd key) as Hk. rewrite El in Hk.
        split; [exact Hne|]. split; [exact Ei|].
        split; [now rewrite (Hk Hne)|].
        exists row, []. now split.
      * pose proof (Hd k) as Hk. rewrite app_nil_r.
        destruct (Founder.lookup m k); exact Hk.
  - inversion H; subst m'. clear H. intros k.
    rewrite filedUnder_app. fold key. pose proof (Hd k) as Hk.
    destruct (jsstring_eqb key k) eqn:E.
    + apply jsstring_eqb_eq in E. subst k.
      destruct key; [|discriminate].
      destruct (Founder.lookup m []) as [b|].
      * destruct Hk as [Hk _]. now contradiction Hk.
      * intros Hk'. now contradiction Hk'.
    + rewrite app_nil_r. exact Hk.
Qed.

Lemma addKey_None (keyColumn : nat) (rows : list Row) :
  fold_left (MatchingUtils.addKey keyColumn) rows None = None.
Proof. induction rows; simpl; auto. Qed.

Lemma addKey_fold_describes (keyColumn : nat) (rows : list Row) :
  forall seen m m',
    describes keyColumn seen m ->
    fold_left (MatchingUtils.addKey keyColumn) rows (Some m) = Some m' ->
    describes keyColumn (seen ++ rows) m'.
Proof.
  induction rows as [|row rows IH]; intros seen m m' Hd H;
    cbn [fold_left] in H.
  - inversion H; subst. now rewrite app_nil_r.
  - destruct (MatchingUtils.addKey keyColumn (Some m) row) as [m1|] eqn:E.
    + replace (seen ++ row :: rows) with ((seen ++ [row]) ++ rows)
        by now rewrite <- app_assoc.
      apply (IH _ m1); [|exact H].
      exact (addKey_describes keyColumn seen m m1 row Hd E).
    + now rewrite addKey_None in H.
Qed.

Lemma describes_nil (keyColumn : nat) : describes keyColumn [] [].
Proof. intros k. simpl. reflexivity. Qed.

Lemma createKeyMapping_describes (keyColumn : nat) (rows : list Row)
  (m : Founder.Index) :
  MatchingUtils.createKeyMapping rows keyColumn = Some m ->
  describes keyColumn rows m.
Proof.
  intros H.
  exact (addKey_fold_describes keyColumn rows [] [] m
           (describes_nil keyColumn) H).
Qed.

Lemma createReferralMapping_createKeyMapping (rows : list Row) :
  Founder.createReferralMapping rows = MatchingUtils.createKeyMapping rows 9.
Proof.
  unfold Founder.createReferralMapping, MatchingUtils.createKeyMapping.
  generalize (Some (@nil (jsstring * Founder.Bucket))) as st.
  induction rows as [|row rows IH]; intros st; [reflexivity|].
  cbn [fold_left]. rewrite addKey_addReferral. apply IH.
Qed.

(** A builder throws at the first row whose key is the name
    "constructor", and at no other row. *)
Lemma addKey_fold_throws (keyColumn : nat) (rows : list Row) :
  forall seen m,
    describes keyColumn seen m ->
    (fold_left (MatchingUtils.addKey keyColumn) rows (Some m) = None
     <-> exists row, In row rows
                     /\ keyOf keyColumn row = lit "constructor").
Proof.
  induction rows as [|row rows IH]; intros seen m Hd; cbn [fold_left].
  - split; [discriminate|]. now intros (row & [] & _).
  - destruct (MatchingUtils.addKey keyColumn (Some m) row) as [m1|] eqn:E.
    + rewrite (IH (seen ++ [row]) m1
                  (addKey_describes keyColumn seen m m1 row Hd E)).
      assert (keyOf keyColumn row <> lit "constructor") as Hne.
      { intros Hk. rewrite addKey_step in E. cbv zeta in E.
        rewrite Hk in E. cbn [truthy lit] in E.
        pose proof (Hd (lit "constructor")) as Hl.
        destruct (Founder.lookup m (lit "constructor")) as [b|].
        - destruct Hl as (_ & Hi & _). vm_compute in Hi. discriminate.
        - change (inherited (lit "constructor")) with true in E.
          discriminate. }
      split.
      * intros (r & Hin & Hk). exists r. split; [now right|exact Hk].
      * intros (r & [<-|Hin] & Hk); [contradiction|]. now exists r.
    + rewrite addKey_None. split; [intros _|reflexivity].
      exists row. split; [now left|].
      rewrite addKey_step in E. cbv zeta in E.
      destruct (truthy (keyOf keyColumn row)); [|discriminate].
      destruct (Founder.lookup m (keyOf keyColumn row)); [discriminate|].
      destruct (inherited (keyOf keyColumn row)) eqn:Ei; [|discriminate].
      exact (inherited_normalized _ Ei (keyOf_normalized keyColumn row)).
Qed.

(** X8. [createKeyMapping] files every row under the normalized form of its
    trimmed key cell: the bucket of a key holds exactly the rows with that
    key, in the order of the input, and displays the trimmed key cell of
    the first of them; a key without rows has no bucket, and rows whose
    key is empty are in no bucket. *)
Theorem createKeyMapping_buckets (rows : list Row) (keyColumn : nat)
  (m : Founder.Index) :
  MatchingUtils.createKeyMapping rows keyColumn = Some m ->
  forall k,
    match Founder.lookup m k with
    | Some b =>
        k <> []
        /\ Founder.referrals b = filedUnder keyColumn k rows
        /\ exists first rest,
             Founder.referrals b = first :: rest
             /\ Founder.displayName b
                = trim (orEmpty (cell first keyColumn))
    | None => k <> [] -> filedUnder keyColumn k rows = []
    end.
Proof.
  intros H k.
  pose proof (createKeyMapping_describes keyColumn rows m H k) as Hd.
  destruct (Founder.lookup m k); [|exact Hd].
  destruct Hd as (Hne & _ & Hr & Hf). now repeat split.
Qed.

(** X9. The private [createReferralMapping] of the founder processor is
    [createKeyMapping] at column 9: for every list of referral rows the two
    return the same mapping, or both throw.  So a referral row is filed
    under the normalized form of its trimmed startup name and nowhere
    else, and a row whose name is absent, blank, or without a letter or
    digit is filed nowhere. *)
Theorem createReferralMapping_is_createKeyMapping (referralRows : list Row) :
  Founder.createReferralMapping referralRows
  = MatchingUtils.createKeyMapping referralRows 9
  /\ (forall m row,
         Founder.createReferralMapping referralRows = Some m ->
         (exists k b, Founder.lookup m k = Some b
                      /\ In row (Founder.referrals b))
         <-> In row referralRows /\ keyOf 9 row <> [])
  /\ (forall m k b row,
         Founder.createReferralMapping referralRows = Some m ->
         Founder.lookup m k = Some b ->
         In row (Founder.referrals b) ->
         k = keyOf 9 row).
Proof.
  split; [apply createReferralMapping_createKeyMapping|].
  assert (forall m k b row,
             Founder.createReferralMapping referralRows = Some m ->
             Founder.lookup m k = Some b ->
             In row (Founder.referrals b) ->
             In row referralRows /\ k = keyOf 9 row /\ k <> []) as Hin.
  { intros m k b row H Hl Hrow.
    rewrite createReferralMapping_createKeyMapping in H.
    pose proof (createKeyMapping_describes 9 referralRows m H k) as Hd.
    rewrite Hl in Hd. destruct Hd as (Hne & _ & Hr & _).
    rewrite Hr in Hrow. unfold filedUnder in Hrow.
    apply filter_In in Hrow. destruct Hrow as [Hrow Hk].
    apply jsstring_eqb_eq in Hk. now repeat split. }
  split.
  - intros m row H. split.
    + intros (k & b & Hl & Hrow).
      destruct (Hin m k b row H Hl Hrow) as (Hr & -> & Hne). now split.
    + intros [Hrow Hne].
      rewrite createReferralMapping_createKeyMapping in H.
      pose proof (createKeyMapping_describes 9 referralRows m H
                    (keyOf 9 row)) as Hd.
      assert (In row (filedUnder 9 (keyOf 9 row) referralRows)) as Hfiled.
      { unfold filedUnder. apply filter_In. split; [exact Hrow|].
        apply jsstring_eqb_refl. }
      destruct (Founder.lookup m (keyOf 9 row)) as [b|] eqn:El.
      * destruct Hd as (_ & _ & Hr & _).
        exists (keyOf 9 row), b. split; [exact El|]. now rewrite Hr.
      * rewrite (Hd Hne) in Hfiled. contradiction.
  - intros m k b row H Hl Hrow.
    now destruct (Hin m k b row H Hl Hrow) as (_ & Hk & _).
Qed.

Section WithWriter.
Variable World : Type.
Variable writePage : PageWriter World.

(** X10. [createReferralMapping] throws exactly when the startup name of
    some referral row normalizes to "constructor": the lookup in the empty
    object literal finds the inherited property, which has no list of
    referrals.  [processFounders] calls it outside every [try], so such a
    referral row makes the whole founder import throw before any founder
    row is processed. *)
Theorem createReferralMapping_throws (referralRows : list Row) :
  (Founder.createReferralMapping referralRows = None
   <-> exists row, In row referralRows
                   /\ keyOf 9 row = lit "constructor")
  /\ (forall (w : World) (founderRows : list Row),
         Founder.processFounders writePage w founderRows referralRows = None
         <-> exists row, In row referralRows
                         /\ keyOf 9 row = lit "constructor").
Proof.
  assert (Founder.createReferralMapping referralRows = None
          <-> exists row, In row referralRows
                          /\ keyOf 9 row = lit "constructor") as H.
  { rewrite createReferralMapping_createKeyMapping.
    exact (addKey_fold_throws 9 referralRows [] [] (describes_nil 9)). }
  split; [exact H|].
  intros w founderRows. rewrite <- H. unfold Founder.processFounders.
  destruct (Founder.createReferralMapping referralRows);
    split; intros H'; try discriminate H'; reflexivity.
Qed.

End WithWriter.

End MappingFacts.

Lemma createKeyMapping_buckets_witness :
  let B := AsciiText.builtins in
  let rows := [Sample.founderReferral "ACME corp."; Sample.founderReferral "Beta";
               Sample.founderReferral " Acme Corp "] in
  let m := [ (lit "acme corp",
              Founder.mkBucket (lit "ACME corp.")
                [Sample.founderReferral "ACME corp.";
                 Sample.founderReferral " Acme Corp "]);
             (lit "beta",
              Founder.mkBucket (lit "Beta") [Sample.founderReferral "Beta"]) ] in
  match Founder.lookup m (lit "acme corp") with
  | Some b =>
      lit "acme corp" <> []
      /\ Founder.referrals b = filedUnder 9 (lit "acme corp") rows
      /\ exists first rest,
           Founder.referrals b = first :: rest
           /\ Founder.displayName b = trim (orEmpty (cell first 9))
  | None => lit "acme corp" <> [] -> filedUnder 9 (lit "acme corp") rows = []
  end.
Proof.
  intros B rows m.
  apply (@createKeyMapping_buckets AsciiText.builtins rows 9 m).
  vm_compute. reflexivity.
Defined.

(* ================================================================== *)
(** ** Unmatched referrals *)

Lemma lookup_In (m : Founder.Index) (k : jsstring) (b : Founder.Bucket) :
  Founder.lookup m k = Some b -> In (k, b) m.
Proof.
  induction m as [|[k' b'] m IH]; simpl; [discriminate|].
  destruct (jsstring_eqb k' k) eqn:E.
  - apply jsstring_eqb_eq in E. subst k'. intros H. inversion H. now left.
  - intros H. right. now apply IH.
Qed.

Lemma In_lookup (m : Founder.Index) (k : jsstring) (b : Founder.Bucket) :
  NoDup (Founder.keys m) -> In (k, b) m -> Founder.lookup m k = Some b.
Proof.
  induction m as [|[k' b'] m IH]; simpl; intros Hnd Hin; [contradiction|].
  inversion Hnd as [|? ? Hnotin Hnd']; subst.
  destruct Hin as [Heq|Hin].
  - inversion Heq; subst. now rewrite jsstring_eqb_refl.
  - destruct (jsstring_eqb k' k) eqn:E; [|now apply IH].
    apply jsstring_eqb_eq in E. subst k'. exfalso. apply Hnotin.
    unfold Founder.keys. apply in_map_iff. now exists (k, b).
Qed.

Lemma notAmong_spec (ks : list jsstring) (k : jsstring) :
  notAmong ks k = true <-> ~ In k ks.
Proof.
  unfold notAmong. rewrite negb_true_iff. split.
  - intros E Hin.
    assert (existsb (jsstring_eqb k) ks = true) as Ht.
    { apply existsb_exists. exists k. split; [exact Hin|].
      apply jsstring_eqb_refl. }
    congruence.
  - intros Hn. destruct (existsb (jsstring_eqb k) ks) eqn:E; [|reflexivity].
    apply existsb_exists in E. destruct E as (k' & Hk' & Heq).
    apply jsstring_eqb_eq in Heq. subst k'. contradiction.
Qed.

Lemma claimedKeys_In {World : Type} (news : list (Founder.Step World))
  (k : jsstring) :
  In k (claimedKeys news)
  <-> exists s, In s news /\ claimedKey s = Some k.
Proof.
  induction news as [|s news IH]; simpl.
  - split; [intros []|intros (s & [] & _)].
  - destruct (claimedKey s) as [k'|] eqn:E; simpl; rewrite IH; split.
    + intros [<-|(s' & Hin & Hs')]; [exists s; tauto|exists s'; tauto].
    + intros (s' & [<-|Hin] & Hs'); [left; congruence|right; now exists s'].
    + intros (s' & Hin & Hs'). exists s'. tauto.
    + intros (s' & [<-|Hin] & Hs'); [congruence|now exists s'].
Qed.

(** The keys left by a filter on keys, with the keys removed, are the keys
    of the mapping. *)
Lemma unclaimed_count (m : Founder.Index) (claimed : list jsstring) :
  NoDup (Founder.keys m) -> NoDup claimed ->
  (forall k, In k claimed -> In k (Founder.keys m)) ->
  List.length (filter (fun e => notAmong claimed (fst e)) m)
  + List.length claimed
  = List.length m.
Proof.
  revert claimed. induction m as [|[k b] m IH]; intros claimed Hnd Hc Hsub.
  - destruct claimed as [|k ks]; [reflexivity|].
    destruct (Hsub k (or_introl eq_refl)).
  - simpl in Hnd. inversion Hnd as [|? ? Hnotin Hnd']; subst.
    cbn [filter fst].
    destruct (notAmong claimed k) eqn:E.
    + apply notAmong_spec in E. cbn [List.length].
      rewrite <- (IH claimed Hnd' Hc); [lia|].
      intros k' Hk'. destruct (Hsub k' Hk') as [<-|H]; [contradiction|exact H].
    + assert (In k claimed) as Hin.
      { destruct (in_dec (list_eq_dec N.eq_dec) k claimed) as [H|H];
          [exact H|].
        apply notAmong_spec in H. congruence. }
      destruct (in_split _ _ Hin) as (l1 & l2 & ->).
      pose proof (NoDup_remove_1 _ _ _ Hc) as Hc'.
      pose proof (NoDup_remove_2 _ _ _ Hc) as Hk.
      assert (filter (fun e => notAmong (l1 ++ k :: l2) (fst e)) m
              = filter (fun e => notAmong (l1 ++ l2) (fst e)) m) as ->.
      { apply filter_ext_in. intros [k' b'] Hin'. cbn [fst].
        assert (k' <> k) as Hne.
        { intros ->. apply Hnotin. unfold Founder.keys.
          apply in_map_iff. now exists (k, b'). }
        destruct (notAmong (l1 ++ k :: l2) k') eqn:E1;
          destruct (notAmong (l1 ++ l2) k') eqn:E2; try reflexivity.
        - apply notAmong_spec in E1.
          assert (In k' (l1 ++ l2)) as H.
          { destruct (in_dec (list_eq_dec N.eq_dec) k' (l1 ++ l2)) as [H|H];
              [exact H|]. apply notAmong_spec in H. congruence. }
          exfalso. apply E1. apply in_app_or in H. apply in_or_app.
          destruct H; [now left|right; now right].
        - apply notAmong_spec in E2.
          assert (In k' (l1 ++ k :: l2)) as H.
          { destruct (in_dec (list_eq_dec N.eq_dec) k' (l1 ++ k :: l2))
              as [H|H]; [exact H|]. apply notAmong_spec in H. congruence. }
          exfalso. apply E2. apply in_app_or in H. apply in_or_app.
          destruct H as [H|[H|H]]; [now left|congruence|now right]. }
      rewrite length_app. cbn [List.length].
      rewrite <- (IH (l1 ++ l2) Hnd' Hc'); [rewrite length_app; lia|].
      intros k' Hk'.
      assert (In k' (l1 ++ k :: l2)) as H.
      { apply in_app_or in Hk'. apply in_or_app.
        destruct Hk'; [now left|right; now right]. }
      destruct (Hsub k' H) as [<-|H']; [contradiction|exact H'].
Qed.

Section UnmatchedFacts.
Context {B : Builtins}.
Variable World : Type.
Variable writePage : PageWriter World.
Variable writeUnmatched : Unmatched.UnmatchedWriter World.

(** The handler makes one attempt per entry, in the order of the
    entries. *)
Lemma processUnmatchedReferrals_pages (m : Founder.Index) :
  forall (w : World) (done : list Unmatched.Attempt),
    attemptPages
      (snd (fold_left
              (fun st e =>
                 Unmatched.attempt writeUnmatched st
                   (Founder.displayName (snd e)) (Founder.referrals (snd e)))
              m (w, done)))
    = attemptPages done
      ++ map (fun e => (Founder.displayName (snd e),
                        Founder.referrals (snd e))) m.
Proof.
  induction m as [|e m IH]; intros w done; cbn [fold_left map].
  - now rewrite app_nil_r.
  - unfold Unmatched.attempt at 2. cbn [fst snd].
    destruct (writeUnmatched w (Founder.displayName (snd e))
                             (Founder.referrals (snd e))) as [w' thrown].
    rewrite IH. unfold attemptPages. rewrite map_app, <- app_assoc.
    reflexivity.
Qed.

(** X11. [processFounders] accounts for every referral that has a usable
    startup name: its row is attached to the founder row that claimed its
    key, or it is among the rows of one attempt of the unmatched-referral
    handler, and never both.  The handler makes one attempt per bucket no
    founder row claimed, in the order of the mapping, under the display
    name of the bucket; the count it reports and the number of claimed keys
    add up to the number of buckets; and a failure of the handler changes
    no counter. *)
Theorem founder_referrals_accounted (w : World)
  (founderRows referralRows : list Row) (report : Unmatched.Report World) :
  Unmatched.processFounders writePage writeUnmatched w founderRows
                            referralRows = Some report ->
  exists m0,
    let run := Founder.processFoundersFrom writePage w m0 founderRows in
    let claimed := claimedKeys (Founder.steps run) in
    Founder.createReferralMapping referralRows = Some m0
    /\ Unmatched.counters (Unmatched.summary report) = Founder.results run
    /\ Unmatched.unmatchedReferrals (Unmatched.summary report)
       + List.length claimed
       = List.length m0
    /\ attemptPages (Unmatched.unmatchedAttempts report)
       = map (fun e => (Founder.displayName (snd e),
                        Founder.referrals (snd e)))
             (filter (fun e => notAmong claimed (fst e)) m0)
    /\ (forall row,
          In row referralRows -> keyOf 9 row <> [] ->
          (exists s, In s (Founder.steps run)
                     /\ claimedKey s = Some (keyOf 9 row)
                     /\ In row (Founder.stepMatchedReferrals s))
          \/ (exists a, In a (Unmatched.unmatchedAttempts report)
                        /\ In row (Unmatched.attemptReferrals a)))
    /\ (forall row s a,
          In s (Founder.steps run) ->
          In row (Founder.stepMatchedReferrals s) ->
          In a (Unmatched.unmatchedAttempts report) ->
          In row (Unmatched.attemptReferrals a) -> False)
    /\ (forall row,
          (exists s, In s (Founder.steps run)
                     /\ In row (Founder.stepMatchedReferrals s))
          \/ (exists a, In a (Unmatched.unmatchedAttempts report)
                        /\ In row (Unmatched.attemptReferrals a)) ->
          In row referralRows /\ keyOf 9 row <> []).
Proof.
  unfold Unmatched.processFounders, Founder.processFounders.
  destruct (Founder.createReferralMapping referralRows) as [m0|] eqn:Em;
    [|discriminate].
  intros H. exists m0. cbv zeta.
  set (run := Founder.processFoundersFrom writePage w m0 founderRows) in *.
  pose proof (createReferralMapping_wellFormed referralRows m0 Em)
    as (Hkeys & Hnd & Hne).
  assert (describes 9 referralRows m0) as Hd.
  { apply createKeyMapping_describes.
    now rewrite <- createReferralMapping_createKeyMapping. }
  destruct (claims_from World writePage founderRows
              (Founder.mkRun noResults m0 w [] []))
    as (news & Hs & _ & Hndc & Hsub & Hfinal & Hall).
  cbn [Founder.steps Founder.mapping app] in Hs, Hsub, Hfinal, Hall.
  change (fold_left (Founder.iteration writePage) founderRows
            (Founder.mkRun noResults m0 w [] [])) with run in Hs, Hfinal.
  rewrite Hs.
  set (claimed := claimedKeys news) in *.
  set (left := filter (fun e => notAmong claimed (fst e)) m0) in *.
  assert (attemptPages (Unmatched.unmatchedAttempts report)
          = map (fun e => (Founder.displayName (snd e),
                           Founder.referrals (snd e))) left
          /\ Unmatched.counters (Unmatched.summary report)
             = Founder.results run
          /\ Unmatched.unmatchedReferrals (Unmatched.summary report)
             = List.length left) as (Hpages & Hcount & Hun).
  { rewrite Hfinal in H.
    destruct (0 <? List.length (Founder.keys left))%nat eqn:E.
    - unfold Unmatched.processUnmatchedReferrals in H.
      pose proof (processUnmatchedReferrals_pages left (Founder.world run) [])
        as Hp.
      destruct (fold_left _ left (Founder.world run, [])) as [w' attempts].
      inversion H; subst report. cbn in Hp |- *.
      split; [exact Hp|]. split; [reflexivity|].
      unfold Founder.keys. now rewrite length_map.
    - inversion H; subst report. cbn.
      apply Nat.ltb_ge in E. unfold Founder.keys in *.
      rewrite length_map in *.
      destruct left; [now repeat split|simpl in E; lia]. }
  split; [reflexivity|]. split; [exact Hcount|]. split.
  { rewrite Hun. subst left.
    rewrite <- (unclaimed_count m0 claimed Hnd Hndc Hsub).
    reflexivity. }
  split; [exact Hpages|].
  assert (forall a, In a (Unmatched.unmatchedAttempts report) ->
            exists k b, In (k, b) m0 /\ ~ In k claimed
                        /\ Unmatched.attemptReferrals a
                           = Founder.referrals b) as Hattempt.
  { intros a Ha.
    assert (In (Unmatched.attemptName a, Unmatched.attemptReferrals a)
               (attemptPages (Unmatched.unmatchedAttempts report))) as Hin
      by (unfold attemptPages; apply in_map_iff; now exists a).
    rewrite Hpages in Hin. apply in_map_iff in Hin.
    destruct Hin as ([k b] & Heq & Hin). cbn [snd] in Heq.
    subst left. apply filter_In in Hin. destruct Hin as [Hin Hna].
    cbn [fst] in Hna. apply notAmong_spec in Hna.
    exists k, b. split; [exact Hin|]. split; [exact Hna|]. congruence. }
  assert (forall k b row, Founder.lookup m0 k = Some b ->
            In row (Founder.referrals b) -> keyOf 9 row = k) as Hkey.
  { intros k b row Hl Hrow. pose proof (Hd k) as Hk. rewrite Hl in Hk.
    destruct Hk as (_ & _ & Hr & _). rewrite Hr in Hrow.
    unfold filedUnder in Hrow. apply filter_In in Hrow.
    now apply jsstring_eqb_eq. }
  assert (forall k b row, Founder.lookup m0 k = Some b ->
            In row (Founder.referrals b) ->
            In row referralRows /\ keyOf 9 row <> []) as Hfrom.
  { intros k b row Hl Hrow. pose proof (Hd k) as Hk. rewrite Hl in Hk.
    destruct Hk as (Hfilled & _ & Hr & _).
    rewrite (Hkey k b row Hl Hrow). split; [|exact Hfilled].
    rewrite Hr in Hrow. unfold filedUnder in Hrow.
    apply filter_In in Hrow. tauto. }
  rewrite Forall_forall in Hall.
  split; [|split].
  - intros row Hin Hk. pose proof (Hd (keyOf 9 row)) as Hb.
    assert (In row (filedUnder 9 (keyOf 9 row) referralRows)) as Hfiled.
    { unfold filedUnder. apply filter_In. split; [exact Hin|].
      apply jsstring_eqb_refl. }
    destruct (Founder.lookup m0 (keyOf 9 row)) as [b|] eqn:El;
      [|rewrite (Hb Hk) in Hfiled; contradiction].
    destruct Hb as (_ & _ & Hr & _).
    destruct (in_dec (list_eq_dec N.eq_dec) (keyOf 9 row) claimed)
      as [Hc|Hc].
    + left. apply claimedKeys_In in Hc. destruct Hc as (s & Hs' & Hcs).
      exists s. split; [exact Hs'|]. split; [exact Hcs|].
      specialize (Hall s Hs'). rewrite Hcs in Hall.
      destruct Hall as (_ & _ & b' & Hl' & ->).
      rewrite El in Hl'. inversion Hl'; subst b'. now rewrite Hr.
    + right.
      assert (In (Founder.displayName b, Founder.referrals b)
                 (attemptPages (Unmatched.unmatchedAttempts report))) as Ha.
      { rewrite Hpages. apply in_map_iff. exists (keyOf 9 row, b).
        split; [reflexivity|]. subst left. apply filter_In.
        split; [now apply lookup_In|]. cbn [fst]. now apply notAmong_spec. }
      unfold attemptPages in Ha. apply in_map_iff in Ha.
      destruct Ha as (a & Heq & Ha). exists a. split; [exact Ha|].
      inversion Heq as [[Hn Hrs]]. rewrite Hrs, Hr. exact Hfiled.
  - intros row s a Hs' Hrow Ha Harow.
    specialize (Hall s Hs').
    destruct (claimedKey s) as [k|] eqn:Ecs;
      [|rewrite Hall in Hrow; contradiction].
    destruct Hall as (_ & _ & b & Hl & Hm). rewrite Hm in Hrow.
    pose proof (Hkey k b row Hl Hrow) as Hk1.
    destruct (Hattempt a Ha) as (k' & b' & Hin' & Hnc & Hr').
    rewrite Hr' in Harow.
    pose proof (Hkey k' b' row (In_lookup m0 k' b' Hnd Hin') Harow) as Hk2.
    apply Hnc. apply claimedKeys_In. exists s. split; [exact Hs'|].
    congruence.
  - intros row [(s & Hs' & Hrow)|(a & Ha & Hrow)].
    + specialize (Hall s Hs').
      destruct (claimedKey s) as [k|];
        [|rewrite Hall in Hrow; contradiction].
      destruct Hall as (_ & _ & b & Hl & Hm). rewrite Hm in Hrow.
      exact (Hfrom k b row Hl Hrow).
    + destruct (Hattempt a Ha) as (k & b & Hin' & _ & Hr').
      rewrite Hr' in Hrow.
      exact (Hfrom k b row (In_lookup m0 k b Hnd Hin') Hrow).
Qed.

(** The rows [unmatchedFrom] keeps, when membership of an index in the set
    of matched indices is decided by [q] on the row at that index. *)
Lemma unmatchedFrom_filter (ids : list nat) (q : Row -> bool)
  (rows : list Row) :
  forall offset,
    (forall i row, nth_error rows i = Some row ->
                   existsb (Nat.eqb (offset + i)) ids = q row) ->
    Unmatched.unmatchedFrom offset ids rows
    = filter (fun row => negb (q row)) rows.
Proof.
  induction rows as [|row rows IH]; intros offset H; [reflexivity|].
  cbn [Unmatched.unmatchedFrom filter].
  pose proof (H 0 row eq_refl) as H0. rewrite Nat.add_0_r in H0.
  rewrite H0, (IH (S offset)).
  - now destruct (q row).
  - intros i r Hi. rewrite <- (H (S i) r Hi). f_equal. f_equal. lia.
Qed.

(** An index is among the positions [positionsFrom] lists exactly when the
    row at that index satisfies the test. *)
Lemma positionsFrom_existsb (p : Row -> bool) (rows : list Row) :
  forall offset i row,
    nth_error rows i = Some row ->
    existsb (Nat.eqb (offset + i)) (Searcher.positionsFrom offset p rows)
    = p row.
Proof.
  assert (forall rows offset j, j < offset ->
            existsb (Nat.eqb j) (Searcher.positionsFrom offset p rows)
            = false) as Hbelow.
  { clear. induction rows as [|r rows IH]; intros offset j Hj;
      [reflexivity|].
    cbn [Searcher.positionsFrom]. rewrite existsb_app, (IH (S offset)) by lia.
    destruct (p r); [|reflexivity]. cbn [existsb orb].
    replace (j =? offset) with false
      by (symmetry; apply Nat.eqb_neq; lia).
    reflexivity. }
  induction rows as [|r rows IH]; intros offset i row Hi;
    [now destruct i|].
  cbn [Searcher.positionsFrom]. rewrite existsb_app.
  destruct i as [|i].
  - inversion Hi; subst r. rewrite Nat.add_0_r.
    rewrite (Hbelow rows (S offset) offset) by lia.
    destruct (p row); cbn [existsb orb];
      [now rewrite Nat.eqb_refl|reflexivity].
  - cbn [nth_error] in Hi.
    replace (offset + S i) with (S offset + i) by lia.
    rewrite (IH (S offset) i row Hi).
    destruct (p r); [|reflexivity]. cbn [existsb orb].
    replace (S offset + i =? offset) with false
      by (symmetry; apply Nat.eqb_neq; lia).
    reflexivity.
Qed.

(** The set of matched indices after the loop: the positions of the
    referral rows each named searcher row refers to. *)
Lemma matchedIds_from (referralRows rows : list Row) :
  forall run : Searcher.Run World,
    Searcher.matchedIds
      (fold_left (Searcher.iteration writePage referralRows) rows run)
    = Searcher.matchedIds run
      ++ flat_map
           (fun searcherRow =>
              let searcherName := trim (orEmpty (cell searcherRow 37)) in
              if truthy searcherName
              then Searcher.positionsFrom 0
                     (referralMatches (normalizeText (Some searcherName)) 22)
                     referralRows
              else [])
           rows.
Proof.
  induction rows as [|row rows IH]; intros run; cbn [fold_left flat_map].
  - now rewrite app_nil_r.
  - rewrite IH, app_assoc. f_equal.
    unfold Searcher.iteration, Searcher.processSingleSearcher.
    destruct (trim (orEmpty (cell row 37))) as [|c name] eqn:E;
      cbn [truthy].
    + cbn. now rewrite app_nil_r.
    + destruct (writePage (Searcher.world run) (c :: name) row _)
        as [[w' lines] completion].
      cbn [Searcher.stepCompletion]. now destruct completion.
Qed.

(** What each step of the searcher loop attaches depends on its row and on
    the referral rows only. *)
Lemma searcher_attached_from (referralRows rows : list Row) :
  forall run : Searcher.Run World,
  exists news,
    Searcher.steps
      (fold_left (Searcher.iteration writePage referralRows) rows run)
    = Searcher.steps run ++ news
    /\ map (fun s => (Searcher.stepRow s, Searcher.stepMatchedReferrals s))
           news
       = map (fun row =>
                (row, filter (fun referral => namesReferral row referral)
                             referralRows))
             rows.
Proof.
  induction rows as [|row rows IH]; intros run; cbn [fold_left].
  - exists []. now rewrite app_nil_r.
  - destruct (IH (Searcher.iteration writePage referralRows run row))
      as (news & Hs & Hm).
    set (s := Searcher.processSingleSearcher writePage (Searcher.world run)
                referralRows (Searcher.matchedIds run) row).
    destruct (searcher_iteration_cases World writePage referralRows run row)
      as [Hsteps _].
    fold s in Hsteps. rewrite Hsteps in Hs.
    exists (s :: news). split; [now rewrite Hs, <- app_assoc|].
    cbn [map]. rewrite Hm. f_equal.
    subst s. unfold Searcher.processSingleSearcher, namesReferral.
    destruct (trim (orEmpty (cell row 37))) as [|c name] eqn:E;
      cbn [truthy andb].
    + cbn. f_equal. clear. induction referralRows; simpl; congruence.
    + destruct (writePage (Searcher.world run) (c :: name) row _)
        as [[w' lines] completion].
      cbn [Searcher.stepRow Searcher.stepMatchedReferrals].
      reflexivity.
Qed.

(** X12. [processSearchers] reports as unmatched exactly the referral rows
    that no searcher row with a name refers to (the normalized names are
    equal), whether the page of that searcher row was written or not; it
    makes one attempt per unmatched referral row, in the order of the rows;
    and a failure of the handler changes no counter. *)
Theorem searcher_referrals_unmatched (w : World)
  (searcherRows referralRows : list Row) :
  let report := Unmatched.processSearchers writePage writeUnmatched w
                  searcherRows referralRows in
  let run := Searcher.processSearchers writePage w searcherRows
                                       referralRows in
  let unmatched :=
    filter (fun referral => negb (named searcherRows referral))
           referralRows in
  attemptPages (Unmatched.unmatchedAttempts report)
  = map (fun referral => (Unmatched.referredName referral, [referral]))
        unmatched
  /\ Unmatched.unmatchedReferrals (Unmatched.summary report)
     = List.length unmatched
  /\ Unmatched.counters (Unmatched.summary report) = Searcher.results run
  /\ (forall referral,
        In referral referralRows ->
        named searcherRows referral = true
        <-> exists s, In s (Searcher.steps run)
                      /\ In referral (Searcher.stepMatchedReferrals s)).
Proof.
  intros report run unmatched.
  assert (Unmatched.unmatchedFrom 0 (Searcher.matchedIds run) referralRows
          = unmatched) as Hun.
  { subst unmatched. apply unmatchedFrom_filter. intros i row Hi.
    subst run. unfold Searcher.processSearchers.
    rewrite matchedIds_from. cbn [Searcher.matchedIds app].
    unfold named. clear - Hi.
    induction searcherRows as [|s rows IH]; [reflexivity|].
    cbn [flat_map existsb]. rewrite existsb_app, IH. f_equal.
    unfold namesReferral.
    destruct (truthy (trim (orEmpty (cell s 37)))); [|reflexivity].
    exact (positionsFrom_existsb _ referralRows 0 i row Hi). }
  assert (forall rows (w0 : World) done,
            attemptPages
              (snd (fold_left
                      (fun st referral =>
                         Unmatched.attempt writeUnmatched st
                           (Unmatched.referredName referral) [referral])
                      rows (w0, done)))
            = attemptPages done
              ++ map (fun referral =>
                        (Unmatched.referredName referral, [referral]))
                     rows) as Hpages.
  { induction rows as [|r rows IH]; intros w0 done; cbn [fold_left map].
    - now rewrite app_nil_r.
    - unfold Unmatched.attempt at 2. cbn [fst snd].
      destruct (writeUnmatched w0 (Unmatched.referredName r) [r])
        as [w' thrown].
      rewrite IH. unfold attemptPages. rewrite map_app, <- app_assoc.
      reflexivity. }
  split; [|split; [|split]].
  - subst report. unfold Unmatched.processSearchers. fold run.
    rewrite Hun.
    destruct (0 <? List.length unmatched)%nat eqn:E.
    + unfold Unmatched.processUnmatchedSearcherReferrals.
      pose proof (Hpages unmatched (Searcher.world run) []) as Hp.
      destruct (fold_left _ unmatched (Searcher.world run, []))
        as [w' attempts].
      exact Hp.
    + apply Nat.ltb_ge in E. destruct unmatched; [reflexivity|].
      simpl in E. lia.
  - subst report. unfold Unmatched.processSearchers. fold run.
    rewrite Hun.
    destruct (0 <? List.length unmatched)%nat;
      [destruct (Unmatched.processUnmatchedSearcherReferrals _ _ _)|];
      reflexivity.
  - subst report. unfold Unmatched.processSearchers. fold run.
    destruct (0 <? _)%nat;
      [destruct (Unmatched.processUnmatchedSearcherReferrals _ _ _)|];
      reflexivity.
  - intros referral Hin. subst run. unfold Searcher.processSearchers.
    destruct (searcher_attached_from referralRows searcherRows
                (Searcher.mkRun noResults [] w [] [])) as (news & Hs & Hm).
    cbn [Searcher.steps app] in Hs. rewrite Hs.
    unfold named. rewrite existsb_exists. split.
    + intros (row & Hrow & Hn).
      assert (In (row, filter (fun r => namesReferral row r) referralRows)
                 (map (fun s => (Searcher.stepRow s,
                                 Searcher.stepMatchedReferrals s)) news))
        as Hstep by (rewrite Hm; apply in_map_iff; now exists row).
      apply in_map_iff in Hstep. destruct Hstep as (s & Heq & Hs').
      exists s. split; [exact Hs'|]. injection Heq as Hr Hrs.
      rewrite Hrs. apply filter_In. split; [exact Hin|exact Hn].
    + intros (s & Hs' & Hrs).
      assert (In (Searcher.stepRow s, Searcher.stepMatchedReferrals s)
                 (map (fun row =>
                         (row, filter (fun r => namesReferral row r)
                                      referralRows)) searcherRows))
        as Hstep by (rewrite <- Hm; apply in_map_iff; now exists s).
      apply in_map_iff in Hstep. destruct Hstep as (row & Heq & Hrow).
      exists row. split; [exact Hrow|]. injection Heq as Hr Hf.
      rewrite <- Hf in Hrs. apply filter_In in Hrs. tauto.
Qed.

End UnmatchedFacts.

Lemma founder_referrals_accounted_witness :
  let B := AsciiText.builtins in
  let founderRows := [Sample.founderRow "Acme Corp"] in
  let referralRows := [Sample.founderReferral "ACME corp.";
                       Sample.founderReferral "Beta"] in
  let report := reportOr (Unmatched.processFounders Sample.quietWriter
                            quietUnmatched tt founderRows referralRows) in
  exists m0,
    let run := Founder.processFoundersFrom Sample.quietWriter tt m0
                                           founderRows in
    let claimed := claimedKeys (Founder.steps run) in
    Founder.createReferralMapping referralRows = Some m0
    /\ Unmatched.counters (Unmatched.summary report) = Founder.results run
    /\ Unmatched.unmatchedReferrals (Unmatched.summary report)
       + List.length claimed
       = List.length m0
    /\ attemptPages (Unmatched.unmatchedAttempts report)
       = map (fun e => (Founder.displayName (snd e),
                        Founder.referrals (snd e)))
             (filter (fun e => notAmong claimed (fst e)) m0)
    /\ (forall row,
          In row referralRows -> keyOf 9 row <> [] ->
          (exists s, In s (Founder.steps run)
                     /\ claimedKey s = Some (keyOf 9 row)
                     /\ In row (Founder.stepMatchedReferrals s))
          \/ (exists a, In a (Unmatched.unmatchedAttempts report)
                        /\ In row (Unmatched.attemptReferrals a)))
    /\ (forall row s a,
          In s (Founder.steps run) ->
          In row (Founder.stepMatchedReferrals s) ->
          In a (Unmatched.unmatchedAttempts report) ->
          In row (Unmatched.attemptReferrals a) -> False)
    /\ (forall row,
          (exists s, In s (Founder.steps run)
                     /\ In row (Founder.stepMatchedReferrals s))
          \/ (exists a, In a (Unmatched.unmatchedAttempts report)
                        /\ In row (Unmatched.attemptReferrals a)) ->
          In row referralRows /\ keyOf 9 row <> []).
Proof.
  intros B founderRows referralRows report.
  apply (@founder_referrals_accounted AsciiText.builtins unit
           Sample.quietWriter quietUnmatched tt founderRows referralRows
           report).
  vm_compute. reflexivity.
Defined.

(* ================================================================== *)
(** ** Valid forms and their statistics *)

Lemma filter_filter {A : Type} (f g : A -> bool) (l : list A) :
  filter f (filter g l) = filter (fun x => g x && f x) l.
Proof.
  induction l as [|x l IH]; simpl; [reflexivity|].
  destruct (g x); simpl; [|exact IH]. destruct (f x); now rewrite IH.
Qed.

Lemma filter_idempotent {A : Type} (f : A -> bool) (l : list A) :
  filter f (filter f l) = filter f l.
Proof.
  rewrite filter_filter. apply filter_ext. intros x. now destruct (f x).
Qed.

Lemma nonBlank_hasContent (c : option jsstring) :
  Classifier.nonBlank c = hasContent c.
Proof.
  unfold Classifier.nonBlank, hasContent. f_equal.
  now destruct (trim (orEmpty c)).
Qed.

Section ValidityFacts.
Context {B : Builtins}.

(** The valid forms of each category, by the cells they fill. *)
Lemma validForms_filled (forms : list Row) :
  FormStatistics.validForms (lit "founders") forms
  = filter (filled FounderForm) forms
  /\ FormStatistics.validForms (lit "founderReferrals") forms
     = filter (filled FounderReferralForm) forms
  /\ FormStatistics.validForms (lit "searchers") forms
     = filter (filled SearcherForm) forms
  /\ FormStatistics.validForms (lit "searcherReferrals") forms
     = filter (filled SearcherReferralForm) forms.
Proof.
  unfold FormStatistics.validForms.
  change (FormStatistics.getFormTypeFromCategory (lit "founders"))
    with (Classifier.VString (lit "founder")).
  change (FormStatistics.getFormTypeFromCategory (lit "founderReferrals"))
    with (Classifier.VString (lit "founder referral")).
  change (FormStatistics.getFormTypeFromCategory (lit "searchers"))
    with (Classifier.VString (lit "searcher")).
  change (FormStatistics.getFormTypeFromCategory (lit "searcherReferrals"))
    with (Classifier.VString (lit "searcher referral")).
  repeat split; apply filter_ext; intros row;
    unfold FormStatistics.validateFormDataAs, Classifier.validateFormData,
      filled;
    rewrite <- ?nonBlank_hasContent.
  - reflexivity.
  - reflexivity.
  - reflexivity.
  - reflexivity.
Qed.

(** [filterValidForms] on the five entries of a categorization. *)
Lemma filterValidForms_entries (c : Classifier.Categories) :
  FormStatistics.filterValidForms (FormStatistics.entries c)
  = [ (lit "founders",
       FormStatistics.validForms (lit "founders") (Classifier.founders c));
      (lit "founderReferrals",
       FormStatistics.validForms (lit "founderReferrals")
         (Classifier.founderReferrals c));
      (lit "searchers",
       FormStatistics.validForms (lit "searchers") (Classifier.searchers c));
      (lit "searcherReferrals",
       FormStatistics.validForms (lit "searcherReferrals")
         (Classifier.searcherReferrals c)) ].
Proof. reflexivity. Qed.

(** [getFormStatistics] on an object with the four properties of valid
    forms. *)
Lemma getFormStatistics_four (f fr s sr : list Row) :
  let stats :=
    FormStatistics.getFormStatistics
      [ (lit "founders", f); (lit "founderReferrals", fr);
        (lit "searchers", s); (lit "searcherReferrals", sr) ] in
  FormStatistics.totalForms stats
  = List.length f + List.length fr + List.length s + List.length sr
  /\ FormStatistics.byType stats
     = [ (lit "founders",
          FormStatistics.mkTypeStatistics (List.length f)
            (List.length (FormStatistics.validForms (lit "founders") f))
            (List.length f
             - List.length (FormStatistics.validForms (lit "founders") f)));
         (lit "founderReferrals",
          FormStatistics.mkTypeStatistics (List.length fr)
            (List.length
               (FormStatistics.validForms (lit "founderReferrals") fr))
            (List.length fr
             - List.length
                 (FormStatistics.validForms (lit "founderReferrals") fr)));
         (lit "searchers",
          FormStatistics.mkTypeStatistics (List.length s)
            (List.length (FormStatistics.validForms (lit "searchers") s))
            (List.length s
             - List.length (FormStatistics.validForms (lit "searchers") s)));
         (lit "searcherReferrals",
          FormStatistics.mkTypeStatistics (List.length sr)
            (List.length
               (FormStatistics.validForms (lit "searcherReferrals") sr))
            (List.length sr
             - List.length
                 (FormStatistics.validForms (lit "searcherReferrals") sr))) ].
Proof. split; reflexivity. Qed.

Lemma valid_forms_passing (allRows : list Row) :
  FormStatistics.filterValidForms
    (FormStatistics.entries (Classifier.categorizeAllForms allRows))
  = [ (lit "founders", filter (passes FounderForm) allRows);
      (lit "founderReferrals", filter (passes FounderReferralForm) allRows);
      (lit "searchers", filter (passes SearcherForm) allRows);
      (lit "searcherReferrals",
       filter (passes SearcherReferralForm) allRows) ].
Proof.
  rewrite filterValidForms_entries.
  destruct (validForms_filled (Classifier.founders
                                 (Classifier.categorizeAllForms allRows)))
    as (-> & _).
  destruct (validForms_filled (Classifier.founderReferrals
                                 (Classifier.categorizeAllForms allRows)))
    as (_ & -> & _).
  destruct (validForms_filled (Classifier.searchers
                                 (Classifier.categorizeAllForms allRows)))
    as (_ & _ & -> & _).
  destruct (validForms_filled (Classifier.searcherReferrals
                                 (Classifier.categorizeAllForms allRows)))
    as (_ & _ & _ & ->).
  unfold Classifier.categorizeAllForms.
  pose proof (categorize_fold allRows Classifier.emptyCategories) as Hb.
  pose proof (Hb FounderForm) as H1. pose proof (Hb FounderReferralForm) as H2.
  pose proof (Hb SearcherForm) as H3.
  pose proof (Hb SearcherReferralForm) as H4.
  cbn [bucket Classifier.emptyCategories Classifier.founders
       Classifier.founderReferrals Classifier.searchers
       Classifier.searcherReferrals app] in H1, H2, H3, H4.
  rewrite H1, H2, H3, H4, !filter_filter. reflexivity.
Qed.

(** The four lists of valid forms share no row position: their sizes add
    up to at most the number of rows. *)
Lemma passing_count (rows : list Row) :
  List.length (filter (passes FounderForm) rows)
  + List.length (filter (passes FounderReferralForm) rows)
  + List.length (filter (passes SearcherForm) rows)
  + List.length (filter (passes SearcherReferralForm) rows)
  <= List.length rows.
Proof.
  induction rows as [|row rows IH]; [reflexivity|].
  cbn [filter List.length].
  set (f := filter (passes FounderForm) rows) in *.
  set (fr := filter (passes FounderReferralForm) rows) in *.
  set (s := filter (passes SearcherForm) rows) in *.
  set (sr := filter (passes SearcherReferralForm) rows) in *.
  unfold passes.
  destruct (category (Classifier.classifyFormType (Classifier.IsArray row)));
    cbn [Category_eqb andb];
    repeat match goal with
           | |- context [if ?b then _ else _] => destruct b
           end; cbn [List.length]; lia.
Qed.

(** X13. After [categorizeAllForms] and [filterValidForms], each of the four
    properties of the valid forms holds the rows of the input, in their
    order, that are classified in its category and fill the cells the
    category requires: column 73 for a founder, columns 4 and 9 for a
    founder referral, column 37 for a searcher, columns 18 and 22 for a
    searcher referral.  The rows of unknown type are dropped, and no row
    is kept twice. *)
Theorem filterValidForms_categorized (allRows : list Row) :
  let valid :=
    FormStatistics.filterValidForms
      (FormStatistics.entries (Classifier.categorizeAllForms allRows)) in
  valid
  = [ (lit "founders", filter (passes FounderForm) allRows);
      (lit "founderReferrals", filter (passes FounderReferralForm) allRows);
      (lit "searchers", filter (passes SearcherForm) allRows);
      (lit "searcherReferrals",
       filter (passes SearcherReferralForm) allRows) ]
  /\ List.length (FormStatistics.rowsOf valid (lit "founders"))
     + List.length (FormStatistics.rowsOf valid (lit "founderReferrals"))
     + List.length (FormStatistics.rowsOf valid (lit "searchers"))
     + List.length (FormStatistics.rowsOf valid (lit "searcherReferrals"))
     <= List.length allRows.
Proof.
  intros valid. subst valid. rewrite valid_forms_passing.
  split; [reflexivity|].
  change (FormStatistics.rowsOf _ (lit "founders"))
    with (filter (passes FounderForm) allRows).
  change (FormStatistics.rowsOf _ (lit "founderReferrals"))
    with (filter (passes FounderReferralForm) allRows).
  change (FormStatistics.rowsOf _ (lit "searchers"))
    with (filter (passes SearcherForm) allRows).
  change (FormStatistics.rowsOf _ (lit "searcherReferrals"))
    with (filter (passes SearcherReferralForm) allRows).
  apply passing_count.
Qed.

(** X14. [processFormData] throws "No data found in Google Sheets" exactly
    when there are no rows.  Otherwise the statistics it returns are those
    of the forms that are already filtered: in every category the number
    of valid forms is the total and the number of invalid forms is 0, and
    [totalForms] counts the valid forms only, so that it is at most the
    number of rows. *)
Theorem processFormData_statistics (sheetsData : option (list Row)) :
  match Orchestrator.processFormData sheetsData with
  | inl message =>
      message = lit "No data found in Google Sheets"
      /\ (sheetsData = None \/ sheetsData = Some [])
  | inr processed =>
      exists rows,
        sheetsData = Some rows /\ rows <> []
        /\ Orchestrator.raw processed = rows
        /\ Orchestrator.categorized processed
           = Classifier.categorizeAllForms rows
        /\ let f := filter (passes FounderForm) rows in
           let fr := filter (passes FounderReferralForm) rows in
           let s := filter (passes SearcherForm) rows in
           let sr := filter (passes SearcherReferralForm) rows in
           Orchestrator.valid processed
           = [ (lit "founders", f); (lit "founderReferrals", fr);
               (lit "searchers", s); (lit "searcherReferrals", sr) ]
           /\ FormStatistics.byType (Orchestrator.statistics processed)
              = [ (lit "founders", allValid (List.length f));
                  (lit "founderReferrals", allValid (List.length fr));
                  (lit "searchers", allValid (List.length s));
                  (lit "searcherReferrals", allValid (List.length sr)) ]
           /\ FormStatistics.totalForms (Orchestrator.statistics processed)
              = List.length f + List.length fr + List.length s
                + List.length sr
           /\ FormStatistics.totalForms (Orchestrator.statistics processed)
              <= List.length rows
  end.
Proof.
  unfold Orchestrator.processFormData.
  destruct sheetsData as [[|row rows']|]; cbn [List.length Nat.eqb].
  - split; [reflexivity|now right].
  - set (rows := row :: rows').
    exists rows. split; [reflexivity|]. split; [discriminate|].
    cbn [Orchestrator.raw Orchestrator.categorized Orchestrator.valid
         Orchestrator.statistics].
    split; [reflexivity|]. split; [reflexivity|].
    rewrite valid_forms_passing. cbv zeta.
    split; [reflexivity|].
    destruct (getFormStatistics_four (filter (passes FounderForm) rows)
                (filter (passes FounderReferralForm) rows)
                (filter (passes SearcherForm) rows)
                (filter (passes SearcherReferralForm) rows)) as [Ht Hb].
    cbv zeta in Ht, Hb. rewrite Ht, Hb.
    assert (forall c, passes c = fun row =>
              Category_eqb (category (Classifier.classifyFormType
                                        (Classifier.IsArray row))) c
              && filled c row) as Hp by reflexivity.
    destruct (validForms_filled (filter (passes FounderForm) rows))
      as (-> & _).
    destruct (validForms_filled (filter (passes FounderReferralForm) rows))
      as (_ & -> & _).
    destruct (validForms_filled (filter (passes SearcherForm) rows))
      as (_ & _ & -> & _).
    destruct (validForms_filled (filter (passes SearcherReferralForm) rows))
      as (_ & _ & _ & ->).
    assert (forall c, filter (filled c) (filter (passes c) rows)
                      = filter (passes c) rows) as Hf.
    { intros c. rewrite filter_filter. apply filter_ext. intros r.
      unfold passes. now destruct (Category_eqb _ c), (filled c r). }
    rewrite !Hf, !Nat.sub_diag.
    split; [reflexivity|]. split; [reflexivity|]. apply passing_count.
  - split; [reflexivity|now left].
Qed.

End ValidityFacts.

(* ================================================================== *)
(** ** Valid forms in the processors *)

Lemma hasContent_trim (c : option jsstring) :
  hasContent c = true -> trim (orEmpty c) <> [].
Proof.
  unfold hasContent. intros H. apply andb_true_iff in H.
  destruct H as [_ H]. now destruct (trim (orEmpty c)).
Qed.

Section PipelineFacts.
Context {B : Builtins}.
Variable World : Type.
Variable writePage : PageWriter World.

(** Every step of the founder loop is what [processSingleFounder] did for
    its row. *)
Lemma founder_steps_from (rows : list Row) :
  forall run : Founder.Run World,
  exists news,
    Founder.steps (fold_left (Founder.iteration writePage) rows run)
    = Founder.steps run ++ news
    /\ Forall (fun s =>
                 In (Founder.stepRow s) rows
                 /\ exists w m,
                      s = Founder.processSingleFounder writePage w m
                            (Founder.stepRow s)) news.
Proof.
  induction rows as [|row rows IH]; intros run; cbn [fold_left].
  - exists []. split; [now rewrite app_nil_r|constructor].
  - destruct (IH (Founder.iteration writePage run row)) as (news & Hs & Hall).
    destruct (iteration_fields World writePage run row) as (_ & _ & Hsteps).
    cbv zeta in Hsteps. rewrite Hsteps in Hs.
    exists (Founder.processSingleFounder writePage (Founder.world run)
              (Founder.mapping run) row :: news).
    split; [now rewrite Hs, <- app_assoc|].
    constructor.
    + rewrite processSingleFounder_row. split; [now left|].
      now exists (Founder.world run), (Founder.mapping run).
    + eapply Forall_impl; [|exact Hall]. cbv beta.
      intros s [Hin Hex]. split; [now right|exact Hex].
Qed.

(** The same for the searcher loop. *)
Lemma searcher_steps_from (referralRows rows : list Row) :
  forall run : Searcher.Run World,
  exists news,
    Searcher.steps
      (fold_left (Searcher.iteration writePage referralRows) rows run)
    = Searcher.steps run ++ news
    /\ Forall (fun s =>
                 In (Searcher.stepRow s) rows
                 /\ exists w ids,
                      s = Searcher.processSingleSearcher writePage w
                            referralRows ids (Searcher.stepRow s)) news.
Proof.
  induction rows as [|row rows IH]; intros run; cbn [fold_left].
  - exists []. split; [now rewrite app_nil_r|constructor].
  - destruct (IH (Searcher.iteration writePage referralRows run row))
      as (news & Hs & Hall).
    destruct (searcher_iteration_cases World writePage referralRows run row)
      as [Hsteps _].
    cbv zeta in Hsteps. rewrite Hsteps in Hs.
    exists (Searcher.processSingleSearcher writePage (Searcher.world run)
              referralRows (Searcher.matchedIds run) row :: news).
    split; [now rewrite Hs, <- app_assoc|].
    constructor.
    + destruct (processSingleSearcher_fields World writePage
                  (Searcher.world run) referralRows (Searcher.matchedIds run)
                  row) as [Hrow _].
      cbv zeta in Hrow. rewrite Hrow. split; [now left|].
      now exists (Searcher.world run), (Searcher.matchedIds run).
    + eapply Forall_impl; [|exact Hall]. cbv beta.
      intros s [Hin Hex]. split; [now right|exact Hex].
Qed.

(** X15. The rows [processFormData] hands to the processors never lack
    their name: for every valid founder form the step of the founder loop
    gets past the check of the startup name, prints its progress line,
    and reaches the page writer, which looks the page up under the title
    a new page would get; the same holds for every valid searcher form
    and the searcher name.  So the errors the two loops count for valid
    forms are errors of the page writer. *)
Theorem valid_forms_named (allRows : list Row) (w : World)
  (referralMapping : Founder.Index) (referralRows : list Row) :
  let valid :=
    FormStatistics.filterValidForms
      (FormStatistics.entries (Classifier.categorizeAllForms allRows)) in
  Forall (fun s =>
            let name := trim (orEmpty (cell (Founder.stepRow s) 73)) in
            name <> []
            /\ Founder.stepMatchedKey s <> None
            /\ In (Founder.logProcessing name) (Founder.stepLog s)
            /\ FounderProperties.pageTitle (Founder.stepRow s) = name
            /\ exists w0 matched,
                 Founder.stepCompletion s
                 = snd (writePage w0 name (Founder.stepRow s) matched))
         (Founder.steps
            (Founder.processFoundersFrom writePage w referralMapping
               (FormStatistics.rowsOf valid (lit "founders"))))
  /\ Forall (fun s =>
               let name := trim (orEmpty (cell (Searcher.stepRow s) 37)) in
               name <> []
               /\ In (Searcher.logProcessing name) (Searcher.stepLog s)
               /\ SearcherProperties.pageTitle (Searcher.stepRow s) = name
               /\ exists w0,
                    Searcher.stepCompletion s
                    = snd (writePage w0 name (Searcher.stepRow s)
                             (findMatchingReferrals name referralRows 22)))
            (Searcher.steps
               (Searcher.processSearchers writePage w
                  (FormStatistics.rowsOf valid (lit "searchers"))
                  referralRows)).
Proof.
  intros valid. subst valid. rewrite valid_forms_passing.
  change (FormStatistics.rowsOf _ (lit "founders"))
    with (filter (passes FounderForm) allRows).
  change (FormStatistics.rowsOf _ (lit "searchers"))
    with (filter (passes SearcherForm) allRows).
  split.
  - unfold Founder.processFoundersFrom.
    destruct (founder_steps_from (filter (passes FounderForm) allRows)
                (Founder.mkRun noResults referralMapping w [] []))
      as (news & Hs & Hall).
    cbn [Founder.steps app] in Hs. rewrite Hs.
    eapply Forall_impl; [|exact Hall]. cbv beta zeta.
    intros s (Hin & w0 & m & Hstep).
    apply filter_In in Hin. destruct Hin as [_ Hp].
    unfold passes in Hp. apply andb_true_iff in Hp. destruct Hp as [_ Hf].
    cbn [filled] in Hf. pose proof (hasContent_trim _ Hf) as Hne.
    destruct (processSingleFounder_named World writePage w0 m
                (Founder.stepRow s) Hne) as (_ & Hk & Hm & _ & Hc & Hl).
    rewrite <- Hstep in Hk, Hm, Hc, Hl.
    split; [exact Hne|]. split; [now rewrite Hk|]. split; [exact Hl|].
    split.
    + unfold FounderProperties.pageTitle.
      destruct (cell (Founder.stepRow s) 73) as [name|];
        [|now contradiction Hne].
      cbn [orEmpty] in *. now destruct (trim name).
    + eexists w0, _. exact Hc.
  - unfold Searcher.processSearchers.
    destruct (searcher_steps_from referralRows
                (filter (passes SearcherForm) allRows)
                (Searcher.mkRun noResults [] w [] []))
      as (news & Hs & Hall).
    cbn [Searcher.steps app] in Hs. rewrite Hs.
    eapply Forall_impl; [|exact Hall]. cbv beta zeta.
    intros s (Hin & w0 & ids & Hstep).
    apply filter_In in Hin. destruct Hin as [_ Hp].
    unfold passes in Hp. apply andb_true_iff in Hp. destruct Hp as [_ Hf].
    cbn [filled] in Hf. pose proof (hasContent_trim _ Hf) as Hne.
    destruct (processSingleSearcher_fields World writePage w0 referralRows
                ids (Searcher.stepRow s)) as [_ Hl].
    cbv zeta in Hl. rewrite <- Hstep in Hl.
    split; [exact Hne|]. split; [exact (Hl Hne)|]. split.
    + unfold SearcherProperties.pageTitle.
      destruct (cell (Searcher.stepRow s) 37) as [name|];
        [|now contradiction Hne].
      cbn [orEmpty] in *. now destruct (trim name).
    + exists w0. rewrite Hstep at 1.
      unfold Searcher.processSingleSearcher.
      destruct (trim (orEmpty (cell (Searcher.stepRow s) 37)))
        as [|c name] eqn:E; [now contradiction Hne|].
      cbn [truthy].
      destruct (writePage w0 (c :: name) (Searcher.stepRow s) _)
        as [[w' lines] completion].
      reflexivity.
Qed.

End PipelineFacts.

(* ================================================================== *)
(** ** The environment *)

(** X16. [validateEnvironment] returns exactly when the four required
    variables are set to non-empty values.  When it throws, the message
    lists the missing variables in the order of [REQUIRED_ENV_VARS]; the
    errors "Google Sheets environment validation failed" and "Notion
    environment validation failed" are never thrown, since the two later
    checks look at variables the first check has found. *)
Theorem validateEnvironment_missing (env : Environment.Env) :
  let missing := Environment.missingIn env Environment.REQUIRED_ENV_VARS in
  (Environment.validateEnvironment env = None
   <-> Forall (fun name => otruthy (env name) = true)
              Environment.REQUIRED_ENV_VARS)
  /\ (missing <> [] ->
      Environment.validateEnvironment env
      = Some (lit "Missing required environment variables: "
              ++ Validation.join (lit ", ") missing))
  /\ (missing = [] -> Environment.validateEnvironment env = None).
Proof.
  intros missing. subst missing.
  unfold Environment.validateEnvironment,
    Environment.validateGoogleSheetsEnvironment,
    Environment.validateNotionEnvironment, Environment.missingIn,
    Environment.REQUIRED_ENV_VARS.
  cbn [map filter].
  destruct (otruthy (env (lit "NOTION_API_KEY"))) eqn:E1;
    destruct (otruthy (env (lit "GAPI_SERVICE_ACCOUNT_KEY"))) eqn:E2;
    destruct (otruthy (env (lit "GOOGLE_SHEET_ID"))) eqn:E3;
    destruct (otruthy (env (lit "NOTION_DATABASE_ID"))) eqn:E4;
    cbn [negb List.length Nat.ltb Nat.leb];
    (split; [split|split]);
    try (intros H; discriminate H);
    try (intros _; reflexivity);
    try (intros H; now contradiction H);
    try (intros _; repeat constructor; assumption);
    try (intros H; exfalso;
         repeat match goal with
                | H : Forall _ (_ :: _) |- _ => inversion H; clear H; subst
                end; congruence).
Qed.

(* ================================================================== *)
(** ** Answers and their toggles *)

(** X17. The answer [addQuestionSection] shows for a question is never
    blank: [getFormResponse] returns the trimmed cell when the cell has
    content and "No response" otherwise, and [createQuoteToggle] gives
    the toggle exactly one quote, which holds that answer. *)
Theorem answer_toggle_quote (title : jsstring) (row : Row) (index : nat) :
  let answer :=
    TextUtils.getFormResponse row index TextUtils.defaultResponse in
  answer = (if hasContent (cell row index)
            then trim (orEmpty (cell row index))
            else lit "No response")
  /\ answer <> []
  /\ trim answer = answer
  /\ NotionService.quotes (NotionService.createQuoteToggle title answer)
     = [answer].
Proof.
  intros answer.
  assert (answer = (if hasContent (cell row index)
                    then trim (orEmpty (cell row index))
                    else lit "No response")) as Ha.
  { subst answer. unfold TextUtils.getFormResponse, hasContent.
    destruct (otruthy (cell row index)); [|reflexivity]. cbn [andb].
    now destruct (0 <? List.length (trim (orEmpty (cell row index))))%nat. }
  assert (answer <> [] /\ trim answer = answer) as [Hne Ht].
  { rewrite Ha. destruct (hasContent (cell row index)) eqn:E.
    - split; [|apply trim_idempotent].
      unfold hasContent in E. apply andb_true_iff in E.
      destruct E as [_ E]. now destruct (trim (orEmpty (cell row index))).
    - split; [discriminate|reflexivity]. }
  split; [exact Ha|]. split; [exact Hne|]. split; [exact Ht|].
  unfold NotionService.createQuoteToggle. cbn [NotionService.quotes].
  rewrite Ht. destruct answer as [|c answer']; [contradiction|].
  cbn [truthy andb].
  destruct (jsstring_eqb (c :: answer') []) eqn:E; [|reflexivity].
  apply jsstring_eqb_eq in E. discriminate.
Qed.

(* ================================================================== *)
(** ** Truncation *)

(** X18. [truncateText] returns the text itself when it is empty or no
    longer than [maxLength], and otherwise its first [maxLength - 3] code
    units followed by three dots.  The result is at most [maxLength] code
    units long when [maxLength] is at least 3; below 3, a longer text is
    cut to the three dots alone, which exceeds [maxLength]. *)
Theorem truncateText_length (text : jsstring) (maxLength : Z) :
  let result := TextUtils.truncateText text maxLength in
  (text = [] \/ (Z.of_nat (List.length text) <= maxLength)%Z ->
   result = text)
  /\ (text <> [] -> (maxLength < Z.of_nat (List.length text))%Z ->
      result = firstn (Z.to_nat (maxLength - 3)) text ++ lit "..."
      /\ Z.of_nat (List.length result) = Z.max maxLength 3)
  /\ (Z.of_nat (List.length result) <= Z.max maxLength 3)%Z.
Proof.
  intros result. subst result. unfold TextUtils.truncateText.
  destruct text as [|c text'].
  - cbn. split; [reflexivity|]. split; [congruence|lia].
  - cbn [truthy negb orb]. set (text := c :: text') in *.
    destruct (Z.of_nat (List.length text) <=? maxLength)%Z eqn:E.
    + apply Z.leb_le in E. split; [reflexivity|]. split; [lia|lia].
    + apply Z.leb_gt in E.
      assert (TextUtils.substring text 0 (maxLength - 3)
              = firstn (Z.to_nat (maxLength - 3)) text) as Hs.
      { unfold TextUtils.substring. cbv zeta.
        rewrite Z.max_id, (Z.min_l 0) by lia.
        destruct (Z.le_gt_cases (maxLength - 3) 0) as [Hle|Hgt].
        - rewrite (Z.max_r (maxLength - 3) 0) by lia.
          rewrite (Z.min_l 0) by lia. rewrite Z.min_id, Z.max_id.
          replace (Z.to_nat (maxLength - 3)) with 0 by lia. reflexivity.
        - rewrite (Z.max_l (maxLength - 3) 0) by lia.
          rewrite (Z.min_l (maxLength - 3)) by lia.
          rewrite (Z.min_l 0) by lia. rewrite Z.max_r by lia.
          rewrite Z.sub_0_r. reflexivity. }
      rewrite Hs.
      assert (Z.of_nat (List.length (firstn (Z.to_nat (maxLength - 3)) text
                                     ++ lit "..."))
              = Z.max maxLength 3) as Hl.
      { rewrite length_app, length_firstn.
        change (List.length (lit "...")) with 3. lia. }
      split; [intros [H|H]; [discriminate H|lia]|].
      split; [intros _ _; split; [reflexivity|exact Hl]|].
      rewrite Hl. lia.
Qed.

(* ================================================================== *)
(** ** White space *)

Lemma spaced_weaken (s : jsstring) :
  spaced true s = true -> spaced false s = true.
Proof.
  destruct s as [|c s]; simpl; [reflexivity|].
  destruct (isWhiteSpace c); [|exact (fun H => H)].
  rewrite andb_false_r. discriminate.
Qed.

Lemma spaced_collapse (s : jsstring) :
  forall b, spaced b (TextUtils.collapseSpaceFrom b s) = true.
Proof.
  induction s as [|c s IH]; intros b; simpl; [reflexivity|].
  destruct (isWhiteSpace c) eqn:E.
  - destruct b; [apply IH|]. simpl. apply IH.
  - simpl. rewrite E. apply IH.
Qed.

Lemma collapse_fixed (s : jsstring) :
  forall b, spaced b s = true -> TextUtils.collapseSpaceFrom b s = s.
Proof.
  induction s as [|c s IH]; intros b H; simpl in *; [reflexivity|].
  destruct (isWhiteSpace c) eqn:E.
  - apply andb_true_iff in H. destruct H as [H Hs].
    apply andb_true_iff in H. destruct H as [Hc Hb].
    apply N.eqb_eq in Hc. destruct b; [discriminate|].
    subst c. f_equal. exact (IH _ Hs).
  - f_equal. exact (IH _ H).
Qed.

Lemma spaced_trimStart (s : jsstring) :
  forall b, spaced b s = true -> spaced true (trimStart s) = true.
Proof.
  induction s as [|c s IH]; intros b H; simpl in *; [reflexivity|].
  destruct (isWhiteSpace c) eqn:E.
  - apply andb_true_iff in H. destruct H as [_ Hs]. exact (IH _ Hs).
  - simpl. now rewrite E.
Qed.

Lemma spaced_trimEnd (s : jsstring) :
  forall b, spaced b s = true -> spaced b (trimEnd s) = true.
Proof.
  induction s as [|c s IH]; intros b H; [reflexivity|].
  change (trimEnd (c :: s))
    with (match trimEnd s with
          | [] => if isWhiteSpace c then [] else [c]
          | t => c :: t
          end).
  simpl in H. destruct (isWhiteSpace c) eqn:E.
  - apply andb_true_iff in H. destruct H as [H Hs].
    specialize (IH _ Hs).
    destruct (trimEnd s) as [|d t]; [reflexivity|].
    simpl. simpl in IH. now rewrite E, H.
  - specialize (IH _ H).
    destruct (trimEnd s) as [|d t]; simpl; rewrite E; [reflexivity|].
    exact IH.
Qed.

Lemma spaced_no_line_feed (s : jsstring) :
  forall b, spaced b s = true -> ~ In 10%N s.
Proof.
  induction s as [|c s IH]; intros b H; simpl in *; [tauto|].
  destruct (isWhiteSpace c) eqn:E.
  - apply andb_true_iff in H. destruct H as [H Hs].
    apply andb_true_iff in H. destruct H as [Hc _].
    apply N.eqb_eq in Hc. subst c.
    intros [Habs|Hin]; [discriminate|exact (IH _ Hs Hin)].
  - intros [Habs|Hin]; [subst c; discriminate|exact (IH _ H Hin)].
Qed.

(** Without a line feed there is no empty line to remove. *)
Lemma removeEmptyLines_fixed (s : jsstring) :
  ~ In 10%N s -> TextUtils.removeEmptyLines s = s.
Proof.
  unfold TextUtils.removeEmptyLines.
  generalize (List.length s) as fuel. intros fuel. revert s.
  induction fuel as [|fuel IH]; intros s H; [reflexivity|].
  destruct s as [|c s]; [reflexivity|]. cbn [TextUtils.removeEmptyLinesFrom].
  destruct (c =? 10)%N eqn:E.
  - apply N.eqb_eq in E. exfalso. apply H. now left.
  - f_equal. apply IH. intros Hin. apply H. now right.
Qed.

(** X19. [cleanWhitespace] turns every run of white space into one space and
    trims the ends: in the result the only white space is the space, no
    two spaces are adjacent, and none stands at either end.  The
    replacement of empty lines never applies, since no line feed is left
    when it runs.  Cleaning twice is cleaning once. *)
Theorem cleanWhitespace_spaced (text : jsstring) :
  let result := TextUtils.cleanWhitespace text in
  result = trim (TextUtils.collapseSpaceFrom false text)
  /\ spaced true result = true
  /\ trim result = result
  /\ TextUtils.cleanWhitespace result = result.
Proof.
  intros result.
  assert (result = trim (TextUtils.collapseSpaceFrom false text)) as Hr.
  { subst result. unfold TextUtils.cleanWhitespace.
    destruct text as [|c text]; [reflexivity|]. cbn [truthy].
    rewrite removeEmptyLines_fixed; [reflexivity|].
    exact (spaced_no_line_feed _ _ (spaced_collapse _ false)). }
  assert (spaced true result = true) as Hs.
  { rewrite Hr. unfold trim.
    apply spaced_trimEnd, (spaced_trimStart _ false), spaced_collapse. }
  assert (trim result = result) as Ht by (rewrite Hr; apply trim_idempotent).
  split; [exact Hr|]. split; [exact Hs|]. split; [exact Ht|].
  unfold TextUtils.cleanWhitespace.
  destruct result as [|c result'] eqn:E; [reflexivity|]. cbn [truthy].
  rewrite <- E in *.
  rewrite (collapse_fixed _ false (spaced_weaken _ Hs)).
  rewrite removeEmptyLines_fixed; [exact Ht|].
  exact (spaced_no_line_feed _ _ Hs).
Qed.

(* ================================================================== *)
(** ** Slugs *)

Lemma hyphened_hyphenate (s : jsstring) :
  forall b, hyphened b (TextUtils.hyphenateFrom b s) = true.
Proof.
  induction s as [|c s IH]; intros b; simpl; [reflexivity|].
  destruct (alnum c) eqn:E.
  - simpl. rewrite E. apply IH.
  - destruct b; [apply IH|].
    simpl. replace (alnum 45) with false by reflexivity. apply IH.
Qed.

Lemma hyphened_weaken (s : jsstring) :
  hyphened true s = true -> hyphened false s = true.
Proof.
  destruct s as [|c s]; simpl; [reflexivity|].
  destruct (alnum c); [exact (fun H => H)|].
  rewrite andb_false_r. discriminate.
Qed.

Lemma hyphened_dropLeading (s : jsstring) :
  forall b, hyphened b s = true ->
            hyphened true (TextUtils.dropLeadingHyphens s) = true.
Proof.
  induction s as [|c s IH]; intros b H; [reflexivity|].
  cbn [hyphened TextUtils.dropLeadingHyphens] in *.
  destruct (c =? 45)%N eqn:E.
  - apply N.eqb_eq in E. subst c.
    replace (alnum 45) with false in H by reflexivity.
    apply andb_true_iff in H. destruct H as [_ Hs]. exact (IH _ Hs).
  - cbn [hyphened]. destruct (alnum c); [exact H|]. discriminate H.
Qed.

Lemma hyphened_dropTrailing (s : jsstring) :
  forall b, hyphened b s = true ->
            hyphened b (TextUtils.dropTrailingHyphens s) = true.
Proof.
  induction s as [|c s IH]; intros b H; [reflexivity|].
  change (TextUtils.dropTrailingHyphens (c :: s))
    with (match TextUtils.dropTrailingHyphens s with
          | [] => if (c =? 45)%N then [] else [c]
          | t => c :: t
          end).
  cbn [hyphened] in H. destruct (alnum c) eqn:E.
  - specialize (IH _ H).
    destruct (TextUtils.dropTrailingHyphens s) as [|d t].
    + destruct (c =? 45)%N; [reflexivity|]. cbn [hyphened]. now rewrite E.
    + cbn [hyphened] in IH |- *. rewrite E. exact IH.
  - apply andb_true_iff in H. destruct H as [H Hs].
    specialize (IH _ Hs).
    destruct (TextUtils.dropTrailingHyphens s) as [|d t].
    + destruct (c =? 45)%N eqn:E45; [reflexivity|]. discriminate H.
    + cbn [hyphened] in IH |- *. rewrite E, H. exact IH.
Qed.

Lemma hyphened_firstn (n : nat) (s : jsstring) :
  forall b, hyphened b s = true -> hyphened b (firstn n s) = true.
Proof.
  revert s. induction n as [|n IH]; intros s b H; [reflexivity|].
  destruct s as [|c s]; [reflexivity|]. cbn [hyphened firstn] in *.
  destruct (alnum c); [exact (IH _ _ H)|].
  apply andb_true_iff in H. destruct H as [H Hs].
  rewrite H. exact (IH _ _ Hs).
Qed.

Lemma hyphened_chars (s : jsstring) :
  forall b, hyphened b s = true ->
            Forall (fun c => alnum c = true \/ c = 45%N) s.
Proof.
  induction s as [|c s IH]; intros b H; [constructor|].
  cbn [hyphened] in H. destruct (alnum c) eqn:E.
  - constructor; [left; exact E|exact (IH _ H)].
  - apply andb_true_iff in H. destruct H as [H Hs].
    apply andb_true_iff in H. destruct H as [Hc _].
    apply N.eqb_eq in Hc. constructor; [right; exact Hc|exact (IH _ Hs)].
Qed.

Lemma substring_firstn (s : jsstring) (n : nat) :
  TextUtils.substring s 0 (Z.of_nat n) = firstn n s.
Proof.
  unfold TextUtils.substring. cbv zeta.
  rewrite Z.max_id, (Z.min_l 0) by lia.
  rewrite (Z.max_l (Z.of_nat n) 0) by lia.
  rewrite (Z.min_l 0) by lia.
  rewrite (Z.max_r 0) by lia. rewrite Z.sub_0_r.
  replace (Z.to_nat 0) with 0 by reflexivity. cbn [skipn].
  destruct (Z.le_gt_cases (Z.of_nat n) (Z.of_nat (List.length s)))
    as [Hle|Hgt].
  - rewrite Z.min_l by lia. now rewrite Nat2Z.id.
  - rewrite Z.min_r by lia. rewrite Nat2Z.id.
    rewrite !firstn_all2; [reflexivity|lia|lia].
Qed.

Section SlugFacts.
Context {B : Builtins}.

(** X20. A slug [generateSlug] returns is at most 50 code units long,
    consists of lower-case ASCII letters, digits and hyphens, does not
    start with a hyphen, and holds no two adjacent hyphens, whatever the
    text. *)
Theorem generateSlug_shape (text : jsstring) :
  let slug := TextUtils.generateSlug text in
  List.length slug <= 50
  /\ hyphened true slug = true
  /\ Forall (fun c => alnum c = true \/ c = 45%N) slug.
Proof.
  intros slug.
  assert (List.length slug <= 50 /\ hyphened true slug = true) as [Hl Hh].
  { subst slug. unfold TextUtils.generateSlug.
    destruct (truthy text); [|split; [simpl; lia|reflexivity]].
    change 50%Z with (Z.of_nat 50). rewrite substring_firstn.
    split; [apply firstn_le_length|].
    apply hyphened_firstn, hyphened_dropTrailing.
    apply (hyphened_dropLeading _ false), hyphened_hyphenate. }
  split; [exact Hl|]. split; [exact Hh|].
  exact (hyphened_chars _ _ Hh).
Qed.

End SlugFacts.

(* ================================================================== *)
(** ** Matching two strings *)

(** The edit distance is symmetric. *)
Lemma distance_sym (a : jsstring) :
  forall b, Levenshtein.distance a b = Levenshtein.distance b a.
Proof.
  induction a as [|x a IHa]; intros b.
  - now rewrite distance_nil_r.
  - induction b as [|y b IHb].
    + now rewrite distance_nil_r.
    + rewrite !distance_cons.
      rewrite (IHa (y :: b)), IHb, (IHa b), (N.eqb_sym x y).
      f_equal. apply Nat.min_comm.
Qed.

Section StringMatchFacts.
Context {B : Builtins}.

(** X21. [isStringMatch] is symmetric in its two strings, and it is the test
    [findBestMatch] applies: the candidate [findBestMatch] returns matches
    the target, and [findBestMatch] returns no candidate exactly when none
    of them matches the target. *)
Theorem isStringMatch_findBestMatch (target : jsstring)
  (candidates : list jsstring) (maxDistance : Z) :
  (forall str1 str2,
      MatchingUtils.isStringMatch str1 str2 maxDistance
      = MatchingUtils.isStringMatch str2 str1 maxDistance)
  /\ (forall candidate,
         findBestMatch target candidates maxDistance = Some candidate ->
         In candidate candidates
         /\ MatchingUtils.isStringMatch target candidate maxDistance = true)
  /\ (findBestMatch target candidates maxDistance = None
      <-> forall candidate,
            In candidate candidates ->
            MatchingUtils.isStringMatch target candidate maxDistance
            = false).
Proof.
  assert (forall c, target <> [] -> c <> [] ->
            MatchingUtils.isStringMatch target c maxDistance
            = (Z.of_nat (scoreOf target c) <=? maxDistance)%Z) as Hscore.
  { intros c Ht Hc. unfold MatchingUtils.isStringMatch, scoreOf.
    destruct target; [contradiction|]. destruct c; [contradiction|].
    reflexivity. }
  split; [|split].
  - intros str1 str2. unfold MatchingUtils.isStringMatch.
    rewrite (distance_sym (normalizeText (Some str1))).
    now destruct (truthy str1), (truthy str2).
  - intros candidate H.
    destruct target as [|t0 target']; [discriminate H|].
    pose proof (findBestMatch_scores (t0 :: target') candidates maxDistance
                  ltac:(discriminate)) as Hs.
    rewrite H in Hs. destruct Hs as [HL Hle].
    pose proof (firstLeast_In _ _ _ HL) as Hin.
    apply filter_In in Hin. destruct Hin as [Hin Ht].
    split; [exact Hin|].
    rewrite Hscore; [now apply Z.leb_le|discriminate|].
    now destruct candidate.
  - destruct target as [|t0 target'].
    + split; [intros _ candidate _; reflexivity|reflexivity].
    + pose proof (findBestMatch_scores (t0 :: target') candidates
                    maxDistance ltac:(discriminate)) as Hs.
      destruct (findBestMatch (t0 :: target') candidates maxDistance)
        as [r|].
      * destruct Hs as [HL Hle].
        pose proof (firstLeast_In _ _ _ HL) as Hin.
        apply filter_In in Hin. destruct Hin as [Hin Ht].
        split; [discriminate|]. intros H. specialize (H r Hin).
        rewrite Hscore in H; [|discriminate|now destruct r].
        apply Z.leb_gt in H. lia.
      * split; [|reflexivity]. intros _ candidate Hin.
        destruct candidate as [|c0 candidate'];
          [reflexivity|].
        rewrite Hscore; [|discriminate|discriminate].
        apply Z.leb_gt. apply Hs. apply filter_In. now split.
Qed.

End StringMatchFacts.

(* ================================================================== *)
(** ** Patterns *)

Import Regex.

Lemma Matches_Cat_inv (r s : regex) (w : jsstring) :
  Matches (Cat r s) w ->
  exists u v, w = u ++ v /\ Matches r u /\ Matches s v.
Proof. intros H. inversion H; subst. now exists u, v. Qed.

Lemma Matches_Alt_inv (r s : regex) (w : jsstring) :
  Matches (Alt r s) w -> Matches r w \/ Matches s w.
Proof. intros H. inversion H; subst; tauto. Qed.

(** A non-empty match of a repetition starts with a non-empty match of its
    body. *)
Lemma Matches_Star_cons (r : regex) (c : N) (w : jsstring) :
  Matches (Star r) (c :: w) ->
  exists u v, w = u ++ v /\ Matches r (c :: u) /\ Matches (Star r) v.
Proof.
  intros H. remember (Star r) as R eqn:ER. remember (c :: w) as cw eqn:Ew.
  revert c w Ew.
  induction H as [| | | | | r0|r0 u v Hu _ Hv IHv]; intros c0 w0 Ew;
    try discriminate ER.
  - discriminate Ew.
  - injection ER as ->.
    destruct u as [|x u].
    + exact (IHv eq_refl c0 w0 Ew).
    + injection Ew as Hx Hw. subst x w0. now exists u, v.
Qed.

Lemma nullable_spec (r : regex) : nullable r = true <-> Matches r [].
Proof.
  induction r as [| |p|r IHr s IHs|r IHr s IHs|r IHr]; simpl.
  - split; [discriminate|]. intros H. inversion H.
  - split; [intros _; constructor|reflexivity].
  - split; [discriminate|]. intros H. inversion H.
  - rewrite andb_true_iff, IHr, IHs. split.
    + intros [Hr Hs]. exact (@MCat r s [] [] Hr Hs).
    + intros H. apply Matches_Cat_inv in H.
      destruct H as (u & v & Huv & Hu & Hv).
      symmetry in Huv. apply app_eq_nil in Huv. destruct Huv as [-> ->].
      now split.
  - rewrite orb_true_iff, IHr, IHs. split.
    + intros [H|H]; [now apply MAltL|now apply MAltR].
    + apply Matches_Alt_inv.
  - split; [intros _; constructor|reflexivity].
Qed.

Lemma derivative_spec (r : regex) :
  forall c w, Matches (derivative c r) w <-> Matches r (c :: w).
Proof.
  induction r as [| |p|r IHr s IHs|r IHr s IHs|r IHr]; intros c w; simpl.
  - split; intros H; inversion H.
  - split; intros H; inversion H.
  - destruct (p c) eqn:E; split; intros H; inversion H; subst.
    + now constructor.
    + constructor.
    + congruence.
  - assert (Matches (Cat (derivative c r) s) w
            <-> exists u v, w = u ++ v /\ Matches r (c :: u) /\ Matches s v)
      as Hcat.
    { split.
      - intros H. apply Matches_Cat_inv in H.
        destruct H as (u & v & -> & Hu & Hv).
        exists u, v. split; [reflexivity|]. split; [now apply IHr|exact Hv].
      - intros (u & v & -> & Hu & Hv).
        apply MCat; [now apply IHr|exact Hv]. }
    assert (Matches (Cat r s) (c :: w)
            <-> (exists u v, w = u ++ v /\ Matches r (c :: u) /\ Matches s v)
                \/ (Matches r [] /\ Matches s (c :: w))) as Hfull.
    { split.
      - intros H. apply Matches_Cat_inv in H.
        destruct H as (u & v & Huv & Hu & Hv).
        destruct u as [|x u].
        + right. simpl in Huv. subst v. now split.
        + left. injection Huv as -> ->. now exists u, v.
      - intros [(u & v & -> & Hu & Hv)|[Hr Hs]].
        + exact (@MCat r s (c :: u) v Hu Hv).
        + exact (@MCat r s [] (c :: w) Hr Hs). }
    rewrite Hfull.
    destruct (nullable r) eqn:En.
    + split.
      * intros H. apply Matches_Alt_inv in H. destruct H as [H|H].
        -- left. now apply Hcat.
        -- right. split; [now apply nullable_spec|now apply IHs].
      * intros [H|[_ H]]; [apply MAltL; now apply Hcat
                          |apply MAltR; now apply IHs].
    + rewrite Hcat. split; [now left|].
      intros [H|[H _]]; [exact H|].
      apply nullable_spec in H. congruence.
  - split.
    + intros H. apply Matches_Alt_inv in H.
      destruct H as [H|H]; [apply MAltL; now apply IHr
                           |apply MAltR; now apply IHs].
    + intros H. apply Matches_Alt_inv in H.
      destruct H as [H|H]; [apply MAltL; now apply IHr
                           |apply MAltR; now apply IHs].
  - split.
    + intros H. apply Matches_Cat_inv in H.
      destruct H as (u & v & -> & Hu & Hv).
      exact (@MStarCons r (c :: u) v (proj1 (IHr c u) Hu) Hv).
    + intros H. apply Matches_Star_cons in H.
      destruct H as (u & v & -> & Hu & Hv).
      apply MCat; [now apply IHr|exact Hv].
Qed.

(** The test of a pattern decides its language. *)
Lemma test_spec (s : jsstring) :
  forall r, test r s = true <-> Matches r s.
Proof.
  unfold test. induction s as [|c s IH]; intros r; cbn [fold_left].
  - apply nullable_spec.
  - rewrite IH. apply derivative_spec.
Qed.

Lemma Matches_Star_Class (p : N -> bool) (s : jsstring) :
  Matches (Star (Class p)) s <-> forallb p s = true.
Proof.
  split.
  - induction s as [|c s IH]; intros H; [reflexivity|].
    apply Matches_Star_cons in H. destruct H as (u & v & -> & Hu & Hv).
    inversion Hu; subst. simpl.
    apply andb_true_iff. split; [assumption|]. now apply IH.
  - induction s as [|c s IH]; intros H; [constructor|].
    simpl in H. apply andb_true_iff in H. destruct H as [Hc Hs].
    exact (@MStarCons (Class p) [c] s (@MClass p c Hc) (IH Hs)).
Qed.

Lemma Matches_Plus_Class (p : N -> bool) (s : jsstring) :
  Matches (Plus (Class p)) s <-> s <> [] /\ forallb p s = true.
Proof.
  unfold Plus. split.
  - intros H. apply Matches_Cat_inv in H.
    destruct H as (u & v & -> & Hu & Hv).
    inversion Hu; subst. apply Matches_Star_Class in Hv.
    split; [discriminate|]. simpl. now apply andb_true_iff.
  - intros [Hne H]. destruct s as [|c s]; [contradiction|].
    simpl in H. apply andb_true_iff in H. destruct H as [Hc Hs].
    apply (@MCat (Class p) (Star (Class p)) [c] s);
      [now constructor|now apply Matches_Star_Class].
Qed.

Lemma Matches_Class_one (c : N) (s : jsstring) :
  Matches (Class (fun x => x =? c)%N) s <-> s = [c].
Proof.
  split.
  - intros H. inversion H as [|p x Hx| | | | |]; subst.
    apply N.eqb_eq in Hx. now subst.
  - intros ->. constructor. apply N.eqb_refl.
Qed.

(** The language of the e-mail pattern. *)
Lemma emailRegex_spec (address : jsstring) :
  test TextUtils.emailRegex address = true <-> addressShape address.
Proof.
  rewrite test_spec. unfold TextUtils.emailRegex, addressShape. split.
  - intros H.
    apply Matches_Cat_inv in H. destruct H as (l & w1 & -> & Hl & H).
    apply Matches_Cat_inv in H. destruct H as (a & w2 & -> & Ha & H).
    apply Matches_Cat_inv in H. destruct H as (d & w3 & -> & Hd & H).
    apply Matches_Cat_inv in H. destruct H as (o & t & -> & Ho & Ht).
    apply Matches_Class_one in Ha, Ho. subst a o.
    apply Matches_Plus_Class in Hl, Hd, Ht.
    destruct Hl as [Hl1 Hl2], Hd as [Hd1 Hd2], Ht as [Ht1 Ht2].
    exists l, d, t. repeat split; try assumption.
    now rewrite !forallb_app, Hl2, Hd2, Ht2.
  - intros (l & d & t & -> & Hl & Hd & Ht & Hall).
    rewrite !forallb_app, !andb_true_iff in Hall.
    destruct Hall as (Hl2 & Hd2 & Ht2).
    apply MCat; [now apply Matches_Plus_Class|].
    apply MCat; [now apply Matches_Class_one|].
    apply MCat; [now apply Matches_Plus_Class|].
    apply MCat; [now apply Matches_Class_one|].
    now apply Matches_Plus_Class.
Qed.

(** X22. [validateEmail] accepts a cell exactly when its trimmed text splits
    into three parts, with an at sign after the first and a dot after the
    second, where no part is empty and none holds white space or an at
    sign; it returns the trimmed text.  The parts after the at sign may
    hold further dots, so an address may end with a dot.  [isValidEmail]
    of the text utilities accepts the same strings. *)
Theorem validateEmail_shape (email : option jsstring) (address : jsstring) :
  (Validation.validateEmail email = Some address
   <-> otruthy email = true
       /\ address = trim (orEmpty email)
       /\ addressShape address)
  /\ (TextUtils.isValidEmail (orEmpty email) = true
      <-> Validation.validateEmail email <> None)
  /\ Validation.validateEmail (Some (lit "x@a.b.")) = Some (lit "x@a.b.")
  /\ Validation.validateEmail (Some (lit "x@a..")) = Some (lit "x@a..")
  /\ Validation.validateEmail (Some (lit "x@.a")) = None
  /\ Validation.validateEmail (Some (lit "x@a.")) = None.
Proof.
  assert ((Validation.validateEmail email = Some address
           <-> otruthy email = true
               /\ address = trim (orEmpty email)
               /\ addressShape address)
          /\ (TextUtils.isValidEmail (orEmpty email) = true
              <-> Validation.validateEmail email <> None)) as [Hshape Hsame].
  {
    unfold Validation.validateEmail, TextUtils.isValidEmail.
    assert (truthy (orEmpty email) = otruthy email) as ->
      by (now destruct email as [[|]|]).
    destruct (otruthy email).
    - destruct (test TextUtils.emailRegex (trim (orEmpty email))) eqn:E.
      + apply emailRegex_spec in E. split.
        * split.
          -- intros H. injection H as <-. now repeat split.
          -- intros (_ & -> & _). reflexivity.
        * split; [discriminate|reflexivity].
      + split.
        * split; [discriminate|].
          intros (_ & -> & H). apply emailRegex_spec in H. congruence.
        * split; [discriminate|]. intros H. now contradiction H.
    - split.
      + split; [discriminate|]. intros (H & _). discriminate H.
      + split; [discriminate|]. intros H. now contradiction H.
  }
  split; [exact Hshape|]. split; [exact Hsame|].
  repeat split; vm_compute; reflexivity.
Qed.

(** X23. [validatePhone] accepts a cell exactly when its trimmed text has at
    least 7 code units, all of them digits, white space, or one of the
    characters [- + ( ) .]; it returns the trimmed text.  No digit is
    required. *)
Theorem validatePhone_shape (phone : option jsstring) (number : jsstring) :
  Validation.validatePhone phone = Some number
  <-> otruthy phone = true
      /\ number = trim (orEmpty phone)
      /\ 7 <= List.length number
      /\ forallb Validation.phoneChar number = true.
Proof.
  unfold Validation.validatePhone.
  destruct (otruthy phone);
    [|split; [discriminate|intros (H & _); discriminate H]].
  set (phoneStr := trim (orEmpty phone)).
  destruct (test Validation.phoneRegex phoneStr) eqn:E.
  - apply test_spec, Matches_Plus_Class in E. destruct E as [Hne Hall].
    destruct (7 <=? List.length phoneStr)%nat eqn:El; cbn [andb].
    + apply Nat.leb_le in El. split.
      * intros H. injection H as <-. now repeat split.
      * intros (_ & -> & _). reflexivity.
    + apply Nat.leb_gt in El. split; [discriminate|].
      intros (_ & -> & H & _). lia.
  - cbn [andb]. split; [discriminate|].
    intros (_ & -> & Hl & Hall).
    assert (test Validation.phoneRegex phoneStr = true) as Ht.
    { apply test_spec, Matches_Plus_Class. split; [|exact Hall].
      intros Hn. fold phoneStr in Hl. rewrite Hn in Hl. simpl in Hl. lia. }
    congruence.
Qed.

(* ================================================================== *)
(** ** Duplicate toggles *)

Lemma filter_none {A : Type} (f : A -> bool) (l : list A) :
  (forall x, In x l -> f x = false) -> filter f l = [].
Proof.
  induction l as [|x l IH]; intros H; [reflexivity|].
  simpl. rewrite (H x (or_introl eq_refl)). apply IH.
  intros y Hy. apply H. now right.
Qed.

Lemma NoDup_map_injective {A C : Type} (f : A -> C) (l : list A) (x y : A) :
  NoDup (map f l) -> In x l -> In y l -> f x = f y -> x = y.
Proof.
  induction l as [|a l IH]; intros Hnd Hx Hy Hf; [contradiction|].
  simpl in Hnd. inversion Hnd as [|? ? Hnotin Hnd']; subst.
  destruct Hx as [->|Hx], Hy as [->|Hy].
  - reflexivity.
  - exfalso. apply Hnotin. rewrite Hf. now apply in_map.
  - exfalso. apply Hnotin. rewrite <- Hf. now apply in_map.
  - now apply IH.
Qed.

Lemma NoDup_map_filter {A C : Type} (f : A -> C) (p : A -> bool)
  (l : list A) :
  NoDup (map f l) -> NoDup (map f (filter p l)).
Proof.
  induction l as [|a l IH]; intros Hnd; [constructor|].
  simpl in Hnd. inversion Hnd as [|? ? Hnotin Hnd']; subst.
  simpl. destruct (p a); [|now apply IH].
  simpl. constructor; [|now apply IH].
  intros Hin. apply Hnotin. apply in_map_iff in Hin.
  destruct Hin as (x & Hx & Hin). apply filter_In in Hin.
  rewrite <- Hx. apply in_map. tauto.
Qed.

Lemma isToggleTitled_title (t t' : jsstring) (b : NotionService.Block) :
  NotionService.isToggleTitled t b = true ->
  NotionService.isToggleTitled t' b = true -> t = t'.
Proof.
  unfold NotionService.isToggleTitled.
  destruct (jsstring_eqb (NotionService.blockType b) (lit "toggle"));
    [|discriminate].
  destruct (NotionService.toggleTitle b) as [content|]; [|discriminate].
  cbn [andb]. intros H H'. apply jsstring_eqb_eq in H, H'. congruence.
Qed.

(** X24. [removeDuplicateToggles] archives, for each of the titles, every
    toggle with that title but the first one in the list of children: after
    it, exactly the first toggle of each title is left; a block that is not
    a toggle with one of the titles is never archived.  Without a parent or
    without titles nothing is archived. *)
Theorem removeDuplicateToggles_keeps_first (parentId : jsstring)
  (titles : list jsstring) (children : list NotionService.Block) :
  parentId <> [] ->
  NoDup (map NotionService.blockId children) ->
  let archived :=
    NotionService.removeDuplicateToggles parentId titles children in
  (forall title,
      In title titles ->
      filter (fun b => NotionService.isToggleTitled title b
                       && negb (archivedIn archived b)) children
      = firstn 1 (filter (NotionService.isToggleTitled title) children))
  /\ (forall b,
         In b children -> archivedIn archived b = true ->
         exists title, In title titles
                       /\ NotionService.isToggleTitled title b = true)
  /\ NotionService.removeDuplicateToggles [] titles children = []
  /\ NotionService.removeDuplicateToggles parentId [] children = [].
Proof.
  intros Hparent Hnd archived.
  assert (archived
          = flat_map (NotionService.duplicatesOf children) titles) as Ha.
  { subst archived. unfold NotionService.removeDuplicateToggles.
    destruct parentId; [contradiction|]. cbn [truthy negb orb].
    destruct titles; reflexivity. }
  assert (forall b, In b children ->
            (archivedIn archived b = true
             <-> exists title,
                   In title titles
                   /\ In b (tl (filter (NotionService.isToggleTitled title)
                                       children)))) as Harch.
  { intros b Hb. unfold archivedIn. rewrite Ha, existsb_exists. split.
    - intros (id & Hid & Heq). apply jsstring_eqb_eq in Heq. subst id.
      apply in_flat_map in Hid. destruct Hid as (title & Ht & Hid).
      unfold NotionService.duplicatesOf in Hid. apply in_map_iff in Hid.
      destruct Hid as (b' & Hid & Hb').
      assert (In b' children) as Hc.
      { destruct (filter (NotionService.isToggleTitled title) children)
          as [|x rest] eqn:E; [contradiction|].
        assert (In b' (filter (NotionService.isToggleTitled title) children))
          as Hin by (rewrite E; now right).
        apply filter_In in Hin. tauto. }
      rewrite (NoDup_map_injective _ _ b b' Hnd Hb Hc (eq_sym Hid)).
      now exists title.
    - intros (title & Ht & Hin). exists (NotionService.blockId b).
      split; [|apply jsstring_eqb_refl].
      apply in_flat_map. exists title. split; [exact Ht|].
      unfold NotionService.duplicatesOf. now apply in_map. }
  split; [|split; [|split]].
  - intros title Ht.
    rewrite <- (filter_filter (fun b => negb (archivedIn archived b))
                  (NotionService.isToggleTitled title) children).
    pose proof (NoDup_map_filter NotionService.blockId
                  (NotionService.isToggleTitled title) children Hnd) as Hndf.
    assert (forall b,
              In b (filter (NotionService.isToggleTitled title) children) ->
              (archivedIn archived b = true
               <-> In b (tl (filter (NotionService.isToggleTitled title)
                                    children)))) as Hin.
    { intros b Hb. apply filter_In in Hb. destruct Hb as [Hb Htb].
      rewrite (Harch b Hb). split.
      - intros (title' & Ht' & Hin').
        assert (NotionService.isToggleTitled title' b = true) as Htb'.
        { destruct (filter (NotionService.isToggleTitled title') children)
            as [|x rest] eqn:E; [contradiction|].
          assert (In b (filter (NotionService.isToggleTitled title')
                               children)) as H
            by (rewrite E; now right).
          apply filter_In in H. tauto. }
        now rewrite (isToggleTitled_title title title' b Htb Htb').
      - intros H. now exists title. }
    destruct (filter (NotionService.isToggleTitled title) children)
      as [|x rest]; [reflexivity|].
    cbn [filter firstn tl] in *.
    inversion Hndf as [|? ? Hnotin Hndr]; subst.
    assert (archivedIn archived x = false) as ->.
    { destruct (archivedIn archived x) eqn:E; [|reflexivity].
      apply (Hin x (or_introl eq_refl)) in E.
      exfalso. apply Hnotin. now apply in_map. }
    cbn [negb]. f_equal. apply filter_none.
    intros y Hy. apply negb_false_iff. apply (Hin y); [now right|exact Hy].
  - intros b Hb H. apply (Harch b Hb) in H.
    destruct H as (title & Ht & Hin). exists title. split; [exact Ht|].
    destruct (filter (NotionService.isToggleTitled title) children)
      as [|x rest] eqn:E; [contradiction|].
    assert (In b (filter (NotionService.isToggleTitled title) children)) as H
      by (rewrite E; now right).
    apply filter_In in H. tauto.
  - reflexivity.
  - unfold NotionService.removeDuplicateToggles.
    now rewrite orb_true_r.
Qed.

Lemma removeDuplicateToggles_keeps_first_witness :
  let archived :=
    NotionService.removeDuplicateToggles (lit "page")
      [lit "Form"; lit "Team Inputs"] sampleChildren in
  (forall title,
      In title [lit "Form"; lit "Team Inputs"] ->
      filter (fun b => NotionService.isToggleTitled title b
                       && negb (archivedIn archived b)) sampleChildren
      = firstn 1 (filter (NotionService.isToggleTitled title)
                         sampleChildren))
  /\ (forall b,
         In b sampleChildren -> archivedIn archived b = true ->
         exists title, In title [lit "Form"; lit "Team Inputs"]
                       /\ NotionService.isToggleTitled title b = true)
  /\ NotionService.removeDuplicateToggles []
       [lit "Form"; lit "Team Inputs"] sampleChildren = []
  /\ NotionService.removeDuplicateToggles (lit "page") [] sampleChildren
     = [].
Proof.
  apply removeDuplicateToggles_keeps_first.
  - discriminate.
  - vm_compute. repeat constructor; simpl; intuition discriminate.
Defined.

(* ================================================================== *)
(** ** The report on unmatched searcher referrals *)

Lemma setAdd_In (set : list jsstring) (v x : jsstring) :
  In x (MatchingUtils.setAdd set v) <-> In x set \/ x = v.
Proof.
  unfold MatchingUtils.setAdd.
  destruct (existsb (jsstring_eqb v) set) eqn:E.
  - split; [tauto|]. intros [H|H]; [exact H|]. subst x.
    apply existsb_exists in E. destruct E as (y & Hy & Heq).
    apply jsstring_eqb_eq in Heq. now subst y.
  - rewrite in_app_iff. simpl. split; [intros [H|[H|[]]]; auto|].
    intros [H|H]; [now left|right; now left].
Qed.

Lemma setAdd_NoDup (set : list jsstring) (v : jsstring) :
  NoDup set -> NoDup (MatchingUtils.setAdd set v).
Proof.
  intros H. unfold MatchingUtils.setAdd.
  destruct (existsb (jsstring_eqb v) set) eqn:E; [exact H|].
  apply NoDup_app; [exact H|repeat constructor; intros []|].
  intros x Hx [<-|[]].
  assert (existsb (jsstring_eqb v) set = true) as Ht; [|congruence].
  apply existsb_exists. exists v. split; [exact Hx|apply jsstring_eqb_refl].
Qed.

Lemma setAdd_length (set : list jsstring) (v : jsstring) :
  List.length (MatchingUtils.setAdd set v) <= S (List.length set).
Proof.
  unfold MatchingUtils.setAdd.
  destruct (existsb (jsstring_eqb v) set); [lia|].
  rewrite length_app. simpl. lia.
Qed.

(** A set holds the distinct values it was built from. *)
Lemma setOf_spec (values : list jsstring) :
  NoDup (MatchingUtils.setOf values)
  /\ (forall x, In x (MatchingUtils.setOf values) <-> In x values)
  /\ List.length (MatchingUtils.setOf values) <= List.length values.
Proof.
  unfold MatchingUtils.setOf.
  assert (forall set,
             NoDup set ->
             NoDup (fold_left MatchingUtils.setAdd values set)
             /\ (forall x, In x (fold_left MatchingUtils.setAdd values set)
                           <-> In x set \/ In x values)
             /\ List.length (fold_left MatchingUtils.setAdd values set)
                <= List.length set + List.length values) as H.
  { induction values as [|v values IH]; intros set Hnd; cbn [fold_left].
    - split; [exact Hnd|]. split; [simpl; tauto|simpl; lia].
    - destruct (IH _ (setAdd_NoDup set v Hnd)) as (H1 & H2 & H3).
      split; [exact H1|]. split.
      + intros x. rewrite H2, setAdd_In. simpl. intuition congruence.
      + pose proof (setAdd_length set v). simpl. lia. }
  destruct (H [] (NoDup_nil _)) as (H1 & H2 & H3).
  split; [exact H1|]. split; [|exact H3].
  intros x. rewrite H2. simpl. tauto.
Qed.

Section DebugFacts.
Context {B : Builtins}.

(** X25. In the report of [debugSearcherReferralMatching] the number of
    searchers is the number of distinct non-empty normalized names of
    column 37, and a referral counts as unmatched exactly when the
    normalized name of its column 22 is non-empty and is the normalized
    name of no searcher row.  Referrals without a usable name are not
    counted, so the count is at most the number of referrals; and
    [findMatchingReferrals] returns a referral counted as unmatched for none
    of the names in column 37. *)
Theorem debugSearcherReferralMatching_counts
  (searcherRows referralRows : list Row) :
  let info :=
    MatchingUtils.debugSearcherReferralMatching searcherRows referralRows in
  let nameOf := fun row => normalizeText (Some (orEmpty (cell row 37))) in
  let referredOf := fun row => normalizeText (Some (orEmpty (cell row 22))) in
  let names := MatchingUtils.searcherNames searcherRows in
  NoDup names
  /\ (forall name,
        In name names
        <-> name <> [] /\ exists row, In row searcherRows
                                      /\ nameOf row = name)
  /\ MatchingUtils.totalSearchers info = List.length names
  /\ MatchingUtils.totalSearchers info <= List.length searcherRows
  /\ MatchingUtils.totalReferrals info = List.length referralRows
  /\ MatchingUtils.unmatchedReferrals info
     = List.length
         (filter (fun referral =>
                    truthy (referredOf referral)
                    && negb (existsb (fun row =>
                                        jsstring_eqb (nameOf row)
                                                     (referredOf referral))
                                     searcherRows))
                 referralRows)
  /\ MatchingUtils.unmatchedReferrals info
     <= MatchingUtils.totalReferrals info
  /\ (forall referral searcherRow name,
        In referral referralRows ->
        MatchingUtils.isUnmatched names referral = true ->
        In searcherRow searcherRows ->
        cell searcherRow 37 = Some name ->
        findMatchingReferrals name [referral] 22 = []).
Proof.
  intros info nameOf referredOf names.
  destruct (setOf_spec
              (filter (fun name => (0 <? List.length name)%nat)
                      (map nameOf searcherRows))) as (Hnd & Hin & Hlen).
  change (MatchingUtils.setOf _) with names in Hnd, Hin, Hlen.
  assert (forall name,
            In name names
            <-> name <> [] /\ exists row, In row searcherRows
                                          /\ nameOf row = name) as Hnames.
  { intros name. rewrite Hin, filter_In, in_map_iff. split.
    - intros [(row & <- & Hrow) Hl]. split; [|now exists row].
      intros E. rewrite E in Hl. discriminate.
    - intros [Hne (row & Hrow & <-)]. split; [now exists row|].
      now destruct (nameOf row). }
  assert (forall referral,
            MatchingUtils.isUnmatched names referral
            = truthy (referredOf referral)
              && negb (existsb (fun row =>
                                  jsstring_eqb (nameOf row)
                                               (referredOf referral))
                               searcherRows)) as Hun.
  { intros referral.
    change (MatchingUtils.isUnmatched names referral)
      with (truthy (referredOf referral)
            && negb (existsb (jsstring_eqb (referredOf referral)) names)).
    destruct (truthy (referredOf referral)) eqn:Et; [|reflexivity].
    cbn [andb]. f_equal.
    destruct (existsb (jsstring_eqb (referredOf referral)) names) eqn:E1;
      destruct (existsb (fun row => jsstring_eqb (nameOf row)
                                                 (referredOf referral))
                        searcherRows) eqn:E2; try reflexivity; exfalso.
    - apply existsb_exists in E1. destruct E1 as (n & Hn & Heq).
      apply jsstring_eqb_eq in Heq. subst n.
      apply Hnames in Hn. destruct Hn as [_ (row & Hrow & Hr)].
      assert (existsb (fun row => jsstring_eqb (nameOf row)
                                               (referredOf referral))
                      searcherRows = true) as H; [|congruence].
      apply existsb_exists. exists row. split; [exact Hrow|].
      now apply jsstring_eqb_eq.
    - apply existsb_exists in E2. destruct E2 as (row & Hrow & Heq).
      apply jsstring_eqb_eq in Heq.
      assert (existsb (jsstring_eqb (referredOf referral)) names = true)
        as H; [|congruence].
      apply existsb_exists. exists (referredOf referral).
      split; [|apply jsstring_eqb_refl].
      apply Hnames. split; [now destruct (referredOf referral)|].
      now exists row. }
  split; [exact Hnd|]. split; [exact Hnames|]. split; [reflexivity|].
  split.
  { subst info. cbn [MatchingUtils.debugSearcherReferralMatching
                     MatchingUtils.totalSearchers].
    fold names. etransitivity; [exact Hlen|].
    etransitivity; [apply filter_length_le|]. now rewrite length_map. }
  split; [reflexivity|]. split.
  { subst info. cbn [MatchingUtils.debugSearcherReferralMatching
                     MatchingUtils.unmatchedReferrals].
    fold names. f_equal. apply filter_ext. exact Hun. }
  split; [apply filter_length_le|].
  intros referral searcherRow name _ Hu Hrow Hcell.
  unfold findMatchingReferrals.
  destruct name as [|c name']; [reflexivity|]. cbn [truthy filter].
  unfold referralMatches. cbv zeta.
  destruct (otruthy (cell referral 22)) eqn:Eo; [|reflexivity].
  match goal with
  | |- context [jsstring_eqb ?a ?b] => destruct (jsstring_eqb a b) eqn:E
  end; [|reflexivity].
  exfalso. apply jsstring_eqb_eq in E.
  rewrite Hun in Hu. apply andb_true_iff in Hu. destruct Hu as [_ Hu].
  apply negb_true_iff in Hu.
  assert (existsb (fun row => jsstring_eqb (nameOf row)
                                           (referredOf referral))
                  searcherRows = true) as H; [|congruence].
  apply existsb_exists. exists searcherRow. split; [exact Hrow|].
  apply jsstring_eqb_eq. unfold nameOf, referredOf. rewrite Hcell.
  cbn [orEmpty]. rewrite <- E.
  destruct (cell referral 22) as [[|]|]; try discriminate Eo. reflexivity.
Qed.

End DebugFacts.

(* ================================================================== *)
(** ** Retrying Notion requests in the second script *)

Lemma last_cons_default {A : Type} (l : list A) (a d : A) :
  last (a :: l) d = last l a.
Proof.
  revert a d. induction l as [|b l IH]; intros a d; [reflexivity|].
  change (last (a :: b :: l) d) with (last (b :: l) d).
  now rewrite !IH.
Qed.

Section LegacyRetryFacts.
Context {B : Builtins}.
Variables World Result : Type.
Variable fn : World -> World * (NotionService.Error + Result).

(** The loop, from any iteration on: every transient failure is followed
    by a wait, and the loop ends with the first result, with the first
    error that is not transient, or, when all the iterations left failed
    with a transient error, with the last one of these errors. *)
Lemma legacy_retryFrom_spec (baseDelay : Z) :
  forall (remaining : nat) (i : Z) (lastErr : option NotionService.Error)
         (w : World),
    (0 <= i)%Z ->
    let r := LegacyRetry.retryFrom fn remaining i baseDelay lastErr w in
    exists failures,
      Forall (fun e => LegacyRetry.transient e = true) failures
      /\ NotionService.delays r
         = map (fun k => Z.min 30000 (baseDelay * 2 ^ (i + Z.of_nat k)))%Z
               (seq 0 (List.length failures))
      /\ ((exists result,
              NotionService.attempts r = map inl failures ++ [inr result]
              /\ NotionService.outcome r = NotionService.Resolved result
              /\ List.length failures < remaining)
          \/ (exists error,
                 LegacyRetry.transient error = false
                 /\ NotionService.attempts r = map inl failures ++ [inl error]
                 /\ NotionService.outcome r
                    = NotionService.Rejected Result error
                 /\ List.length failures < remaining)
          \/ (NotionService.attempts r = map inl failures
              /\ List.length failures = remaining
              /\ NotionService.world r = fold_left (fun w _ => fst (fn w))
                                                   failures w
              /\ NotionService.outcome r
                 = match last (map Some failures) lastErr with
                   | Some err => NotionService.Rejected Result err
                   | None => NotionService.RejectedUndefined Result
                   end)).
Proof.
  induction remaining as [|remaining IH]; intros i lastErr w Hi.
  - cbn. exists []. split; [constructor|]. split; [reflexivity|].
    right. right. cbn. repeat split.
  - cbn [LegacyRetry.retryFrom].
    destruct (fn w) as [w' [err|result]] eqn:Efn.
    + destruct (LegacyRetry.transient err) eqn:Et.
      * specialize (IH (i + 1)%Z (Some err) w' ltac:(lia)).
        cbv zeta in IH. destruct IH as (failures & Hf & Hd & Hend).
        cbn [NotionService.attempts NotionService.delays
             NotionService.outcome NotionService.world].
        exists (err :: failures). split; [now constructor|]. split.
        -- cbn [List.length seq map]. f_equal.
           ++ f_equal. f_equal. f_equal. lia.
           ++ rewrite <- seq_shift, map_map, Hd. apply map_ext.
              intros k. f_equal. f_equal. f_equal. lia.
        -- destruct Hend as [(result & Ha & Ho & Hl)
                            |[(error & Hn & Ha & Ho & Hl)
                             |(Ha & Hl & Hw & Ho)]].
           ++ left. exists result. cbn [map app List.length].
              rewrite Ha. repeat split; [exact Ho|lia].
           ++ right. left. exists error. cbn [map app List.length].
              rewrite Ha. repeat split; [exact Hn|exact Ho|lia].
           ++ right. right. cbn [map List.length fold_left].
              rewrite Ha, Efn. cbn [fst].
              repeat split; [lia|exact Hw|].
              rewrite Ho. cbn [map]. now rewrite last_cons_default.
      * cbn. exists []. split; [constructor|]. split; [reflexivity|].
        right. left. exists err. cbn. repeat split; [exact Et|lia].
    + cbn. exists []. split; [constructor|]. split; [reflexivity|].
      left. exists result. cbn. repeat split. lia.
Qed.

(** X26. The [withRetry] of the second script waits after every transient
    failure, the last one included: when all the [tries] calls fail with a
    transient error it sleeps [tries] times and then throws the last error.
    The wait after the failure [k] (from 0) is [baseDelay * 2^k]
    milliseconds, capped at 30 seconds.  It returns the first result and
    throws at once the first error that is not transient.  With the
    defaults (8 tries, 1000 ms) a call waits at most 121 seconds in all. *)
Theorem legacy_withRetry_waits (tries baseDelay : Z) (w : World) :
  let r := LegacyRetry.withRetry fn tries baseDelay w in
  exists failures,
    Forall (fun e => LegacyRetry.transient e = true) failures
    /\ NotionService.delays r = cappedBackoff baseDelay (List.length failures)
    /\ ((exists result,
            NotionService.attempts r = map inl failures ++ [inr result]
            /\ NotionService.outcome r = NotionService.Resolved result
            /\ (Z.of_nat (List.length failures) < tries)%Z)
        \/ (exists error,
               LegacyRetry.transient error = false
               /\ NotionService.attempts r = map inl failures ++ [inl error]
               /\ NotionService.outcome r
                  = NotionService.Rejected Result error
               /\ (Z.of_nat (List.length failures) < tries)%Z)
        \/ (NotionService.attempts r = map inl failures
            /\ Z.of_nat (List.length failures) = Z.max 0 tries
            /\ NotionService.outcome r
               = match last (map Some failures) None with
                 | Some err => NotionService.Rejected Result err
                 | None => NotionService.RejectedUndefined Result
                 end))
    /\ (tries = LegacyRetry.TRIES -> baseDelay = LegacyRetry.BASE_DELAY ->
        (0 <= totalDelay (NotionService.delays r) <= 121000)%Z).
Proof.
  intros r. subst r. unfold LegacyRetry.withRetry.
  destruct (legacy_retryFrom_spec baseDelay (Z.to_nat tries) 0 None w
              ltac:(lia)) as (failures & Hf & Hd & Hend).
  cbv zeta in Hd, Hend.
  exists failures. split; [exact Hf|].
  assert (NotionService.delays
            (LegacyRetry.retryFrom fn (Z.to_nat tries) 0 baseDelay None w)
          = cappedBackoff baseDelay (List.length failures)) as Hd'.
  { rewrite Hd. unfold cappedBackoff. apply map_ext. intros k.
    reflexivity. }
  split; [exact Hd'|].
  assert (List.length failures <= Z.to_nat tries) as Hle.
  { destruct Hend as [(result & _ & _ & Hl)
                     |[(error & _ & _ & _ & Hl)|(_ & Hl & _)]]; lia. }
  split.
  - destruct Hend as [(result & Ha & Ho & Hl)
                     |[(error & Hn & Ha & Ho & Hl)|(Ha & Hl & _ & Ho)]].
    + left. exists result. repeat split; [exact Ha|exact Ho|lia].
    + right. left. exists error.
      repeat split; [exact Hn|exact Ha|exact Ho|lia].
    + right. right. repeat split; [exact Ha|lia|exact Ho].
  - intros -> ->. rewrite Hd'.
    unfold LegacyRetry.TRIES in Hle. unfold LegacyRetry.BASE_DELAY.
    change (Z.to_nat 8) with 8 in Hle.
    revert Hle. generalize (List.length failures) as n. intros n Hle.
    do 9 (destruct n as [|n]; [vm_compute; split; discriminate|]). lia.
Qed.

End LegacyRetryFacts.

(* ================================================================== *)
(** ** The matchers and the normalizer of the scripts *)

Section ScriptFacts.
Context {B : Builtins}.

Lemma considerCandidate_considerKey (target : jsstring)
  (candidates : list jsstring) :
  Forall normalizedKey candidates ->
  forall st,
    fold_left (considerCandidate target) candidates st
    = fold_left (Legacy.considerKey target) candidates st.
Proof.
  induction 1 as [|c candidates [Hne Hfix] _ IH]; intros st; [reflexivity|].
  cbn [fold_left]. rewrite <- IH. f_equal.
  unfold considerCandidate, Legacy.considerKey.
  destruct c as [|x c]; [now contradiction Hne|].
  cbn [truthy]. now rewrite Hfix.
Qed.

(** X27. On keys that are not empty and already normalized, [findBestMatch]
    with the distance 2 returns what the [getBestMatch] of the second
    script returns on the same arguments. *)
Theorem findBestMatch_getBestMatch (target : jsstring)
  (candidates : list jsstring) :
  normalizedKey target ->
  Forall normalizedKey candidates ->
  findBestMatch target candidates defaultMaxDistance
  = Legacy.getBestMatch target candidates.
Proof.
  intros [Hne Hfix] Hall. unfold findBestMatch, Legacy.getBestMatch.
  destruct target as [|x target]; [now contradiction Hne|].
  cbn [truthy]. cbv zeta. rewrite Hfix.
  rewrite (considerCandidate_considerKey _ _ Hall).
  destruct (bestScore _) as [score|]; [|reflexivity].
  unfold defaultMaxDistance.
  destruct (score <=? 2) eqn:E.
  - apply Nat.leb_le in E.
    now replace (Z.of_nat score <=? 2)%Z with true
      by (symmetry; apply Z.leb_le; lia).
  - apply Nat.leb_gt in E.
    now replace (Z.of_nat score <=? 2)%Z with false
      by (symmetry; apply Z.leb_gt; lia).
Qed.

(** X28. The matchers of the two scripts have no guard: for every target and
    every list of candidates they return the first candidate with the
    least distance when that distance is at most 2, and [null] when every
    candidate is farther away (so also for no candidate).  The second
    script measures the distance between the keys as they are passed, the
    first one between the names as [normalizeName] leaves them. *)
Theorem script_getBestMatch_first_least (target : jsstring)
  (candidates : list jsstring) :
  let score := Levenshtein.distance target in
  let scoreFirst := fun c =>
    Levenshtein.distance (LegacyFirst.normalizeName target)
                         (LegacyFirst.normalizeName c) in
  match Legacy.getBestMatch target candidates with
  | Some r => firstLeast score candidates r /\ score r <= 2
  | None => forall c, In c candidates -> 2 < score c
  end
  /\ match LegacyFirst.getBestMatch target candidates with
     | Some r => firstLeast scoreFirst candidates r /\ scoreFirst r <= 2
     | None => forall c, In c candidates -> 2 < scoreFirst c
     end.
Proof.
  intros score scoreFirst. split.
  - pose proof (getBestMatch_contract target candidates) as H.
    unfold bestMatchContract in H.
    destruct (Legacy.getBestMatch target candidates) as [r|].
    + destruct H as [HL Hle]. split; [exact HL|]. subst score. lia.
    + intros c Hc. specialize (H c Hc). subst score. lia.
  - exact (getBestMatch_first_scores target candidates).
Qed.

(** X29. The normalizer [normName] of the second script and [normalizeText]
    of the text utilities are the same function: they agree on every
    string and on [null]/[undefined]; so [normName] too leaves its own
    results unchanged. *)
Theorem normName_agrees (s : option jsstring) :
  Legacy.normName s = normalizeText s
  /\ Legacy.normName (Some (Legacy.normName s)) = Legacy.normName s.
Proof.
  pose proof (normName_normalizeText s) as H.
  split; [exact H|].
  rewrite (normName_normalizeText (Some (Legacy.normName s))), H.
  apply normalizeText_fixed, normalizeText_normalized.
Qed.

End ScriptFacts.

Lemma findBestMatch_getBestMatch_witness :
  let B := AsciiText.builtins in
  findBestMatch (lit "acme") [lit "acme corp"; lit "acne"] defaultMaxDistance
  = Legacy.getBestMatch (lit "acme") [lit "acme corp"; lit "acne"].
Proof.
  intros B.
  apply (@findBestMatch_getBestMatch AsciiText.builtins (lit "acme")
           [lit "acme corp"; lit "acne"]).
  - split; [discriminate|vm_compute; reflexivity].
  - repeat constructor; try discriminate; vm_compute; reflexivity.
Defined.
